(** * UniSRec baselines: popularity labels, bias partition, debiased scores

    A shallow embedding of [baselines/abstract_recommender.py]
    ([AbstractRecommender], [SequentialRecommender], [ContextRecommender])
    and [baselines/sasrecn.py] ([SASRecN]).

    Conventions of the embedding.
    - Python [int] is [Z]; a Python list is a [list]; the dataset's
      [Counter] is a [gmap nat Z] read with default 0.
    - An exception is a value of [pyerr]; a call that may raise returns a
      [result].
    - [round(a / b)] on two integers is embedded exactly: Python's true
      division is correctly rounded and [round] rounds half to even, so
      for [|a| < 2^52] the float result is the half-even rounding of the
      rational [a / b].  [float_round_div] below runs the same computation
      in binary64 and is used to cross-check concrete inputs.
    - [math.log] is embedded as the real logarithm [ln].
    - Torch scalars are an abstract carrier with uninterpreted operations
      (no algebraic law is assumed), so each statement holds for binary32
      and binary64 arithmetic alike.
    - The embeddings of [ContextRecommender] are followed along
      dimension 1: a tensor is the list of its slices, whose contents come
      from the embedding tables and stay abstract.  [KeyError] carries its
      key and lives in a type of its own, [ContextRecommender.exn]. *)

From Stdlib Require Import ZArith List String Lia Reals Lra Uint63.
From Stdlib Require Import Floats.PrimFloat Floats.SpecFloat Floats.FloatOps.
From stdpp Require Import base list gmap strings sorting.

#[local] Open Scope Z_scope.

(** ** Python values, exceptions and builtins *)

Module Py.

(** The exceptions which the embedded code can raise.
    [RankBeyondEmbedding] is not a Python exception: it marks a tensor of
    rank three, which the embedding does not represent (see
    [Torch.unsqueeze]). *)
Inductive pyerr : Set :=
  | IndexError
  | ValueError
  | ZeroDivisionError
  | OverflowError
  | AttributeError
  | NotImplementedError
  | RuntimeError
  | TypeError
  | RankBeyondEmbedding.

Inductive result (A : Type) : Type :=
  | Ok (a : A)
  | Raise (e : pyerr).

Arguments Ok {A} a.
Arguments Raise {A} e.

#[global] Instance result_ret : MRet result := fun A a => Ok a.

#[global] Instance result_bind : MBind result :=
  fun A B f m => match m with Ok a => f a | Raise e => Raise e end.

#[global] Instance result_fmap : FMap result :=
  fun A B f m => match m with Ok a => Ok (f a) | Raise e => Raise e end.

(** [[f(x) for x in l]], stopping at the first exception. *)
Fixpoint mapR {A B} (f : A -> result B) (l : list A) : result (list B) :=
  match l with
  | [] => Ok []
  | x :: l' => y ← f x; ys ← mapR f l'; Ok (y :: ys)
  end.

(** [[f(x, y) for x, y in zip(la, lb)]]. *)
Fixpoint zipR {A B C} (f : A -> B -> result C) (la : list A) (lb : list B)
  : result (list C) :=
  match la, lb with
  | x :: la', y :: lb' => z ← f x y; zs ← zipR f la' lb'; Ok (z :: zs)
  | _, _ => Ok []
  end.

(** [for i, v in enumerate(l): out.append(f(i, v))], starting at index [i]. *)
Fixpoint for_enumerate {A B} (f : nat -> A -> result B) (i : nat) (l : list A)
  : result (list B) :=
  match l with
  | [] => Ok []
  | v :: l' => y ← f i v; ys ← for_enumerate f (S i) l'; Ok (y :: ys)
  end.

(** [l[i]] with Python's negative indices. *)
Definition getitem {A} (l : list A) (i : Z) : result A :=
  let n := Z.of_nat (length l) in
  let j := if i <? 0 then i + n else i in
  if (0 <=? j) && (j <? n)
  then match l !! Z.to_nat j with Some x => Ok x | None => Raise IndexError end
  else Raise IndexError.

(** [max(l)] on a list: [ValueError] on the empty list. *)
Definition max_list (l : list Z) : result Z :=
  match l with
  | [] => Raise ValueError
  | x :: xs => Ok (foldl Z.max x xs)
  end.

(** [sum(l)]. *)
Definition sum_list (l : list Z) : Z := foldl Z.add 0 l.

(** Half-even rounding of the rational [a / b], for [0 < b]. *)
Definition round_half_even (a b : Z) : Z :=
  let q := a / b in
  let r := a mod b in
  if 2 * r <? b then q
  else if b <? 2 * r then q + 1
  else if Z.even q then q else q + 1.

(** [round(a / b)] for Python integers [a], [b]. *)
Definition round_div (a b : Z) : result Z :=
  if b =? 0 then Raise ZeroDivisionError else
  if 0 <? b then Ok (round_half_even a b) else Ok (round_half_even (- a) (- b)).

(** [round(x)] on a real: nearest integer, ties to the even one. *)
Definition round_R (x : R) : Z :=
  let f := Int_part x in
  let d := (x - IZR f)%R in
  if Rlt_dec d (1 / 2) then f
  else if Rlt_dec (1 / 2) d then f + 1
  else if Z.even f then f else f + 1.

(** [math.log(v)] on an integer: [ValueError] (math domain error) unless
    [v] is positive. *)
Definition math_log (v : Z) : result R :=
  if v <=? 0 then Raise ValueError else Ok (ln (IZR v)).

(** *** The same builtins in binary64, for cross-checks on concrete inputs *)

(** [float(z)], for [|z| < 2^63]; exact below [2^53]. *)
Definition float_of_Z (z : Z) : float :=
  if z <? 0 then PrimFloat.opp (PrimFloat.of_uint63 (Uint63.of_Z (- z)))
  else PrimFloat.of_uint63 (Uint63.of_Z z).

(** [int(x)]: truncation towards zero. *)
Definition int_of_float (x : float) : result Z :=
  match Prim2SF x with
  | S754_zero _ => Ok 0
  | S754_finite s m e =>
      let a := if 0 <=? e then Z.pos m * 2 ^ e else Z.pos m / 2 ^ (- e) in
      Ok (if s then - a else a)
  | S754_infinity _ => Raise OverflowError
  | S754_nan => Raise ValueError
  end.

(** [round(x)]: half-even rounding of a float. *)
Definition round_float (x : float) : result Z :=
  match Prim2SF x with
  | S754_zero _ => Ok 0
  | S754_finite s m e =>
      let a := if 0 <=? e then Z.pos m * 2 ^ e
               else round_half_even (Z.pos m) (2 ^ (- e)) in
      Ok (if s then - a else a)
  | S754_infinity _ => Raise OverflowError
  | S754_nan => Raise ValueError
  end.

(** [round(a / b)] computed in binary64. *)
Definition float_round_div (a b : Z) : result Z :=
  if b =? 0 then Raise ZeroDivisionError
  else round_float (PrimFloat.div (float_of_Z a) (float_of_Z b)).

(** Whether the exact rounding and the binary64 one agree on [a / b]. *)
Definition agree_on (a b : Z) : bool :=
  match round_div a b, float_round_div a b with
  | Ok x, Ok y => x =? y
  | Raise ZeroDivisionError, Raise ZeroDivisionError => true
  | _, _ => false
  end.

End Py.

Import Py.

(** ** [SequentialRecommender]: popularity labels and the bias partition *)

Module SequentialRecommender.

(** The attributes of the instance which [cal_popular] and
    [calcualte_bias_label] read.  [b_ratio] is assigned by the caller
    before [calcualte_bias_label] runs. *)
Record t : Type := mk {
  n_items : nat;
  item_cnt : gmap nat Z;
  label_strategy : string;
  label_count : Z;
  b_ratio : float;
}.

(** [self.item_cnt[item_k]]: a [Counter] answers 0 for a missing key. *)
Definition counter_get (c : gmap nat Z) (k : nat) : Z := default 0 (c !! k).

(** [v = self.item_cnt[item_k]; v = max(v, 1)]. *)
Definition clamp (c : gmap nat Z) (k : nat) : Z := Z.max (counter_get c k) 1.

(** The first loop of [cal_popular] and of [calcualte_bias_label]:
    the clamped count of every item, in item order. *)
Definition clamped_counts (self : t) : list Z :=
  clamp (item_cnt self) <$> seq 0 (n_items self).

(** [np.argsort]: the indices of [l] in ascending order of their value.
    Numpy's default sort leaves the order of equal values open; here they
    stay in index order. *)
Fixpoint insert_idx (key : nat -> Z) (i : nat) (s : list nat) : list nat :=
  match s with
  | [] => [i]
  | j :: s' => if key i <=? key j then i :: j :: s' else j :: insert_idx key i s'
  end.

Definition argsort_by (key : nat -> Z) (n : nat) : list nat :=
  foldr (insert_idx key) [] (seq 0 n).

Definition argsort (l : list Z) : list nat :=
  argsort_by (fun i => default 0 (l !! i)) (length l).

(** The body of the labelling loop of [cal_popular], for the item at
    index [i] with clamped count [v].  The loop runs over as many items
    as [lidx] holds, so [len(lidx)] is positive whenever the body runs. *)
Definition label_of (self : t) (max_pop : Z) (lidx : list nat) (i : nat) (v : Z)
  : result Z :=
  lg ← math_log v;
  let nv := round_R lg in
  if String.eqb (label_strategy self) "avg" then
    round_div (label_count self * v) max_pop
  else if String.eqb (label_strategy self) "arg" then
    r ← getitem lidx (Z.of_nat i);
    round_div (label_count self * Z.of_nat r) (Z.of_nat (length lidx))
  else Ok nv.

(** [cal_popular]: the list assigned to [self.label]. *)
Definition cal_popular (self : t) : result (list Z) :=
  let label := clamped_counts self in
  max_pop ← max_list label;
  let lidx := argsort label in
  for_enumerate (label_of self max_pop lidx) 0 label.

(** The state of the partition loop of [calcualte_bias_label]. *)
Record partition : Type := mk_partition {
  bias_label : list Z;
  bias_idx : list nat;
  bias_cnt : Z;
  nobias_cnt : Z;
}.

Definition bias_step (mid_i bias_line nobias_line : Z)
  (st : partition) (i : nat) (v : Z) : partition :=
  if bias_line <=? v then
    mk_partition (bias_label st ++ [1]) (bias_idx st ++ [i])
                 (bias_cnt st + 1) (nobias_cnt st)
  else if v <=? nobias_line then
    if mid_i <? nobias_cnt st then st
    else mk_partition (bias_label st ++ [0]) (bias_idx st ++ [i])
                      (bias_cnt st) (nobias_cnt st + 1)
  else st.

Fixpoint bias_loop (mid_i bias_line nobias_line : Z)
  (st : partition) (i : nat) (bias : list Z) : partition :=
  match bias with
  | [] => st
  | v :: bias' =>
      bias_loop mid_i bias_line nobias_line
        (bias_step mid_i bias_line nobias_line st i v) (S i) bias'
  end.

(** [calcualte_bias_label], from [mid_i] on. *)
Definition bias_partition_at (mid_i : Z) (bias : list Z) : result partition :=
  let bias_bak := merge_sort Z.le bias in
  bias_line ← getitem bias_bak (- mid_i);
  nobias_line ← getitem bias_bak mid_i;
  Ok (bias_loop mid_i bias_line nobias_line (mk_partition [] [] 0 0) 0 bias).

(** [mid_i = int(len(bias_bak) * self.b_ratio)], in binary64. *)
Definition mid_index (len : nat) (ratio : float) : result Z :=
  int_of_float (PrimFloat.mul (float_of_Z (Z.of_nat len)) ratio).

(** [calcualte_bias_label]: the lists assigned to [self.bias_label] and
    [self.bias_idx], with the two counters it prints. *)
Definition calcualte_bias_label (self : t) : result partition :=
  let bias := clamped_counts self in
  mid_i ← mid_index (length (merge_sort Z.le bias)) (b_ratio self);
  bias_partition_at mid_i bias.

(** The binary64 value of the Python literal [0.4]. *)
Definition ratio_0_4 : float := 0x1.999999999999ap-2%float.

(** The binary64 value of the Python literal [0.1]. *)
Definition ratio_0_1 : float := 0x1.999999999999ap-4%float.

(** The [Counter] of a catalogue whose item [k] was seen [l[k]] times. *)
Definition counter_of_list (l : list Z) : gmap nat Z :=
  list_to_map (zip (seq 0 (length l)) l).

(** The rank of item [i] as the specification words it: its 0-based
    position when all counts are sorted ascending (equal counts in index
    order). *)
Definition rank_of (l : list Z) (i : nat) : nat :=
  let v := default 0 (l !! i) in
  length (filter (fun jw => jw.2 < v \/ (jw.2 = v /\ (jw.1 < i)%nat))
                 (zip (seq 0 (length l)) l)).

(** The [arg] labels as the specification words them. *)
Definition arg_labels_by_rank (label_count : Z) (l : list Z) : list Z :=
  (fun i => round_half_even (label_count * Z.of_nat (rank_of l i))
                            (Z.of_nat (length l))) <$> seq 0 (length l).

End SequentialRecommender.

(** ** Torch tensors of rank at most two *)

Module Torch.

(** A tensor of shape [[]], [[n]] or [[r, cols]]; the rows of a [T2] have
    [cols] entries each. *)
Inductive tensor (F : Type) : Type :=
  | T0 (x : F)
  | T1 (v : list F)
  | T2 (cols : nat) (rows : list (list F)).

Arguments T0 {F} x.
Arguments T1 {F} v.
Arguments T2 {F} cols rows.

Section ops.
Context {F : Type}.

Definition shape (t : tensor F) : list nat :=
  match t with
  | T0 _ => []
  | T1 v => [length v]
  | T2 c rows => [length rows; c]
  end.

(** [t.squeeze()]: every dimension of size one is dropped. *)
Definition squeeze1 (v : list F) : tensor F :=
  match v with
  | [x] => T0 x
  | _ => T1 v
  end.

Definition squeeze (t : tensor F) : tensor F :=
  match t with
  | T0 x => T0 x
  | T1 v => squeeze1 v
  | T2 c rows =>
      if (length rows =? 1)%nat || (c =? 1)%nat then squeeze1 (concat rows)
      else T2 c rows
  end.

(** [t.unsqueeze(dim)]: [dim] must lie in [[-(rank+1), rank]]. *)
Definition unsqueeze (dim : Z) (t : tensor F) : result (tensor F) :=
  match t with
  | T0 x =>
      if (dim =? 0) || (dim =? -1) then Ok (T1 [x]) else Raise IndexError
  | T1 v =>
      if (dim =? 0) || (dim =? -2) then Ok (T2 (length v) [v])
      else if (dim =? 1) || (dim =? -1) then Ok (T2 1 ((fun x => [x]) <$> v))
      else Raise IndexError
  | T2 _ _ =>
      if (-3 <=? dim) && (dim <=? 2) then Raise RankBeyondEmbedding
      else Raise IndexError
  end.

(** One broadcast dimension: equal sizes are zipped, a size of one is
    stretched, anything else is a shape error. *)
Definition bcast {A B C} (g : A -> B -> result C) (la : list A) (lb : list B)
  : result (list C) :=
  if (length la =? length lb)%nat then zipR g la lb
  else match la, lb with
       | [a], _ => mapR (g a) lb
       | _, [b] => mapR (fun a => g a b) la
       | _, _ => Raise RuntimeError
       end.

Definition bvec (f : F -> F -> F) (u v : list F) : result (list F) :=
  bcast (fun x y => Ok (f x y)) u v.

Definition bdim (c1 c2 : nat) : result nat :=
  if (c1 =? c2)%nat then Ok c1
  else if (c1 =? 1)%nat then Ok c2
  else if (c2 =? 1)%nat then Ok c1
  else Raise RuntimeError.

Definition bmat (f : F -> F -> F)
  (c1 : nat) (rows1 : list (list F)) (c2 : nat) (rows2 : list (list F))
  : result (tensor F) :=
  c ← bdim c1 c2;
  _ ← bdim (length rows1) (length rows2);
  rows ← bcast (bvec f) rows1 rows2;
  Ok (T2 c rows).

(** [a * b], [a - b]: an elementwise operation on broadcast operands. *)
Definition bop (f : F -> F -> F) (a b : tensor F) : result (tensor F) :=
  match a, b with
  | T0 x, T0 y => Ok (T0 (f x y))
  | T0 x, T1 v => Ok (T1 (f x <$> v))
  | T0 x, T2 c rows => Ok (T2 c ((fun row : list F => f x <$> row) <$> rows))
  | T1 u, T0 y => Ok (T1 ((fun x => f x y) <$> u))
  | T2 c rows, T0 y => Ok (T2 c ((fun row : list F => (fun x => f x y) <$> row) <$> rows))
  | T1 u, T1 v => T1 <$> bvec f u v
  | T1 u, T2 c rows => bmat f (length u) [u] c rows
  | T2 c rows, T1 v => bmat f c rows (length v) [v]
  | T2 c1 rows1, T2 c2 rows2 => bmat f c1 rows1 c2 rows2
  end.

(** An elementwise function, and a Python scalar times a tensor. *)
Definition tmap (f : F -> F) (t : tensor F) : tensor F :=
  match t with
  | T0 x => T0 (f x)
  | T1 v => T1 (f <$> v)
  | T2 c rows => T2 c ((fun row : list F => f <$> row) <$> rows)
  end.

(** [t.repeat(b, 1)]. *)
Definition repeat_rows (b : nat) (t : tensor F) : tensor F :=
  match t with
  | T0 x => T2 1 (replicate b [x])
  | T1 v => T2 (length v) (replicate b v)
  | T2 c rows => T2 c (concat (replicate b rows))
  end.

(** [t.topk(k)[1]] along the last dimension: the indices of the [k]
    largest entries, largest first.  Torch leaves the order of equal
    entries open; here the smaller index comes first. *)
Fixpoint insert_desc (ltb : F -> F -> bool) (p : F * nat) (s : list (F * nat))
  : list (F * nat) :=
  match s with
  | [] => [p]
  | q :: s' => if ltb p.1 q.1 then q :: insert_desc ltb p s' else p :: q :: s'
  end.

Definition topk_row (ltb : F -> F -> bool) (k : nat) (row : list F)
  : result (list nat) :=
  if (length row <? k)%nat then Raise RuntimeError
  else Ok (take k (foldr (insert_desc ltb) [] (imap (fun i x => (x, i)) row)).*2).

(** The index tensor of [t.topk(k)], as the nested loop of
    [full_sort_predict] walks it: one list of indices per row.  Iterating
    the entries of a rank-one index tensor is a [TypeError]. *)
Definition topk_indices (ltb : F -> F -> bool) (k : nat) (t : tensor F)
  : result (list (list nat)) :=
  match t with
  | T0 _ => Raise RuntimeError
  | T1 v => _ ← topk_row ltb k v; Raise TypeError
  | T2 c rows =>
      if (c <? k)%nat then Raise RuntimeError else mapR (topk_row ltb k) rows
  end.

End ops.

(** The scalar kernels of torch which the model calls, on scalars [F] and
    hidden vectors [V].  [dot h e] is one entry of
    [torch.matmul(seq_output, emb.transpose(0, 1))]; [mulsum h e] is one
    entry of [torch.mul(seq_output, emb).sum(dim=1)]. *)
Class Kernel (F V : Type) : Type := {
  fadd : F -> F -> F;
  fsub : F -> F -> F;
  fmul : F -> F -> F;
  fzero : F;
  fone : F;
  fltb : F -> F -> bool;
  sigmoid : F -> F;
  dot : V -> V -> F;
  mulsum : V -> V -> F;
}.

(** The loss modules, on logits and targets. *)
Class Losses (F : Type) : Type := {
  BPRLoss : tensor F -> tensor F -> result F;
  CrossEntropyLoss : tensor F -> list nat -> result F;
  BCELoss : tensor F -> tensor F -> result F;
}.

End Torch.

Import Torch.

(** ** [SASRecN] *)

Module SASRecN.

(** *** The popularity labels of [SASRecN.cal_popular] *)

(** The loop of [SASRecN.cal_popular] over the item ids [ks], appending to
    [self.label]; an exception leaves the labels appended so far. *)
Fixpoint log_loop (item_cnt : gmap nat Z) (ks : list nat) (label : list Z)
  : result unit * list Z :=
  match ks with
  | [] => (Ok (), label)
  | item_k :: ks' =>
      let v := SequentialRecommender.counter_get item_cnt item_k in
      let v := Z.max v 1 in
      match math_log v with
      | Ok lg => log_loop item_cnt ks' (label ++ [round_R lg])
      | Raise e => (Raise e, label)
      end
  end.

(** *** Construction, on the attribute store of the instance *)

(** A value of the configuration; [Config.__getitem__] answers [None] for
    a key which is not set. *)
Inductive cval : Type :=
  | CNone
  | CInt (z : Z)
  | CStr (s : string)
  | CFloat (x : float).

Definition config_get (config : gmap string cval) (key : string) : cval :=
  default CNone (config !! key).

(** What the constructors ask of the dataset: [dataset.num(ITEM_ID)] and
    [dataset.counter(dataset.iid_field)]. *)
Record dataset : Type := mk_dataset {
  num : nat;
  counter : gmap nat Z;
}.

Inductive loss_module : Set :=
  | BPRLoss_module
  | CrossEntropyLoss_module.

Inductive value : Type :=
  | VCfg (v : cval)
  | VNat (n : nat)
  | VList (l : list Z)
  | VCounter (c : gmap nat Z)
  | VConfig (config : gmap string cval)
  | VDataset (d : dataset)
  | VLoss (l : loss_module).

(** [self.name]: [AttributeError] when the attribute was never assigned
    ([nn.Module.__getattr__]). *)
Definition getattr (self : gmap string value) (name : string) : result value :=
  match self !! name with
  | Some v => Ok v
  | None => Raise AttributeError
  end.

(** The class of the instance under construction: it decides which
    [cal_popular] a call of [self.cal_popular()] runs. *)
Inductive class : Set :=
  | SequentialRecommender_class
  | SASRecN_class.

(** [SASRecN.cal_popular], lines 98 to 107. *)
Definition cal_popular_attrs (self : gmap string value)
  : result (gmap string value) :=
  let self := <["label" := VList []]> self in
  cfg ← getattr self "config";
  match cfg with
  | VConfig config =>
      let self := <["name" := VCfg (config_get config "model")]> self in
      ds ← getattr self "dataset";
      match ds with
      | VDataset d =>
          let self := <["item_cnt" := VCounter (counter d)]> self in
          n ← getattr self "n_items";
          match n with
          | VNat n_items =>
              let '(r, label) := log_loop (counter d) (seq 0 n_items) [] in
              let self := <["label" := VList label]> self in
              _ ← r;
              _ ← max_list label;
              Ok self
          | _ => Raise TypeError
          end
      | _ => Raise TypeError
      end
  | _ => Raise TypeError
  end.

(** [SequentialRecommender.cal_popular] on the attribute store. *)
Definition base_cal_popular_attrs (self : gmap string value)
  : result (gmap string value) :=
  n ← getattr self "n_items";
  cnt ← getattr self "item_cnt";
  strategy ← getattr self "label_strategy";
  lcnt ← getattr self "label_count";
  match n, cnt with
  | VNat n_items, VCounter item_cnt =>
      let strategy := match strategy with VCfg (CStr s) => s | _ => "" end in
      lcnt ← match lcnt with
             | VCfg (CInt z) => Ok z
             | _ => if String.eqb strategy "avg" || String.eqb strategy "arg"
                    then Raise TypeError else Ok 0
             end;
      label ← SequentialRecommender.cal_popular
                (SequentialRecommender.mk n_items item_cnt strategy lcnt 0%float);
      Ok (<["label" := VList label]> self)
  | _, _ => Raise TypeError
  end.

(** [self.cal_popular()]: the method of the instance's own class. *)
Definition call_cal_popular (cls : class) (self : gmap string value)
  : result (gmap string value) :=
  match cls with
  | SASRecN_class => cal_popular_attrs self
  | SequentialRecommender_class => base_cal_popular_attrs self
  end.

(** [SequentialRecommender.__init__], lines 149 to 172.  The assignments
    of field names, [max_seq_length], [device], [epoch], [vis] and
    [prefix], which no later step of construction reads, are left out. *)
Definition SequentialRecommender_init (cls : class)
  (config : gmap string cval) (d : dataset) (self : gmap string value)
  : result (gmap string value) :=
  let self := <["n_items" := VNat (num d)]> self in
  let self := <["label" := VList []]> self in
  let self := <["pop_label" := VList []]> self in
  let self := <["name" := VCfg (config_get config "model")]> self in
  let self := <["item_cnt" := VCounter (counter d)]> self in
  let self := <["label_strategy" := VCfg (config_get config "label")]> self in
  let self := <["label_count" := VCfg (config_get config "lcnt")]> self in
  call_cal_popular cls self.

(** The choice of the loss module, lines 78 to 83. *)
Definition select_loss (loss_type : cval) : result loss_module :=
  match loss_type with
  | CStr s =>
      if String.eqb s "BPR" then Ok BPRLoss_module
      else if String.eqb s "CE" then Ok CrossEntropyLoss_module
      else Raise NotImplementedError
  | _ => Raise NotImplementedError
  end.

(** [SASRecN.__init__], lines 37 to 92: [SASRecN(config, dataset)].  The
    hyper-parameters and torch layers of lines 41 to 74 are left out. *)
Definition init (config : gmap string cval) (d : dataset)
  : result (gmap string value) :=
  self ← SequentialRecommender_init SASRecN_class config d ∅;
  let self := <["loss_type" := VCfg (config_get config "loss_type")]> self in
  let self := <["c" := VCfg (config_get config "biasc")]> self in
  let self := <["alpha" := VCfg (config_get config "alpha")]> self in
  loss_fct ← select_loss (config_get config "loss_type");
  let self := <["loss_fct" := VLoss loss_fct]> self in
  let self := <["config" := VConfig config]> self in
  let self := <["dataset" := VDataset d]> self in
  let self := <["pop_label" := VList []]> self in
  cal_popular_attrs self.

(** *** The methods, on the attributes they read and write *)

Section methods.
Context {F V : Type} `{!Kernel F V} `{!Losses F}.

Record t : Type := mk {
  n_items : nat;
  dataset_counter : gmap nat Z;
  item_cnt : gmap nat Z;
  label : list Z;
  pop_label : list Z;
  loss_type : string;
  item_embedding : list V;
  fc_user : V -> F;
  fc_item : V -> F;
  c : F;
  alpha : F;
}.

Definition set_labels (self : t) (item_cnt : gmap nat Z) (label : list Z) : t :=
  mk (n_items self) (dataset_counter self) item_cnt label (pop_label self)
     (loss_type self) (item_embedding self) (fc_user self) (fc_item self)
     (c self) (alpha self).

Definition set_pop_label (self : t) (pop_label : list Z) : t :=
  mk (n_items self) (dataset_counter self) (item_cnt self) (label self) pop_label
     (loss_type self) (item_embedding self) (fc_user self) (fc_item self)
     (c self) (alpha self).

(** One row of the batch [interaction]: the output of [self.forward] for
    the row's item sequence, its [ITEM_ID] and its [NEG_ITEM_ID]. *)
Record row : Type := mk_row {
  seq_output : V;
  item_id : nat;
  neg_item_id : nat;
}.

(** [SASRecN.cal_popular] on a constructed instance. *)
Definition cal_popular (self : t) : result unit * t :=
  let '(r, label) := log_loop (dataset_counter self) (seq 0 (n_items self)) [] in
  let self := set_labels self (dataset_counter self) label in
  (_ ← r; _ ← max_list label; Ok (), self).

(** [SASRecN.cal_curr_pop]: the three values it prints. *)
Definition cal_curr_pop (self : t) : result (float * Z * nat) :=
  let total := PrimFloat.div (float_of_Z (sum_list (pop_label self))) 10 in
  pop ← (if (length (pop_label self) =? 0)%nat then Raise ZeroDivisionError
         else Ok (PrimFloat.div total (float_of_Z (Z.of_nat (length (pop_label self))))));
  m ← max_list (label self);
  Ok (pop, m, length (pop_label self)).

(** [self.item_embedding(ids)]. *)
Definition embedding (weight : list V) (i : nat) : result V :=
  match weight !! i with
  | Some e => Ok e
  | None => Raise IndexError
  end.

(** [torch.matmul(seq_output, weight.transpose(0, 1))]. *)
Definition matmul_t (seq : list V) (weight : list V) : tensor F :=
  T2 (length weight) ((fun h => dot h <$> weight) <$> seq).

(** [torch.nn.Sigmoid()(self.fc_user(seq_output)).squeeze().unsqueeze(1)]. *)
Definition user_score (self : t) (seq : list V) : result (tensor F) :=
  unsqueeze 1 (squeeze (T2 1 ((fun h => [sigmoid (fc_user self h)]) <$> seq))).

(** [torch.nn.Sigmoid()(self.fc_item(emb)).squeeze().unsqueeze(0)]. *)
Definition item_scores (self : t) (emb : list V) : result (tensor F) :=
  unsqueeze 0 (squeeze (T2 1 ((fun e => [sigmoid (fc_item self e)]) <$> emb))).

(** [scores * user_score * item_scores - self.c * user_score * item_scores]. *)
Definition debias (self : t) (scores u it : tensor F) : result (tensor F) :=
  a ← bop fmul scores u;
  a ← bop fmul a it;
  b ← bop fmul (tmap (fmul (c self)) u) it;
  bop fsub a b.

(** [SASRecN.predict]. *)
Definition predict (self : t) (interaction : list row) : result (tensor F) :=
  let seq := seq_output <$> interaction in
  test_item_emb ← mapR (embedding (item_embedding self)) (item_id <$> interaction);
  let scores := T1 (zip_with mulsum seq test_item_emb) in
  u ← user_score self seq;
  it ← item_scores self test_item_emb;
  debias self scores u it.

(** The scores of [full_sort_predict], before the popularity loop. *)
Definition full_sort_scores (self : t) (interaction : list row)
  : result (tensor F) :=
  let seq := seq_output <$> interaction in
  let test_items_emb := item_embedding self in
  let scores := matmul_t seq test_items_emb in
  u ← user_score self seq;
  it ← item_scores self test_items_emb;
  debias self scores u it.

(** The inner loop of lines 197 to 199: [mypop += self.label[j]] for
    every index [j] of one row, from [mypop]. *)
Fixpoint mypop_from (label : list Z) (i : list nat) (mypop : Z) : result Z :=
  match i with
  | [] => Ok mypop
  | j :: i' => v ← getitem label (Z.of_nat j); mypop_from label i' (mypop + v)
  end.

Definition mypop (label : list Z) (i : list nat) : result Z :=
  mypop_from label i 0.

(** The loop of lines 196 to 200 over the rows of the index tensor; an
    exception leaves the entries appended so far. *)
Fixpoint accumulate (label : list Z) (idx : list (list nat)) (pop_label : list Z)
  : result unit * list Z :=
  match idx with
  | [] => (Ok (), pop_label)
  | i :: idx' =>
      match mypop label i with
      | Ok s => accumulate label idx' (pop_label ++ [s])
      | Raise e => (Raise e, pop_label)
      end
  end.

(** [SASRecN.full_sort_predict]: what it returns or raises, and the
    instance afterwards. *)
Definition full_sort_predict (self : t) (interaction : list row)
  : result (tensor F) * t :=
  match full_sort_scores self interaction with
  | Raise e => (Raise e, self)
  | Ok scores =>
      match topk_indices fltb 10 scores with
      | Raise e => (Raise e, self)
      | Ok idx =>
          let '(r, pop_label) := accumulate (label self) idx (pop_label self) in
          (_ ← r; Ok scores, set_pop_label self pop_label)
      end
  end.

(** What [calculate_loss] returns: one loss under BPR, three otherwise. *)
Inductive losses : Type :=
  | Single (loss : F)
  | Triple (loss l_u l_i : F).

(** The logits which the cross-entropy branch hands to the loss. *)
Definition ce_logits (self : t) (interaction : list row) : result (tensor F) :=
  let seq := seq_output <$> interaction in
  let test_item_emb := item_embedding self in
  let logits := matmul_t seq test_item_emb in
  u ← user_score self seq;
  it ← item_scores self test_item_emb;
  debias self logits u it.

(** [SASRecN.calculate_loss].  Outside BPR [self.loss_fct] is
    [nn.CrossEntropyLoss()]: the constructor admits no third loss type. *)
Definition calculate_loss (self : t) (interaction : list row) : result losses :=
  let seq := seq_output <$> interaction in
  let pos_items := item_id <$> interaction in
  if String.eqb (loss_type self) "BPR" then
    let neg_items := neg_item_id <$> interaction in
    pos_items_emb ← mapR (embedding (item_embedding self)) pos_items;
    neg_items_emb ← mapR (embedding (item_embedding self)) neg_items;
    let pos_score := T1 (zip_with mulsum seq pos_items_emb) in
    let neg_score := T1 (zip_with mulsum seq neg_items_emb) in
    loss ← BPRLoss pos_score neg_score;
    Ok (Single loss)
  else
    u ← user_score self seq;
    it ← item_scores self (item_embedding self);
    logits ← ce_logits self interaction;
    let pos_labels := tmap (fun _ => fone) u in
    let neg_labels := tmap (fun _ => fzero) u in
    l_pos ← BCELoss u pos_labels;
    l_neg ← BCELoss u neg_labels;
    let L_u := fadd l_pos l_neg in
    L_i ← CrossEntropyLoss (repeat_rows (length pos_items) it) pos_items;
    loss ← CrossEntropyLoss logits pos_items;
    Ok (Triple loss (fmul (alpha self) L_u) (fmul (alpha self) L_i)).

(** The calls a caller can make on a constructed instance. *)
Inductive call : Type :=
  | Call_cal_popular
  | Call_cal_curr_pop
  | Call_calculate_loss (interaction : list row)
  | Call_predict (interaction : list row)
  | Call_full_sort_predict (interaction : list row).

(** The instance after one call, whether it returned or raised. *)
Definition after (self : t) (op : call) : t :=
  match op with
  | Call_cal_popular => (cal_popular self).2
  | Call_cal_curr_pop => self
  | Call_calculate_loss _ => self
  | Call_predict _ => self
  | Call_full_sort_predict interaction => (full_sort_predict self interaction).2
  end.

(** The debiased score of the specification, for one query and one item:
    [raw * user * item - c * user * item]. *)
Definition adjusted (cc raw u it : F) : F :=
  fsub (fmul (fmul raw u) it) (fmul (fmul cc u) it).

Definition user_of (self : t) (h : V) : F := sigmoid (fc_user self h).

Definition item_of (self : t) (e : V) : F := sigmoid (fc_item self e).

End methods.

Arguments t : clear implicits.
Arguments row : clear implicits.
Arguments losses : clear implicits.
Arguments call : clear implicits.

End SASRecN.

(** ** [SequentialRecommender.cal_curr_pop] *)

Module PopularityDiagnostic.

(** [SequentialRecommender.cal_curr_pop(scores)], lines 204 to 213: the
    three values it prints.  The accumulator is a local list; the loop is
    the one of [SASRecN.full_sort_predict]. *)
Definition cal_curr_pop {F : Type} (ltb : F -> F -> bool) (label : list Z)
  (scores : tensor F) : result (float * Z * nat) :=
  idx ← topk_indices ltb 10 scores;
  let '(r, pop_label) := SASRecN.accumulate label idx [] in
  _ ← r;
  let total := PrimFloat.div (float_of_Z (sum_list pop_label)) 10 in
  pop ← (if (length pop_label =? 0)%nat then Raise ZeroDivisionError
         else Ok (PrimFloat.div total (float_of_Z (Z.of_nat (length pop_label)))));
  m ← max_list label;
  Ok (pop, m, length pop_label).

End PopularityDiagnostic.

(** ** [ContextRecommender] *)

Module ContextRecommender.

Inductive FeatureType : Set := TOKEN | FLOAT | TOKEN_SEQ | FLOAT_SEQ.

#[global] Instance FeatureType_eq_dec : EqDecision FeatureType.
Proof. solve_decision. Defined.

Inductive FeatureSource : Set :=
  | INTERACTION | USER | ITEM | USER_ID | ITEM_ID | KG | NET.

(** What this class can raise: [KeyError] from a dictionary, or one of
    the exceptions of [pyerr]. *)
Inductive exn : Type :=
  | KeyError (key : string)
  | Builtin (e : pyerr).

Inductive outcome (A : Type) : Type :=
  | Return (a : A)
  | Throw (e : exn).

Arguments Return {A} a.
Arguments Throw {A} e.

#[global] Instance outcome_ret : MRet outcome := fun A a => Return a.

#[global] Instance outcome_bind : MBind outcome :=
  fun A B f m => match m with Return a => f a | Throw e => Throw e end.

(** What the constructor asks of the dataset: [dataset.fields(source=...)],
    the dictionary [dataset.field2type] and [dataset.num(field)]. *)
Record dataset : Type := mk_dataset {
  fields : list FeatureSource -> list string;
  field2type : gmap string FeatureType;
  num : string -> Z;
}.

(** The two configuration entries which decide the field lists;
    [config['double_tower']] is [None] when it is not set. *)
Record config : Type := mk_config {
  LABEL_FIELD : string;
  double_tower_flag : option bool;
}.

(** [dataset.field2type[field_name]]. *)
Definition type_of (d : dataset) (field_name : string) : outcome FeatureType :=
  match field2type d !! field_name with
  | Some ty => Return ty
  | None => Throw (KeyError field_name)
  end.

(** The three counters of one tower. *)
Record tower : Type := mk_tower {
  token_field_num : Z;
  float_field_num : Z;
  token_seq_field_num : Z;
}.

(** The counting loop of one tower, lines 378 to 384 and 388 to 394. *)
Fixpoint count_tower (d : dataset) (names : list string) (acc : tower)
  : outcome tower :=
  match names with
  | [] => Return acc
  | field_name :: names' =>
      ty ← type_of d field_name;
      count_tower d names'
        (match ty with
         | TOKEN => mk_tower (token_field_num acc + 1) (float_field_num acc)
                             (token_seq_field_num acc)
         | TOKEN_SEQ => mk_tower (token_field_num acc) (float_field_num acc)
                                 (token_seq_field_num acc + 1)
         | _ => mk_tower (token_field_num acc)
                         (float_field_num acc + num d field_name)
                         (token_seq_field_num acc)
         end)
  end.

(** The six lists and the counter which the main loop fills. *)
Record lists : Type := mk_lists {
  token_field_names : list string;
  token_field_dims : list Z;
  float_field_names : list string;
  float_field_dims : list Z;
  token_seq_field_names : list string;
  token_seq_field_dims : list Z;
  num_feature_field : Z;
}.

(** The main loop, lines 396 to 408. *)
Fixpoint classify (d : dataset) (LABEL : string) (names : list string) (st : lists)
  : outcome lists :=
  match names with
  | [] => Return st
  | field_name :: names' =>
      if String.eqb field_name LABEL then classify d LABEL names' st
      else
        ty ← type_of d field_name;
        classify d LABEL names'
          (match ty with
           | TOKEN =>
               mk_lists (token_field_names st ++ [field_name])
                        (token_field_dims st ++ [num d field_name])
                        (float_field_names st) (float_field_dims st)
                        (token_seq_field_names st) (token_seq_field_dims st)
                        (num_feature_field st + 1)
           | TOKEN_SEQ =>
               mk_lists (token_field_names st) (token_field_dims st)
                        (float_field_names st) (float_field_dims st)
                        (token_seq_field_names st ++ [field_name])
                        (token_seq_field_dims st ++ [num d field_name])
                        (num_feature_field st + 1)
           | _ =>
               mk_lists (token_field_names st) (token_field_dims st)
                        (float_field_names st ++ [field_name])
                        (float_field_dims st ++ [num d field_name])
                        (token_seq_field_names st) (token_seq_field_dims st)
                        (num_feature_field st + 1)
           end)
  end.

(** Whether the loops treat a field as a token field, as a
    token-sequence field, or as a float field (every other type). *)
Definition is_token (d : dataset) (f : string) : Prop :=
  field2type d !! f = Some TOKEN.

Definition is_token_seq (d : dataset) (f : string) : Prop :=
  field2type d !! f = Some TOKEN_SEQ.

Definition is_float (d : dataset) (f : string) : Prop :=
  field2type d !! f = Some FLOAT \/ field2type d !! f = Some FLOAT_SEQ.

#[global] Instance is_token_dec d f : Decision (is_token d f).
Proof. unfold is_token. apply _. Defined.

#[global] Instance is_token_seq_dec d f : Decision (is_token_seq d f).
Proof. unfold is_token_seq. apply _. Defined.

#[global] Instance is_float_dec d f : Decision (is_float d f).
Proof. unfold is_float. apply _. Defined.

(** [np.cumsum(dims)], from the running total [acc]. *)
Fixpoint cumsum_from (acc : Z) (dims : list Z) : list Z :=
  match dims with
  | [] => []
  | x :: dims' => (acc + x) :: cumsum_from (acc + x) dims'
  end.

(** [(0, *np.cumsum(dims)[:-1])]. *)
Definition offsets_of (dims : list Z) : list Z :=
  0 :: removelast (cumsum_from 0 dims).

(** The attributes of the double tower, assigned only when
    [double_tower] is true. *)
Record towers : Type := mk_towers {
  user_field_names : list string;
  item_field_names : list string;
  user : tower;
  item : tower;
}.

(** The instance after [ContextRecommender.__init__].  [tower_attrs] and
    [token_field_offsets] are [None] when the constructor does not assign
    them.  The torch tables and [FMFirstOrderLinear] are left out. *)
Record t : Type := mk {
  field_names : list string;
  LABEL : string;
  double_tower : bool;
  tower_attrs : option towers;
  field_lists : lists;
  token_field_offsets : option (list Z);
}.

(** [ContextRecommender.__init__], lines 345 to 423. *)
Definition init (cfg : config) (d : dataset) : outcome t :=
  let field_names := fields d [INTERACTION; USER; USER_ID; ITEM; ITEM_ID] in
  let LABEL := LABEL_FIELD cfg in
  let double_tower := match double_tower_flag cfg with
                      | None => false
                      | Some b => b
                      end in
  '(tw, field_names) ←
    (if double_tower then
       let user_field_names := fields d [USER; USER_ID] in
       let item_field_names := fields d [ITEM; ITEM_ID] in
       u ← count_tower d user_field_names (mk_tower 0 0 0);
       i ← count_tower d item_field_names (mk_tower 0 0 0);
       Return (Some (mk_towers user_field_names item_field_names u i),
               user_field_names ++ item_field_names)
     else Return (None, field_names));
  l ← classify d LABEL field_names (mk_lists [] [] [] [] [] [] 0);
  Return (mk field_names LABEL double_tower tw l
             (if (0 <? length (token_field_dims l))%nat
              then Some (offsets_of (token_field_dims l)) else None)).

(** *** The embedding methods, along dimension 1

    A tensor of shape [[batch, k, ...]] is embedded as the list of its
    [k] slices along dimension 1: [torch.cat(..., dim=1)] appends such
    lists and [torch.split(..., dim=1)] cuts one.  The slices themselves
    come from the tables, which are parameters. *)

Section embed.
Context {E : Type}.
(** The slice of [token_embedding_table] for one token field, the slice of
    the field's own table for one token-sequence field, and the slice of
    [float_embedding_table] for one column of one float field. *)
Variable emb_token : string -> E.
Variable emb_token_seq : string -> E.
Variable emb_float : string -> nat -> E.
(** The number of columns of [interaction[field_name]] for a float field:
    1 unless the tensor has two dimensions. *)
Variable width : string -> nat.

(** [embed_input_fields], lines 550 to 602: [(sparse, dense)]. *)
Definition embed_input_fields (self : t) : option (list E) * option (list E) :=
  let l := field_lists self in
  let float_fields_embedding :=
    match float_field_names l with
    | [] => None
    | names => Some (concat ((fun f => emb_float f <$> seq 0 (width f)) <$> names))
    end in
  let token_fields_embedding :=
    match token_field_names l with
    | [] => None
    | names => Some (emb_token <$> names)
    end in
  let token_seq_fields_embedding :=
    match token_seq_field_names l with
    | [] => None
    | names => Some (emb_token_seq <$> names)
    end in
  let sparse_embedding :=
    match token_fields_embedding, token_seq_fields_embedding with
    | None, ts => ts
    | Some tk, None => Some tk
    | Some tk, Some ts => Some (tk ++ ts)
    end in
  (sparse_embedding, float_fields_embedding).

(** [torch.cat(tensors, dim=1)]: an empty list of tensors is an error. *)
Definition cat (tensors : list (list E)) : outcome (list E) :=
  match tensors with
  | [] => Throw (Builtin RuntimeError)
  | _ => Return (concat tensors)
  end.

(** [concat_embed_input_fields], lines 541 to 548.  The dense embedding
    of [embed_input_fields] always has three dimensions. *)
Definition concat_embed_input_fields (self : t) : outcome (list E) :=
  let '(sparse_embedding, dense_embedding) := embed_input_fields self in
  let all_embeddings :=
    (match sparse_embedding with Some s => [s] | None => [] end)
    ++ (match dense_embedding with Some x => [x] | None => [] end) in
  cat all_embeddings.

(** [torch.split(tensor, sizes, dim=1)]: the sizes must not be negative
    and must add up to the size of the dimension. *)
Fixpoint chunks (sizes : list Z) (l : list E) : list (list E) :=
  match sizes with
  | [] => []
  | n :: sizes' => take (Z.to_nat n) l :: chunks sizes' (drop (Z.to_nat n) l)
  end.

Definition split (l : list E) (sizes : list Z) : outcome (list (list E)) :=
  if forallb (fun n => 0 <=? n) sizes && (foldr Z.add 0 sizes =? Z.of_nat (length l))
  then Return (chunks sizes l)
  else Throw (Builtin RuntimeError).

(** [self.user_float_field_num] and the like: assigned only in the
    double-tower branch of the constructor. *)
Definition get_towers (self : t) : outcome towers :=
  match tower_attrs self with
  | Some tw => Return tw
  | None => Throw (Builtin AttributeError)
  end.

(** [double_tower_embed_input_fields], lines 505 to 539: the first
    sparse and dense embeddings and the second ones. *)
Definition double_tower_embed_input_fields (self : t)
  : outcome (option (list E) * option (list E) * option (list E) * option (list E)) :=
  if negb (double_tower self) then Throw (Builtin RuntimeError) else
  let '(sparse_embedding, dense_embedding) := embed_input_fields self in
  '(first_dense, second_dense) ←
    match dense_embedding with
    | Some dense =>
        tw ← get_towers self;
        parts ← split dense [float_field_num (user tw); float_field_num (item tw)];
        match parts with
        | [a; b] => Return (Some a, Some b)
        | _ => Throw (Builtin ValueError)
        end
    | None => Return (None, None)
    end;
  '(first_sparse, second_sparse) ←
    match sparse_embedding with
    | Some sparse =>
        tw ← get_towers self;
        let sizes := [token_seq_field_num (user tw); token_seq_field_num (item tw);
                      token_field_num (user tw); token_field_num (item tw)] in
        parts ← split sparse sizes;
        match parts with
        | [first_token_seq; second_token_seq; first_token; second_token] =>
            first ← cat [first_token_seq; first_token];
            second ← cat [second_token_seq; second_token];
            Return (Some first, Some second)
        | _ => Throw (Builtin ValueError)
        end
    | None => Return (None, None)
    end;
  Return (first_sparse, first_dense, second_sparse, second_dense).

End embed.

End ContextRecommender.

(** ** Invariants of the loops *)

Module Invariants.
Import SequentialRecommender.

(** What the partition loop of [calcualte_bias_label] has established
    once the items before index [i] are processed. *)
Definition partition_ok (bias : list Z) (mid_i bias_line nobias_line : Z)
  (i : nat) (st : partition) : Prop :=
  length (bias_label st) = length (bias_idx st)
  /\ bias_cnt st = Z.of_nat (length (filter (fun v => bias_line <= v) (take i bias)))
  /\ 0 <= nobias_cnt st <= Z.max (mid_i + 1) 0
  /\ bias_cnt st + nobias_cnt st = Z.of_nat (length (bias_idx st))
  /\ StronglySorted lt (bias_idx st)
  /\ Forall (fun k => (k < i)%nat) (bias_idx st)
  /\ Forall2 (fun k lab => exists v, bias !! k = Some v
                /\ ((lab = 1 /\ bias_line <= v)
                    \/ (lab = 0 /\ v < bias_line /\ v <= nobias_line)))
             (bias_idx st) (bias_label st)
  /\ (forall k v, (k < i)%nat -> bias !! k = Some v -> bias_line <= v ->
        k ∈ bias_idx st).

End Invariants.

(** ** The tensor methods of [SequentialRecommender] *)

Module SequenceMethods.
Import Py.

(** A tensor of three dimensions [[batch, len, hidden]].  The sizes of the
    last two dimensions are kept beside the entries, since a tensor may
    have no entry along the first. *)
Record tensor3 (F : Type) : Type := mk_tensor3 {
  len : nat;
  hidden : nat;
  data : list (list (list F));
}.

Arguments mk_tensor3 {F} len hidden data.
Arguments len {F} t.
Arguments hidden {F} t.
Arguments data {F} t.

Definition well_shaped {F} (t : tensor3 F) : Prop :=
  Forall (fun plane => length plane = len t
                       /\ Forall (fun row => length row = hidden t) plane)
         (data t).

(** [input.gather(dim=1, index=index)] for an index of three dimensions
    whose last dimension has the size of the input's: the index may have
    fewer entries than the input along dimension 0, and every index must
    be in [[0, len)]. *)
Definition gather {F} (input : tensor3 F) (index : list (list (list Z)))
  : result (list (list (list F))) :=
  if (length (data input) <? length index)%nat then Raise RuntimeError
  else
    mapR (fun '(plane, index_b) =>
            mapR (fun index_row =>
                    mapR (fun '(h, g) =>
                            if (0 <=? g) && (g <? Z.of_nat (len input))
                            then match plane !! Z.to_nat g ≫= (fun row => row !! h) with
                                 | Some x => Ok x
                                 | None => Raise RuntimeError
                                 end
                            else Raise RuntimeError)
                         (zip (seq 0 (length index_row)) index_row))
                 index_b)
         (zip (data input) index).

(** [gather_indexes], lines 288 to 292. *)
Definition gather_indexes {F} (output : tensor3 F) (gather_index : list Z)
  : result (list (list F)) :=
  (* view(-1, 1, 1).expand(-1, -1, output.shape[-1]) *)
  let gather_index :=
    (fun g => [replicate (hidden output) g]) <$> gather_index in
  output_tensor ← gather output gather_index;
  (* squeeze(1): dimension 1 has size 1 *)
  mapR (fun plane => match plane with
                     | [row] => Ok row
                     | _ => Raise RankBeyondEmbedding
                     end)
       output_tensor.

(** [get_attention_mask], lines 294 to 309, for an [item_seq] of shape
    [[batch, max_len]]: the result has shape [[batch, 1, max_len, max_len]].
    The values 0, 1 and -10000 and the two operations on them are exact in
    every floating-point type of torch. *)
Definition get_attention_mask (max_len : nat) (item_seq : list (list Z))
  : list (list (list (list float))) :=
  let attention_mask :=
    (fun row : list Z => (fun x => if 0 <? x then 1 else 0) <$> row) <$> item_seq in
  (* unsqueeze(1).unsqueeze(2): [batch, 1, 1, max_len] *)
  let extended_attention_mask :=
    (fun row : list Z => [[row]]) <$> attention_mask in
  (* torch.triu(torch.ones((1, max_len, max_len)), diagonal=1) *)
  let subsequent_mask : list (list (list Z)) :=
    [(fun i => (fun j => if (i <? j)%nat then 1 else 0) <$> seq 0 max_len)
       <$> seq 0 max_len] in
  (* (subsequent_mask == 0).unsqueeze(1).long(): [1, 1, max_len, max_len] *)
  let subsequent_mask : list (list (list (list Z))) :=
    [(fun plane : list (list Z) =>
        (fun row : list Z => (fun x => if x =? 0 then 1 else 0) <$> row) <$> plane)
       <$> subsequent_mask] in
  (* the product broadcasts dimension 0 of the second factor and
     dimension 2 of the first *)
  let extended_attention_mask : list (list (list (list Z))) :=
    (fun e : list (list (list Z)) =>
       zip_with (fun (e1 s1 : list (list Z)) =>
                   (fun s_row : list Z =>
                      zip_with Z.mul (default [] (head e1)) s_row) <$> s1)
                e (default [] (head subsequent_mask)))
      <$> extended_attention_mask in
  (fun e : list (list (list Z)) =>
     (fun e1 : list (list Z) =>
        (fun row : list Z =>
           (fun x => PrimFloat.mul (PrimFloat.sub 1 (float_of_Z x)) (-10000)%float)
             <$> row) <$> e1) <$> e)
    <$> extended_attention_mask.

End SequenceMethods.

(** ** The other parameters of [AbstractRecommender] *)

Module AbstractRecommender.
Import Py.

Section attributes.
Context {A : Type}.

(** The value of an attribute: a list of attribute names, or any other
    value, which is not iterable. *)
Inductive value : Type :=
  | Names (keys : list string)
  | Data (a : A).

Definition getattr (self : gmap string value) (name : string) : result value :=
  match self !! name with
  | Some v => Ok v
  | None => Raise AttributeError
  end.

(** [other_parameter], lines 82 to 85. *)
Definition other_parameter (self : gmap string value)
  : result (gmap string value) :=
  match self !! "other_parameter_name" with
  | Some (Names keys) =>
      foldl (fun acc key =>
               para ← acc;
               v ← getattr self key;
               Ok (<[key := v]> para))
            (Ok ∅) keys
  | Some (Data _) => Raise TypeError
  | None => Ok ∅
  end.

(** [load_other_parameter], lines 87 to 91, returning the instance after
    the assignments. *)
Definition load_other_parameter (self : gmap string value)
  (para : option (gmap string value)) : gmap string value :=
  match para with
  | None => self
  | Some para => map_fold (fun key v self => <[key := v]> self) self para
  end.

End attributes.

Arguments value A : clear implicits.

End AbstractRecommender.

(** ** A small dataset for the field lists *)

Module ContextExample.
Import ContextRecommender.

(** Two user fields and two item fields, a label among the interaction
    fields; [num] is 7 for every field but the float field, which has
    one column. *)
Definition d : dataset :=
  mk_dataset
    (fun source =>
       match source with
       | [USER; USER_ID] => ["user_id"; "age"]
       | [ITEM; ITEM_ID] => ["item_id"; "tags"]
       | _ => ["label"; "user_id"; "age"; "item_id"; "tags"]
       end%string)
    (list_to_map [("label", FLOAT); ("user_id", TOKEN); ("age", FLOAT);
                  ("item_id", TOKEN); ("tags", TOKEN_SEQ)]%string)
    (fun f => if String.eqb f "age" then 1 else 7).

Definition single : config := mk_config "label" None.
Definition double : config := mk_config "label" (Some true).

(** A dataset whose user fields are two token fields and whose item field
    is one token-sequence field. *)
Definition uneven : dataset :=
  mk_dataset
    (fun source =>
       match source with
       | [USER; USER_ID] => ["user_id"; "city"]
       | [ITEM; ITEM_ID] => ["tags"]
       | _ => ["label"; "user_id"; "city"; "tags"]
       end%string)
    (list_to_map [("label", FLOAT); ("user_id", TOKEN); ("city", TOKEN);
                  ("tags", TOKEN_SEQ)]%string)
    (fun _ => 7).

(** A dataset without token-sequence fields. *)
Definition plain : dataset :=
  mk_dataset
    (fun source =>
       match source with
       | [USER; USER_ID] => ["user_id"; "age"]
       | [ITEM; ITEM_ID] => ["item_id"; "price"]
       | _ => ["label"; "user_id"; "age"; "item_id"; "price"]
       end%string)
    (list_to_map [("label", FLOAT); ("user_id", TOKEN); ("age", FLOAT);
                  ("item_id", TOKEN); ("price", FLOAT)]%string)
    (fun f => if String.eqb f "age" || String.eqb f "price" then 1 else 7).

End ContextExample.

(** ** An integer instance of the kernels

    It runs the methods on concrete batches: scalars and hidden vectors are
    integers, [dot] and [mulsum] are the product, and [sigmoid] is the
    identity.  No statement below depends on it except the examples that
    name it. *)

Module IntKernel.

#[global] Instance kernel : Kernel Z Z := {
  fadd := Z.add;
  fsub := Z.sub;
  fmul := Z.mul;
  fzero := 0;
  fone := 1;
  fltb := Z.ltb;
  sigmoid := fun x => x;
  dot := Z.mul;
  mulsum := Z.mul;
}.

(** A model over a catalogue of ten items: item [k] has embedding [k],
    count [k] and popularity label [k]. *)
Definition model : SASRecN.t Z Z :=
  SASRecN.mk 10 (SequentialRecommender.counter_of_list [0; 1; 2; 3; 4; 5; 6; 7; 8; 9])
             (SequentialRecommender.counter_of_list [0; 1; 2; 3; 4; 5; 6; 7; 8; 9])
             [0; 1; 2; 3; 4; 5; 6; 7; 8; 9] [] "CE"
             [0; 1; 2; 3; 4; 5; 6; 7; 8; 9] (fun h => h) (fun e => e) 1 0.

(** A batch of two queries with hidden states 1 and 2. *)
Definition batch : list (SASRecN.row Z) :=
  [SASRecN.mk_row 1 3 4; SASRecN.mk_row 2 5 6].

(** A model with the pairwise loss, and stand-ins for the loss modules:
    the sum of the differences for [BPRLoss]. *)
Definition bpr_model : SASRecN.t Z Z :=
  SASRecN.mk 10 (SequentialRecommender.counter_of_list [0; 1; 2; 3; 4; 5; 6; 7; 8; 9])
             (SequentialRecommender.counter_of_list [0; 1; 2; 3; 4; 5; 6; 7; 8; 9])
             [0; 1; 2; 3; 4; 5; 6; 7; 8; 9] [] "BPR"
             [0; 1; 2; 3; 4; 5; 6; 7; 8; 9] (fun h => h) (fun e => e) 1 0.

Definition losses : Torch.Losses Z := {|
  Torch.BPRLoss := fun pos neg =>
    match pos, neg with
    | Torch.T1 p, Torch.T1 n => Py.Ok (Py.sum_list (zip_with Z.sub p n))
    | _, _ => Py.Raise Py.RuntimeError
    end;
  Torch.CrossEntropyLoss := fun _ _ => Py.Ok 0;
  Torch.BCELoss := fun _ _ => Py.Ok 0;
|}.

End IntKernel.

(** * Properties *)

(** ** Builtins *)

Module PyFacts.

Lemma bind_ok {A B} (m : result A) (f : A -> result B) (b : B) :
  m ≫= f = Ok b -> exists a, m = Ok a /\ f a = Ok b.
Proof. destruct m as [a|e]; simpl; [eauto | discriminate]. Qed.

Lemma bind_Ok {A B} (a : A) (f : A -> result B) : Ok a ≫= f = f a.
Proof. reflexivity. Qed.

Lemma bind_Raise {A B} (e : pyerr) (f : A -> result B) : Raise e ≫= f = Raise e.
Proof. reflexivity. Qed.

(** The exact rounding of [round(a / b)] and its binary64 computation
    agree on every numerator in [[-512, 512)] and denominator in
    [[-16, 48)], half-way cases and the zero denominator included. *)
Lemma round_div_agrees_with_binary64 :
  forallb (fun a => forallb (agree_on a) (seqZ (-16) 64)) (seqZ (-512) 1024) = true.
Proof. vm_compute. reflexivity. Qed.

Lemma round_half_even_mono (a1 a2 b : Z) :
  0 < b -> a1 <= a2 -> round_half_even a1 b <= round_half_even a2 b.
Proof.
  intros Hb Ha. unfold round_half_even.
  pose proof (Z.div_mod a1 b ltac:(lia)) as E1.
  pose proof (Z.div_mod a2 b ltac:(lia)) as E2.
  pose proof (Z.mod_pos_bound a1 b Hb) as B1.
  pose proof (Z.mod_pos_bound a2 b Hb) as B2.
  pose proof (Z.div_le_mono a1 a2 b Hb Ha) as Hq.
  set (q1 := a1 / b) in *. set (q2 := a2 / b) in *.
  set (r1 := a1 mod b) in *. set (r2 := a2 mod b) in *.
  assert (Hcase : q1 = q2 \/ q1 + 1 <= q2) by lia.
  destruct Hcase as [-> | Hlt].
  - assert (r1 <= r2) by lia.
    repeat case_match; rewrite ?Z.ltb_lt, ?Z.ltb_ge in *; lia.
  - repeat case_match; rewrite ?Z.ltb_lt, ?Z.ltb_ge in *; try lia.
Qed.

Lemma round_half_even_exact (k b : Z) : 0 < b -> round_half_even (k * b) b = k.
Proof.
  intros Hb. unfold round_half_even.
  rewrite Z.div_mul by lia. rewrite Z.mod_mul by lia.
  case_match; rewrite ?Z.ltb_lt, ?Z.ltb_ge in *; lia.
Qed.

Lemma foldl_max_ge (l : list Z) (x : Z) :
  x <= foldl Z.max x l /\ Forall (fun v => v <= foldl Z.max x l) l.
Proof.
  revert x. induction l as [|y l IH]; intros x; simpl.
  - split; [lia | constructor].
  - destruct (IH (Z.max x y)) as [H1 H2]. split; [lia|].
    constructor; [lia | exact H2].
Qed.

Lemma foldl_max_in (l : list Z) (x : Z) : foldl Z.max x l ∈ x :: l.
Proof.
  revert x. induction l as [|y l IH]; intros x; simpl.
  - set_solver.
  - specialize (IH (Z.max x y)).
    apply elem_of_cons in IH as [IH | IH].
    + rewrite IH. destruct (Z.max_spec x y) as [[_ ->] | [_ ->]]; set_solver.
    + set_solver.
Qed.

Lemma max_list_spec (l : list Z) (m : Z) :
  max_list l = Ok m -> m ∈ l /\ Forall (fun v => v <= m) l.
Proof.
  destruct l as [|x l]; simpl; [discriminate|].
  intros [= <-]. split; [apply foldl_max_in|].
  destruct (foldl_max_ge l x). by constructor.
Qed.

Lemma max_list_nonempty (l : list Z) :
  l <> [] -> exists m, max_list l = Ok m.
Proof. destruct l; [done | simpl; eauto]. Qed.

Lemma for_enumerate_ok {A B} (f : nat -> A -> result B) (g : nat -> A -> B)
  (l : list A) (k : nat) :
  (forall j v, l !! j = Some v -> f (k + j)%nat v = Ok (g (k + j)%nat v)) ->
  for_enumerate f k l = Ok (imap (fun j => g (k + j)%nat) l).
Proof.
  revert k. induction l as [|x l IH]; intros k H; simpl; [done|].
  pose proof (H 0%nat x eq_refl) as H0. rewrite Nat.add_0_r in H0.
  rewrite H0. simpl.
  rewrite (IH (S k)).
  - simpl. rewrite Nat.add_0_r. do 2 f_equal.
    apply imap_ext. intros j y _. simpl. f_equal. lia.
  - intros j v Hj. replace (S k + j)%nat with (k + S j)%nat by lia.
    by apply H.
Qed.

Lemma for_enumerate_fmap {A B} (f : nat -> A -> result B) (g : A -> B)
  (l : list A) (k : nat) :
  (forall j v, l !! j = Some v -> f (k + j)%nat v = Ok (g v)) ->
  for_enumerate f k l = Ok (g <$> l).
Proof.
  intros H. rewrite (for_enumerate_ok f (fun _ => g)) by exact H.
  f_equal. apply list_eq. intros j.
  rewrite list_lookup_imap, list_lookup_fmap. by destruct (l !! j).
Qed.

Lemma getitem_nat {A} (l : list A) (i : nat) (x : A) :
  l !! i = Some x -> getitem l (Z.of_nat i) = Ok x.
Proof.
  intros H. unfold getitem.
  pose proof (lookup_lt_Some _ _ _ H) as Hlt.
  replace (Z.of_nat i <? 0) with false by (symmetry; apply Z.ltb_ge; lia).
  replace (0 <=? Z.of_nat i) with true by (symmetry; apply Z.leb_le; lia).
  replace (Z.of_nat i <? Z.of_nat (length l)) with true
    by (symmetry; apply Z.ltb_lt; lia).
  simpl. by rewrite Nat2Z.id, H.
Qed.

End PyFacts.

(** ** Rounding a real, and the logarithms of the end-to-end scenario *)

Module RoundFacts.

#[local] Open Scope R_scope.

Lemma round_R_bounds (x : R) :
  IZR (round_R x) - 1 / 2 <= x <= IZR (round_R x) + 1 / 2.
Proof.
  unfold round_R. destruct (base_Int_part x) as [H1 H2].
  destruct (Rlt_dec _ _) as [Hd | Hd]; [lra|].
  destruct (Rlt_dec _ _) as [Hd' | Hd']; [rewrite plus_IZR; lra|].
  destruct (Z.even _); [lra | rewrite plus_IZR; lra].
Qed.

Lemma round_R_near (x : R) (k : Z) :
  IZR k - 1 / 2 < x < IZR k + 1 / 2 -> round_R x = k.
Proof.
  intros Hk. pose proof (round_R_bounds x) as Hb.
  assert (H1 : (round_R x < k + 1)%Z) by (apply lt_IZR; rewrite plus_IZR; lra).
  assert (H2 : (k < round_R x + 1)%Z) by (apply lt_IZR; rewrite plus_IZR; lra).
  lia.
Qed.

Lemma round_R_mono (x y : R) : x <= y -> (round_R x <= round_R y)%Z.
Proof.
  intros Hxy.
  destruct (Z_le_gt_dec (round_R x) (round_R y)) as [H | H]; [exact H|].
  exfalso.
  pose proof (round_R_bounds x) as Hx. pose proof (round_R_bounds y) as Hy.
  assert (Hz : (round_R y + 1 <= round_R x)%Z) by lia.
  apply IZR_le in Hz. rewrite plus_IZR in Hz.
  assert (x = y) by lra. subst y. lia.
Qed.

Lemma exp_nat_mult (n : nat) (x : R) : exp (INR n * x) = exp x ^ n.
Proof.
  induction n as [|n IH].
  - simpl. rewrite Rmult_0_l. apply exp_0.
  - rewrite S_INR, Rmult_plus_distr_r, Rmult_1_l, exp_plus, IH. simpl. ring.
Qed.

Lemma exp_sixteenth_lower : 17 / 16 < exp (1 / 16).
Proof. pose proof (exp_ineq1 (1 / 16)). lra. Qed.

Lemma exp_sixteenth_upper : exp (1 / 16) < 16 / 15.
Proof.
  pose proof (exp_ineq1 (- (1 / 16)) ltac:(lra)) as H.
  pose proof (exp_plus (1 / 16) (- (1 / 16))) as E.
  replace (1 / 16 + - (1 / 16)) with 0 in E by lra. rewrite exp_0 in E.
  pose proof (exp_pos (1 / 16)) as P.
  nra.
Qed.

(** [(17/16)^n < exp (n/16) < (16/15)^n] for a positive [n]. *)
Lemma exp_sixteenths (n : nat) :
  (17 / 16) ^ n <= exp (INR n * (1 / 16)) <= (16 / 15) ^ n.
Proof.
  rewrite exp_nat_mult. split; apply pow_incr.
  - pose proof exp_sixteenth_lower. lra.
  - pose proof exp_sixteenth_upper. pose proof (exp_pos (1 / 16)). lra.
Qed.

Lemma ln_between (v : R) (lo hi : nat) :
  0 < v -> (16 / 15) ^ lo < v -> v < (17 / 16) ^ hi ->
  INR lo * (1 / 16) < ln v < INR hi * (1 / 16).
Proof.
  intros Hv Hlo Hhi.
  pose proof (exp_sixteenths lo) as [_ Hl].
  pose proof (exp_sixteenths hi) as [Hh _].
  split; apply exp_lt_inv; rewrite exp_ln by exact Hv; lra.
Qed.

Lemma round_ln_2 : round_R (ln 2) = 1%Z.
Proof.
  apply round_R_near.
  pose proof (ln_between 2 8 24 ltac:(lra) ltac:(simpl; lra) ltac:(simpl; lra)) as H.
  simpl in H. lra.
Qed.

Lemma round_ln_5 : round_R (ln 5) = 2%Z.
Proof.
  apply round_R_near.
  pose proof (ln_between 5 24 40 ltac:(lra) ltac:(simpl; lra) ltac:(simpl; lra)) as H.
  simpl in H. lra.
Qed.

Lemma round_ln_10 : round_R (ln 10) = 2%Z.
Proof.
  apply round_R_near.
  pose proof (ln_between 10 24 40 ltac:(lra) ltac:(simpl; lra) ltac:(simpl; lra)) as H.
  simpl in H. lra.
Qed.

Lemma round_ln_1 : round_R (ln 1) = 0%Z.
Proof. rewrite ln_1. apply round_R_near. lra. Qed.

(** [round(math.log(v))] is monotone on the positive integers. *)
Lemma round_ln_mono (v w : Z) :
  (1 <= v)%Z -> (v <= w)%Z -> (round_R (ln (IZR v)) <= round_R (ln (IZR w)))%Z.
Proof.
  intros Hv Hvw. apply round_R_mono.
  assert (0 < IZR v) by (apply IZR_lt; lia).
  assert (IZR v <= IZR w) as [Hlt | ->] by (apply IZR_le; lia).
  - left. by apply ln_increasing.
  - right. reflexivity.
Qed.

End RoundFacts.

(** ** Popularity labels *)

Module LabelFacts.
Import PyFacts RoundFacts SequentialRecommender.

Lemma clamped_counts_length (self : t) :
  length (clamped_counts self) = n_items self.
Proof. unfold clamped_counts. by rewrite length_fmap, length_seq. Qed.

Lemma clamped_counts_lookup (self : t) (k : nat) :
  (k < n_items self)%nat ->
  clamped_counts self !! k = Some (clamp (item_cnt self) k).
Proof.
  intros Hk. unfold clamped_counts.
  rewrite list_lookup_fmap, lookup_seq_lt by done. reflexivity.
Qed.

Lemma clamped_counts_lookup_inv (self : t) (k : nat) (v : Z) :
  clamped_counts self !! k = Some v ->
  (k < n_items self)%nat /\ v = clamp (item_cnt self) k.
Proof.
  intros H. pose proof (lookup_lt_Some _ _ _ H) as Hk.
  rewrite clamped_counts_length in Hk.
  rewrite clamped_counts_lookup in H by done. by injection H as <-.
Qed.

Lemma clamped_counts_ge_1 (self : t) :
  Forall (fun v => 1 <= v) (clamped_counts self).
Proof.
  unfold clamped_counts. apply Forall_fmap, Forall_forall.
  intros k _. unfold compose, clamp. lia.
Qed.

Lemma clamped_counts_nonempty (self : t) :
  (0 < n_items self)%nat -> clamped_counts self <> [].
Proof.
  intros Hn E. apply (f_equal length) in E.
  rewrite clamped_counts_length in E. simpl in E. lia.
Qed.

Lemma math_log_ok (v : Z) : 1 <= v -> math_log v = Ok (ln (IZR v)).
Proof.
  intros Hv. unfold math_log.
  by replace (v <=? 0) with false by (symmetry; apply Z.leb_gt; lia).
Qed.

Lemma max_pop_ge_1 (self : t) (m : Z) :
  max_list (clamped_counts self) = Ok m -> 1 <= m.
Proof.
  intros [Hin _]%max_list_spec.
  pose proof (clamped_counts_ge_1 self) as H.
  rewrite Forall_forall in H. by apply H.
Qed.

Lemma round_div_pos (a b : Z) : 0 < b -> round_div a b = Ok (round_half_even a b).
Proof.
  intros Hb. unfold round_div.
  replace (b =? 0) with false by (symmetry; apply Z.eqb_neq; lia).
  by replace (0 <? b) with true by (symmetry; apply Z.ltb_lt; lia).
Qed.

(** The labels of the [avg] strategy, in closed form. *)
Lemma cal_popular_avg (self : t) (m : Z) :
  label_strategy self = "avg"%string ->
  max_list (clamped_counts self) = Ok m ->
  cal_popular self =
    Ok ((fun v => round_half_even (label_count self * v) m) <$> clamped_counts self).
Proof.
  intros Hs Hm. unfold cal_popular. rewrite Hm. simpl.
  apply (for_enumerate_fmap _
           (fun v => round_half_even (label_count self * v) m)).
  intros j v Hj.
  { unfold label_of.
    pose proof (clamped_counts_ge_1 self) as H.
    rewrite Forall_lookup in H. specialize (H _ _ Hj).
    rewrite math_log_ok by done. simpl. rewrite Hs. simpl.
    apply round_div_pos. pose proof (max_pop_ge_1 _ _ Hm). lia. }
Qed.

(** The labels of the [log] strategy, in closed form. *)
Lemma cal_popular_log (self : t) :
  label_strategy self = "log"%string ->
  (0 < n_items self)%nat ->
  cal_popular self = Ok ((fun v => round_R (ln (IZR v))) <$> clamped_counts self).
Proof.
  intros Hs Hn. unfold cal_popular.
  destruct (max_list_nonempty _ (clamped_counts_nonempty _ Hn)) as [m ->]. simpl.
  apply (for_enumerate_fmap _ (fun v => round_R (ln (IZR v)))).
  intros j v Hj. unfold label_of.
  pose proof (clamped_counts_ge_1 self) as H.
  rewrite Forall_lookup in H. specialize (H _ _ Hj).
  rewrite math_log_ok by done. simpl. by rewrite Hs.
Qed.

(** [SASRecN.cal_popular] runs the same loop: it never raises and
    appends the [log] label of every item. *)
Lemma log_loop_spec (cnt : gmap nat Z) (ks : list nat) (label : list Z) :
  SASRecN.log_loop cnt ks label =
    (Ok (), label ++ ((fun k => round_R (ln (IZR (clamp cnt k)))) <$> ks)).
Proof.
  revert label. induction ks as [|k ks IH]; intros label; simpl.
  - by rewrite app_nil_r.
  - rewrite math_log_ok by lia. rewrite IH. by rewrite <- app_assoc.
Qed.

End LabelFacts.

Module LabelClaims.
Import PyFacts RoundFacts SequentialRecommender LabelFacts.

(** C6.  Every formula of [cal_popular] ([log], [avg], [arg]) and the
    partition of [calcualte_bias_label] is applied to the clamped counts,
    and every clamped count is at least 1: a recorded count of 0 (or a
    missing one) becomes 1, so [math.log] never receives 0 and never raises,
    in [SequentialRecommender.cal_popular] and in [SASRecN.cal_popular]
    alike. *)
Theorem clamped_counts_at_least_one (self : t) :
  Forall (fun v => 1 <= v) (clamped_counts self)
  /\ (forall k, (k < n_items self)%nat -> counter_get (item_cnt self) k = 0 ->
        clamped_counts self !! k = Some 1)
  /\ (forall v, v ∈ clamped_counts self -> math_log v = Ok (ln (IZR v)))
  /\ cal_popular self =
       (max_pop ← max_list (clamped_counts self);
        for_enumerate (label_of self max_pop (argsort (clamped_counts self)))
                      0 (clamped_counts self))
  /\ calcualte_bias_label self =
       (mid_i ← mid_index (length (merge_sort Z.le (clamped_counts self)))
                          (b_ratio self);
        bias_partition_at mid_i (clamped_counts self))
  /\ (forall ks label, (SASRecN.log_loop (item_cnt self) ks label).1 = Ok ()).
Proof.
  pose proof (clamped_counts_ge_1 self) as Hge.
  repeat split.
  - exact Hge.
  - intros k Hk H0. rewrite clamped_counts_lookup by done.
    unfold clamp. by rewrite H0.
  - intros v Hv. rewrite Forall_forall in Hge. apply math_log_ok. by apply Hge.
  - intros ks label. by rewrite log_loop_spec.
Qed.





End LabelClaims.

(** ** The [arg] strategy *)

Module ArgFacts.
Import PyFacts SequentialRecommender LabelFacts.

Lemma insert_idx_length (key : nat -> Z) (i : nat) (s : list nat) :
  length (insert_idx key i s) = S (length s).
Proof.
  induction s as [|j s IH]; simpl; [done|].
  destruct (key i <=? key j); simpl; [done | by rewrite IH].
Qed.

Lemma insert_idx_elem (key : nat -> Z) (i k : nat) (s : list nat) :
  k ∈ insert_idx key i s <-> k = i \/ k ∈ s.
Proof.
  induction s as [|j s IH]; simpl.
  - set_solver.
  - destruct (key i <=? key j).
    + by rewrite elem_of_cons.
    + rewrite !elem_of_cons, IH. tauto.
Qed.

Lemma foldr_insert_idx_length (key : nat -> Z) (ks : list nat) :
  length (foldr (insert_idx key) [] ks) = length ks.
Proof.
  induction ks as [|k ks IH]; simpl; [done|].
  by rewrite insert_idx_length, IH.
Qed.

Lemma foldr_insert_idx_elem (key : nat -> Z) (ks : list nat) (k : nat) :
  k ∈ foldr (insert_idx key) [] ks <-> k ∈ ks.
Proof.
  induction ks as [|k' ks IH]; simpl; [done|].
  rewrite insert_idx_elem, elem_of_cons, IH. tauto.
Qed.

Lemma argsort_length (l : list Z) : length (argsort l) = length l.
Proof.
  unfold argsort, argsort_by. by rewrite foldr_insert_idx_length, length_seq.
Qed.

(** The sort looks at the keys through their comparisons only. *)
Lemma insert_idx_ext (key1 key2 : nat -> Z) (i : nat) (s : list nat) :
  (forall j, j ∈ s -> (key1 i <=? key1 j) = (key2 i <=? key2 j)) ->
  insert_idx key1 i s = insert_idx key2 i s.
Proof.
  induction s as [|j s IH]; intros H; simpl; [done|].
  rewrite <- (H j) by set_solver.
  destruct (key1 i <=? key1 j); [done|].
  f_equal. apply IH. intros j' Hj'. apply H. set_solver.
Qed.

Lemma foldr_insert_idx_ext (key1 key2 : nat -> Z) (ks : list nat) :
  (forall i j, i ∈ ks -> j ∈ ks -> (key1 i <=? key1 j) = (key2 i <=? key2 j)) ->
  foldr (insert_idx key1) [] ks = foldr (insert_idx key2) [] ks.
Proof.
  induction ks as [|k ks IH]; intros H; simpl; [done|].
  rewrite IH by (intros; apply H; set_solver).
  apply insert_idx_ext. intros j Hj%foldr_insert_idx_elem.
  apply H; set_solver.
Qed.

(** The labels of the [arg] strategy, in closed form: the label at
    position [i] is computed from [argsort[i]]. *)
Lemma cal_popular_arg (self : t) :
  label_strategy self = "arg"%string ->
  (0 < n_items self)%nat ->
  cal_popular self =
    Ok ((fun r => round_half_even (label_count self * Z.of_nat r)
                                  (Z.of_nat (n_items self)))
          <$> argsort (clamped_counts self)).
Proof.
  intros Hs Hn. unfold cal_popular.
  destruct (max_list_nonempty _ (clamped_counts_nonempty _ Hn)) as [m ->]. simpl.
  set (lidx := argsort (clamped_counts self)).
  assert (Hlen : length lidx = n_items self)
    by (unfold lidx; by rewrite argsort_length, clamped_counts_length).
  rewrite (for_enumerate_ok _
    (fun i _ => round_half_even
                  (label_count self * Z.of_nat (default 0%nat (lidx !! i)))
                  (Z.of_nat (n_items self)))).
  - f_equal. apply list_eq. intros i.
    rewrite list_lookup_imap, list_lookup_fmap.
    destruct (decide (i < n_items self)%nat) as [Hi | Hi].
    + rewrite clamped_counts_lookup by done. simpl.
      destruct (lookup_lt_is_Some_2 lidx i ltac:(lia)) as [r Hr].
      by rewrite Hr.
    + assert (Hc : clamped_counts self !! i = None)
        by (apply lookup_ge_None_2; rewrite clamped_counts_length; lia).
      assert (Hl : lidx !! i = None) by (apply lookup_ge_None_2; lia).
      by rewrite Hc, Hl.
  - intros j v Hj. simpl. unfold label_of.
    pose proof (clamped_counts_ge_1 self) as H.
    rewrite Forall_lookup in H. specialize (H _ _ Hj).
    rewrite math_log_ok by done. simpl. rewrite Hs. simpl.
    apply clamped_counts_lookup_inv in Hj as [Hj _].
    destruct (lookup_lt_is_Some_2 lidx j ltac:(lia)) as [r Hr].
    rewrite (getitem_nat _ _ _ Hr), Hr. simpl. rewrite Hlen.
    apply round_div_pos. lia.
Qed.

(** Two catalogues of one size whose clamped counts compare alike get the
    same [arg] labels. *)
Lemma arg_labels_order_invariant (self1 self2 : t) :
  label_strategy self1 = "arg"%string ->
  label_strategy self2 = "arg"%string ->
  label_count self1 = label_count self2 ->
  n_items self1 = n_items self2 ->
  (0 < n_items self1)%nat ->
  (forall i j, (i < n_items self1)%nat -> (j < n_items self1)%nat ->
     (clamp (item_cnt self1) i <=? clamp (item_cnt self1) j) =
     (clamp (item_cnt self2) i <=? clamp (item_cnt self2) j)) ->
  cal_popular self1 = cal_popular self2.
Proof.
  intros Hs1 Hs2 Hlc Hn Hpos Hord.
  rewrite !cal_popular_arg by (done || lia).
  rewrite Hlc, Hn. do 2 f_equal.
  unfold argsort, argsort_by. rewrite !clamped_counts_length, <- Hn.
  apply foldr_insert_idx_ext.
  intros i j Hi%elem_of_seq Hj%elem_of_seq.
  rewrite !clamped_counts_lookup by lia. simpl. apply Hord; lia.
Qed.

End ArgFacts.

Module ArgOrder.
Import SequentialRecommender ArgFacts.



End ArgOrder.

Module ArgClaims.
Import SequentialRecommender.

(** C2, at the catalogue with counts [3, 1, 2] and bucket count 3.  The
    code labels position [i] from [argsort[i]], the index of the item
    that is [i]-th in ascending order, and returns [1, 2, 0]; the ranks
    of the three items are [2, 0, 1] and the labels of the claim are
    [2, 0, 1].  The most popular item (item 0) gets label 1 and the least
    popular one (item 1) gets label 2.  Binary64 division agrees with the
    exact rounding on each quotient. *)
Theorem arg_labels_use_argsort_not_rank :
  cal_popular (mk 3 (counter_of_list [3; 1; 2]) "arg" 3 ratio_0_4) = Ok [1; 2; 0]
  /\ clamped_counts (mk 3 (counter_of_list [3; 1; 2]) "arg" 3 ratio_0_4) = [3; 1; 2]
  /\ argsort [3; 1; 2] = [1; 2; 0]%nat
  /\ rank_of [3; 1; 2] <$> [0; 1; 2]%nat = [2; 0; 1]%nat
  /\ arg_labels_by_rank 3 [3; 1; 2] = [2; 0; 1]
  /\ (fun r => float_round_div (3 * r) 3) <$> [1; 2; 0] = [Ok 1; Ok 2; Ok 0].
Proof. repeat split; vm_compute; reflexivity. Qed.

End ArgClaims.

(** ** The bias partition *)

Module BiasFacts.
Import PyFacts SequentialRecommender LabelFacts.

(** When every count reaches [bias_line], every item takes the first
    branch of the loop. *)
Lemma bias_loop_all_high (mid_i bias_line nobias_line : Z)
  (bias : list Z) (st : partition) (i : nat) :
  Forall (fun v => bias_line <= v) bias ->
  bias_loop mid_i bias_line nobias_line st i bias =
    mk_partition (bias_label st ++ replicate (length bias) 1)
                 (bias_idx st ++ seq i (length bias))
                 (bias_cnt st + Z.of_nat (length bias))
                 (nobias_cnt st).
Proof.
  intros H. revert st i.
  induction H as [|v bias Hv _ IH]; intros st i; simpl.
  - rewrite !app_nil_r, Z.add_0_r. by destruct st.
  - rewrite IH. unfold bias_step.
    replace (bias_line <=? v) with true by (symmetry; by apply Z.leb_le).
    simpl. rewrite <- !app_assoc. simpl. f_equal. lia.
Qed.

(** The first entry of the sorted counts is the smallest count. *)
Lemma sorted_head_least (l : list Z) (m : Z) :
  merge_sort Z.le l !! 0%nat = Some m ->
  m ∈ l /\ Forall (fun v => m <= v) l.
Proof.
  intros Hm.
  pose proof (merge_sort_Permutation Z.le l) as Hp.
  pose proof (StronglySorted_merge_sort Z.le l) as Hs.
  destruct (merge_sort Z.le l) as [|x s]; [discriminate|].
  injection Hm as ->.
  split.
  - rewrite <- Hp. set_solver.
  - rewrite <- Hp. apply StronglySorted_inv in Hs as [_ Hs].
    constructor; [lia | exact Hs].
Qed.

End BiasFacts.

Module BiasClaims.
Import PyFacts SequentialRecommender LabelFacts BiasFacts.

(** C9.  When [int(n_items * b_ratio)] is 0 and there is at least one
    item, [bias_line] is the smallest clamped count, every item gets bias
    label 1, and no item gets bias label 0. *)
Theorem zero_mid_index_labels_every_item (self : t) :
  (0 < n_items self)%nat ->
  mid_index (n_items self) (b_ratio self) = Ok 0 ->
  exists bias_line,
    getitem (merge_sort Z.le (clamped_counts self)) (- 0) = Ok bias_line
    /\ bias_line ∈ clamped_counts self
    /\ Forall (fun v => bias_line <= v) (clamped_counts self)
    /\ calcualte_bias_label self =
         Ok (mk_partition (replicate (n_items self) 1) (seq 0 (n_items self))
                          (Z.of_nat (n_items self)) 0).
Proof.
  intros Hn Hmid.
  pose proof (merge_sort_Permutation Z.le (clamped_counts self)) as Hp.
  pose proof (Permutation_length Hp) as Hlen.
  rewrite clamped_counts_length in Hlen.
  destruct (lookup_lt_is_Some_2 (merge_sort Z.le (clamped_counts self)) 0%nat
              ltac:(lia)) as [m Hm].
  pose proof (getitem_nat _ _ _ Hm) as Hget.
  change (Z.of_nat 0) with 0 in Hget.
  destruct (sorted_head_least _ _ Hm) as [Hin Hall].
  exists m. change (- 0) with 0. repeat split; try done.
  unfold calcualte_bias_label. rewrite Hlen, Hmid, bind_Ok.
  unfold bias_partition_at. change (- 0) with 0. rewrite Hget, !bind_Ok.
  rewrite bias_loop_all_high by done. simpl.
  by rewrite clamped_counts_length.
Qed.

Lemma zero_mid_index_labels_every_item_witness :
  exists bias_line,
    getitem (merge_sort Z.le
               (clamped_counts (mk 3 (counter_of_list [3; 1; 2]) "log" 10 ratio_0_1)))
            (- 0) = Ok bias_line
    /\ bias_line ∈ clamped_counts (mk 3 (counter_of_list [3; 1; 2]) "log" 10 ratio_0_1)
    /\ Forall (fun v => bias_line <= v)
              (clamped_counts (mk 3 (counter_of_list [3; 1; 2]) "log" 10 ratio_0_1))
    /\ calcualte_bias_label (mk 3 (counter_of_list [3; 1; 2]) "log" 10 ratio_0_1) =
         Ok (mk_partition [1; 1; 1] [0; 1; 2]%nat 3 0).
Proof.
  apply (zero_mid_index_labels_every_item
           (mk 3 (counter_of_list [3; 1; 2]) "log" 10 ratio_0_1));
    [simpl; lia | vm_compute; reflexivity].
Defined.

(** C3, at the counts [1, 2, 3, 4, 5] and ratio 0.4.  [mid_i] is 2,
    [bias_line] is [bias_bak[-2] = 4] and [nobias_line] is
    [bias_bak[2] = 3], the third smallest count: the items with counts 4
    and 5 get label 1, and the items with counts 1, 2 and 3 get label 0.
    The item with count 3 (index 2) is in the low partition, not
    excluded. *)
Theorem bias_partition_keeps_the_middle_item :
  mid_index 5 ratio_0_4 = Ok 2
  /\ clamped_counts (mk 5 (counter_of_list [1; 2; 3; 4; 5]) "log" 10 ratio_0_4)
     = [1; 2; 3; 4; 5]
  /\ getitem (merge_sort Z.le [1; 2; 3; 4; 5]) (- 2) = Ok 4
  /\ getitem (merge_sort Z.le [1; 2; 3; 4; 5]) 2 = Ok 3
  /\ calcualte_bias_label (mk 5 (counter_of_list [1; 2; 3; 4; 5]) "log" 10 ratio_0_4)
     = Ok (mk_partition [0; 0; 0; 1; 1] [0; 1; 2; 3; 4]%nat 2 3).
Proof. repeat split; vm_compute; reflexivity. Qed.

End BiasClaims.

(** ** Broadcasting *)

Module TorchFacts.
Import PyFacts.

Section facts.
Context {F : Type}.

Lemma mapR_fmap {A B C} (f : B -> result C) (h : A -> B) (g : A -> C) (l : list A) :
  (forall x, f (h x) = Ok (g x)) -> mapR f (h <$> l) = Ok (g <$> l).
Proof.
  intros H. induction l as [|x l IH]; [done|].
  rewrite !fmap_cons. cbn [mapR]. by rewrite H, bind_Ok, IH.
Qed.

Lemma mapR_ok {A B} (f : A -> result B) (g : A -> B) (l : list A) :
  (forall x, f x = Ok (g x)) -> mapR f l = Ok (g <$> l).
Proof.
  intros H. rewrite <- (list_fmap_id l) at 1. by apply mapR_fmap.
Qed.

Lemma mapR_length {A B} (f : A -> result B) (l : list A) (l' : list B) :
  mapR f l = Ok l' -> length l' = length l.
Proof.
  revert l'. induction l as [|x l IH]; intros l'; simpl.
  - by intros [= <-].
  - intros (y & _ & (ys & Hys & [= <-])%bind_ok)%bind_ok.
    simpl. f_equal. by apply IH.
Qed.

Lemma zipR_fmap {A B C D} (f : B -> C -> result D)
  (h1 : A -> B) (h2 : A -> C) (g : A -> D) (l : list A) :
  (forall x, f (h1 x) (h2 x) = Ok (g x)) ->
  zipR f (h1 <$> l) (h2 <$> l) = Ok (g <$> l).
Proof.
  intros H. induction l as [|x l IH]; [done|].
  rewrite !fmap_cons. cbn [zipR]. by rewrite H, bind_Ok, IH.
Qed.

Lemma zipR_pure {A B C} (g : A -> B -> C) (la : list A) (lb : list B) :
  zipR (fun x y => Ok (g x y)) la lb = Ok (zip_with g la lb).
Proof.
  revert lb. induction la as [|x la IH]; intros [|y lb]; simpl; try done.
  by rewrite IH.
Qed.

Lemma bcast_same {A B C} (g : A -> B -> result C) (la : list A) (lb : list B) :
  length la = length lb -> bcast g la lb = zipR g la lb.
Proof. intros H. unfold bcast. by rewrite H, Nat.eqb_refl. Qed.

Lemma bcast_single_r {A B C} (g : A -> B -> result C) (la : list A) (b : B) :
  bcast g la [b] = mapR (fun a => g a b) la.
Proof.
  unfold bcast. destruct la as [|a [|a' la]]; simpl; try done;
    try by destruct (g a b).
Qed.

Lemma bcast_single_l {A B C} (g : A -> B -> result C) (a : A) (lb : list B) :
  bcast g [a] lb = mapR (g a) lb.
Proof.
  unfold bcast. destruct lb as [|b [|b' lb]]; simpl; try done;
    try by destruct (g a b).
Qed.

Lemma bvec_same (f : F -> F -> F) (u v : list F) :
  length u = length v -> bvec f u v = Ok (zip_with f u v).
Proof. intros H. unfold bvec. by rewrite bcast_same, zipR_pure. Qed.

Lemma bvec_single_r (f : F -> F -> F) (u : list F) (y : F) :
  bvec f u [y] = Ok ((fun x => f x y) <$> u).
Proof. unfold bvec. rewrite bcast_single_r. by apply mapR_ok. Qed.

Lemma bvec_single_l (f : F -> F -> F) (x : F) (v : list F) :
  bvec f [x] v = Ok (f x <$> v).
Proof. unfold bvec. rewrite bcast_single_l. by apply mapR_ok. Qed.

Lemma bdim_same (c : nat) : bdim c c = Ok c.
Proof. unfold bdim. by rewrite Nat.eqb_refl. Qed.

Lemma bdim_1_r (c : nat) : bdim c 1 = Ok c.
Proof. unfold bdim. by destruct (c =? 1)%nat. Qed.

Lemma bdim_1_l (c : nat) : bdim 1 c = Ok c.
Proof.
  unfold bdim. destruct (1 =? c)%nat eqn:E; [|done].
  by apply Nat.eqb_eq in E as <-.
Qed.

Lemma squeeze1_T1 (v : list F) : length v <> 1%nat -> squeeze1 v = T1 v.
Proof. by destruct v as [|x [|y v]]. Qed.

Lemma concat_singletons {A} (g : A -> F) (l : list A) :
  concat ((fun x => [g x]) <$> l) = g <$> l.
Proof. induction l as [|x l IH]; csimpl; [done | by rewrite IH]. Qed.

Lemma zip_with_fmap_same {A B C D} (f : B -> C -> D)
  (h1 : A -> B) (h2 : A -> C) (l : list A) :
  zip_with f (h1 <$> l) (h2 <$> l) = (fun x => f (h1 x) (h2 x)) <$> l.
Proof. induction l as [|x l IH]; csimpl; [done | by rewrite IH]. Qed.

(** The indices which [topk] returns for one row. *)
Lemma insert_desc_length (ltb : F -> F -> bool) (p : F * nat) (s : list (F * nat)) :
  length (insert_desc ltb p s) = S (length s).
Proof.
  induction s as [|q s IH]; simpl; [done|].
  destruct (ltb p.1 q.1); simpl; [by rewrite IH | done].
Qed.

Lemma foldr_insert_desc_length (ltb : F -> F -> bool) (ps : list (F * nat)) :
  length (foldr (insert_desc ltb) [] ps) = length ps.
Proof.
  induction ps as [|p ps IH]; simpl; [done|].
  by rewrite insert_desc_length, IH.
Qed.

Lemma topk_row_length (ltb : F -> F -> bool) (k : nat) (row : list F) (i : list nat) :
  topk_row ltb k row = Ok i -> length i = k.
Proof.
  unfold topk_row. destruct (length row <? k)%nat eqn:E; [discriminate|].
  intros [= <-]. apply Nat.ltb_ge in E.
  rewrite length_take, length_fmap, foldr_insert_desc_length, length_imap. lia.
Qed.

Lemma topk_indices_rows (ltb : F -> F -> bool) (k : nat) (t : tensor F)
  (idx : list (list nat)) :
  topk_indices ltb k t = Ok idx ->
  exists c rows, t = T2 c rows /\ length idx = length rows
                 /\ Forall (fun i => length i = k) idx.
Proof.
  destruct t as [x | v | c rows]; simpl; [discriminate | |].
  - by destruct (topk_row ltb k v).
  - destruct (c <? k)%nat; [discriminate|]. intros H.
    exists c, rows. split; [done|]. split; [by eapply mapR_length|].
    clear -H. revert idx H. induction rows as [|r rows IH]; intros idx; simpl.
    + by intros [= <-].
    + intros (i & Hi & (is' & His & [= <-])%bind_ok)%bind_ok.
      constructor; [by eapply topk_row_length | by apply IH].
Qed.

End facts.

End TorchFacts.

(** ** The debiased scores of [SASRecN] *)

Module ScoreFacts.
Import PyFacts TorchFacts SASRecN.

Section facts.
Context {F V : Type} `{!Kernel F V}.

Lemma user_score_spec (self : t F V) (seq : list V) :
  length seq <> 1%nat ->
  user_score self seq = Ok (T2 1 ((fun h => [user_of self h]) <$> seq)).
Proof.
  intros Hb. unfold user_score, squeeze.
  change (1 =? 1)%nat with true. rewrite orb_true_r.
  rewrite (concat_singletons (fun h => sigmoid (fc_user self h))).
  rewrite squeeze1_T1 by (by rewrite length_fmap).
  unfold unsqueeze. simpl. by rewrite <- list_fmap_compose.
Qed.

(** With one query in the batch [squeeze()] drops both dimensions and
    [unsqueeze(1)] has no dimension 1 to insert. *)
Lemma user_score_single (self : t F V) (h : V) :
  user_score self [h] = Raise IndexError.
Proof. reflexivity. Qed.

(** Whatever the catalogue size, the item scores multiply as the one-row
    matrix of [item_of]. *)
Lemma bop_item_scores (self : t F V) (weight : list V) (it : tensor F)
  (f : F -> F -> F) (cols : nat) (rows : list (list F)) :
  item_scores self weight = Ok it ->
  bop f (T2 cols rows) it =
    bmat f cols rows (length weight) [item_of self <$> weight].
Proof.
  unfold item_scores, squeeze.
  change (1 =? 1)%nat with true. rewrite orb_true_r.
  rewrite (concat_singletons (fun e => sigmoid (fc_item self e))).
  destruct weight as [|e [|e' weight]]; simpl; intros [= <-]; try done.
  simpl. by rewrite length_fmap.
Qed.

Lemma item_scores_ok (self : t F V) (weight : list V) :
  exists it, item_scores self weight = Ok it.
Proof.
  unfold item_scores, squeeze.
  change (1 =? 1)%nat with true. rewrite orb_true_r.
  rewrite (concat_singletons (fun e => sigmoid (fc_item self e))).
  destruct weight as [|e [|e' weight]]; simpl; eauto.
Qed.

Lemma adjusted_row (cc u : F) (raws its : list F) :
  length raws = length its ->
  zip_with fsub (zip_with fmul ((fun x => fmul x u) <$> raws) its)
                (fmul (fmul cc u) <$> its)
  = zip_with (fun raw it => adjusted cc raw u it) raws its.
Proof.
  revert its. induction raws as [|r raws IH]; intros [|i its]; csimpl; try done.
  intros [= Hlen]. by rewrite IH.
Qed.

(** [debias], once the first product [scores * user_score] is known to
    hold one row per query: the remaining two products and the
    difference. *)
Lemma debias_rows (self : t F V) (scores : tensor F) (seq weight : list V)
  (rows : V -> list F) (it : tensor F) :
  (forall h, length (rows h) = length weight) ->
  item_scores self weight = Ok it ->
  bop fmul scores (T2 1 ((fun h => [user_of self h]) <$> seq)) =
    Ok (T2 (length weight)
          ((fun h => (fun x => fmul x (user_of self h)) <$> rows h) <$> seq)) ->
  debias self scores (T2 1 ((fun h => [user_of self h]) <$> seq)) it =
    Ok (T2 (length weight)
          ((fun h => zip_with (fun raw i => adjusted (c self) raw (user_of self h) i)
                              (rows h) (item_of self <$> weight)) <$> seq)).
Proof.
  intros Hrows Hit Hfirst. unfold debias. rewrite Hfirst, bind_Ok.
  (* ... * item_scores *)
  rewrite (bop_item_scores self weight it _ _ _ Hit). unfold bmat at 1.
  rewrite bdim_same, bind_Ok, bdim_1_r, bind_Ok, bcast_single_r.
  rewrite (mapR_fmap _ _
             (fun h => zip_with fmul
                         ((fun x => fmul x (user_of self h)) <$> rows h)
                         (item_of self <$> weight)))
    by (intros h; apply bvec_same; by rewrite !length_fmap).
  rewrite !bind_Ok.
  (* self.c * user_score * item_scores *)
  cbn [tmap]. rewrite (bop_item_scores self weight it _ _ _ Hit). unfold bmat at 1.
  rewrite bdim_1_l, bind_Ok, bdim_1_r, bind_Ok, bcast_single_r.
  rewrite <- list_fmap_compose.
  rewrite (mapR_fmap _ _
             (fun h => fmul (fmul (c self) (user_of self h))
                         <$> (item_of self <$> weight)))
    by (intros h; apply bvec_single_l).
  rewrite !bind_Ok.
  (* the difference *)
  cbn [bop]. unfold bmat.
  rewrite bdim_same, bind_Ok, !length_fmap, bdim_same, bind_Ok.
  rewrite bcast_same by (by rewrite !length_fmap).
  rewrite (zipR_fmap _ _ _
             (fun h => zip_with (fun raw i => adjusted (c self) raw (user_of self h) i)
                                (rows h) (item_of self <$> weight))).
  - done.
  - intros h. rewrite bvec_same
      by (rewrite length_zip_with, !length_fmap, Hrows; lia).
    f_equal. apply adjusted_row. by rewrite length_fmap.
Qed.

(** [debias] on a score matrix with one row per query and one column per
    catalogue item. *)
Lemma debias_matrix (self : t F V) (seq weight : list V) (raw : V -> V -> F)
  (it : tensor F) :
  item_scores self weight = Ok it ->
  debias self (T2 (length weight) ((fun h => raw h <$> weight) <$> seq))
              (T2 1 ((fun h => [user_of self h]) <$> seq)) it
  = Ok (T2 (length weight)
          ((fun h => (fun e => adjusted (c self) (raw h e) (user_of self h)
                                        (item_of self e)) <$> weight) <$> seq)).
Proof.
  intros Hit.
  rewrite (debias_rows self _ seq weight (fun h => raw h <$> weight) it);
    [| intros h; by rewrite length_fmap | done |].
  - do 2 f_equal. apply list_fmap_ext. intros _ h _.
    apply zip_with_fmap_same.
  - cbn [bop]. unfold bmat.
    rewrite bdim_1_r, bind_Ok, !length_fmap, bdim_same, bind_Ok.
    rewrite bcast_same by (by rewrite !length_fmap).
    by rewrite (zipR_fmap _ _ _
                  (fun h => (fun x => fmul x (user_of self h)) <$> (raw h <$> weight)))
      by (intros h; apply bvec_single_r).
Qed.

(** [debias] on a score vector with one entry per query, as [predict]
    calls it: the vector is broadcast along the rows, so that row [q]
    holds the raw score of every query of the batch. *)
Lemma debias_vector (self : t F V) (seq weight : list V) (raws : list F)
  (it : tensor F) :
  length raws = length weight ->
  item_scores self weight = Ok it ->
  debias self (T1 raws) (T2 1 ((fun h => [user_of self h]) <$> seq)) it
  = Ok (T2 (length weight)
          ((fun h => zip_with (fun raw i => adjusted (c self) raw (user_of self h) i)
                              raws (item_of self <$> weight)) <$> seq)).
Proof.
  intros Hlen Hit.
  apply (debias_rows self (T1 raws) seq weight (fun _ => raws) it); [done | done |].
  cbn [bop]. unfold bmat.
  rewrite bdim_1_r, bind_Ok, bdim_1_l, bind_Ok, bcast_single_l.
  rewrite (mapR_fmap _ _ (fun h => (fun x => fmul x (user_of self h)) <$> raws))
    by (intros h; apply bvec_single_r).
  by rewrite bind_Ok, Hlen.
Qed.

(** The scores of [full_sort_predict] and the logits of the
    cross-entropy branch are the same expression. *)
Lemma ce_logits_full_sort_scores (self : t F V) (interaction : list (row V)) :
  ce_logits self interaction = full_sort_scores self interaction.
Proof. reflexivity. Qed.

(** Full-catalogue scores: for every query [q] and item [i] the entry is
    [raw[q,i] * user[q] * item[i] - c * user[q] * item[i]], when the batch
    does not hold exactly one query. *)
Lemma full_sort_scores_spec (self : t F V) (interaction : list (row V)) :
  length interaction <> 1%nat ->
  full_sort_scores self interaction =
    Ok (T2 (length (item_embedding self))
          ((fun r => (fun e => adjusted (c self) (dot (seq_output r) e)
                                        (user_of self (seq_output r))
                                        (item_of self e))
                       <$> item_embedding self) <$> interaction)).
Proof.
  intros Hb. unfold full_sort_scores, matmul_t.
  rewrite user_score_spec by (by rewrite length_fmap). rewrite bind_Ok.
  destruct (item_scores_ok self (item_embedding self)) as [it Hit].
  rewrite Hit, bind_Ok.
  rewrite (debias_matrix self _ _ dot it) by done.
  by rewrite <- list_fmap_compose.
Qed.

(** [predict] on a batch that does not hold exactly one query, with
    valid target items: a square matrix with one row and one column per
    query.  Entry [q, j] takes its raw score from query [j] and its target
    item, and its user score from query [q]. *)
Lemma predict_spec (self : t F V) (interaction : list (row V)) (embs : list V) :
  length interaction <> 1%nat ->
  mapR (embedding (item_embedding self)) (item_id <$> interaction) = Ok embs ->
  predict self interaction =
    Ok (T2 (length interaction)
          ((fun rq =>
              zip_with (fun raw i => adjusted (c self) raw
                                       (user_of self (seq_output rq)) i)
                       (zip_with mulsum (seq_output <$> interaction) embs)
                       (item_of self <$> embs)) <$> interaction)).
Proof.
  intros Hb Hemb. unfold predict. rewrite Hemb, bind_Ok.
  pose proof (mapR_length _ _ _ Hemb) as Hlen. rewrite length_fmap in Hlen.
  rewrite user_score_spec by (by rewrite length_fmap). rewrite bind_Ok.
  destruct (item_scores_ok self embs) as [it Hit]. rewrite Hit, bind_Ok.
  rewrite (debias_vector self _ embs _ it);
    [| rewrite length_zip_with, length_fmap; lia | done].
  by rewrite <- list_fmap_compose, Hlen.
Qed.

Lemma predict_single (self : t F V) (r : row V) (e : V) :
  item_embedding self !! item_id r = Some e ->
  predict self [r] = Raise IndexError.
Proof.
  intros He. unfold predict. simpl. unfold embedding. by rewrite He.
Qed.

Lemma full_sort_scores_single (self : t F V) (r : row V) :
  full_sort_scores self [r] = Raise IndexError.
Proof. reflexivity. Qed.

(** When the scores are returned they hold one row per query. *)
Lemma full_sort_scores_rows (self : t F V) (interaction : list (row V))
  (cols : nat) (rows : list (list F)) :
  full_sort_scores self interaction = Ok (T2 cols rows) ->
  length rows = length interaction.
Proof.
  destruct (decide (length interaction = 1%nat)) as [H1 | H1].
  - destruct interaction as [|r [|r' l]]; try discriminate H1.
    by rewrite full_sort_scores_single.
  - rewrite full_sort_scores_spec by done. intros [= _ <-].
    by rewrite length_fmap.
Qed.

End facts.

Section loss.
Context {F V : Type} `{!Kernel F V} `{!Losses F}.

(** Outside BPR, [calculate_loss] hands the adjusted logits to the
    cross-entropy loss, next to the two calibration terms. *)
Lemma calculate_loss_ce (self : t F V) (interaction : list (row V)) :
  String.eqb (loss_type self) "BPR" = false ->
  length interaction <> 1%nat ->
  calculate_loss self interaction =
    (let u := T2 1 ((fun r => [user_of self (seq_output r)]) <$> interaction) in
     let pos_items := item_id <$> interaction in
     it ← item_scores self (item_embedding self);
     l_pos ← BCELoss u (tmap (fun _ => fone) u);
     l_neg ← BCELoss u (tmap (fun _ => fzero) u);
     L_i ← CrossEntropyLoss (repeat_rows (length pos_items) it) pos_items;
     loss ← CrossEntropyLoss
              (T2 (length (item_embedding self))
                 ((fun r => (fun e => adjusted (c self) (dot (seq_output r) e)
                                               (user_of self (seq_output r))
                                               (item_of self e))
                              <$> item_embedding self) <$> interaction))
              pos_items;
     Ok (Triple loss (fmul (alpha self) (fadd l_pos l_neg))
                     (fmul (alpha self) L_i))).
Proof.
  intros Hce Hb. unfold calculate_loss. rewrite Hce.
  rewrite user_score_spec by (by rewrite length_fmap). rewrite bind_Ok.
  rewrite ce_logits_full_sort_scores, full_sort_scores_spec by done.
  rewrite <- list_fmap_compose.
  destruct (item_scores self (item_embedding self)) as [it | e]; [|done].
  by rewrite !bind_Ok.
Qed.

End loss.

(** The embedding never leaves rank two: [squeeze()] leaves a tensor of
    rank at most one for [unsqueeze] to widen. *)
Lemma rank_three_is_never_built {F V : Type} `{!Kernel F V}
  (self : t F V) (seq weight : list V) :
  user_score self seq <> Raise RankBeyondEmbedding
  /\ item_scores self weight <> Raise RankBeyondEmbedding.
Proof.
  split.
  - destruct (decide (length seq = 1%nat)) as [H1 | H1].
    + destruct seq as [|h [|h' seq]]; try discriminate H1.
      by rewrite user_score_single.
    + by rewrite user_score_spec.
  - by destruct (item_scores_ok self weight) as [it ->].
Qed.

End ScoreFacts.

Module ScoreFormula.
Import SASRecN ScoreFacts.



End ScoreFormula.

Module ScoreClaims.
Import PyFacts TorchFacts SASRecN ScoreFacts.

(** C1, at a batch of two queries.  [predict] does not return one score
    per query: it returns a 2 x 2 matrix whose entry [q, j] combines the
    raw score of query [j] with its own target item, the user score of
    query [q] and the item score of the target of [j].  Off the diagonal
    this is not the debiased score of query [q] against an item: the raw
    score in it belongs to another query.  [full_sort_predict] and the
    cross-entropy branch compute the adjustment of the claim (see
    [full_sort_scores_spec]). *)
Theorem predict_two_queries_returns_square_matrix
  {F V : Type} `{!Kernel F V}
  (n_items : nat) (dataset_counter item_cnt : gmap nat Z) (label pop_label : list Z)
  (loss_type : string) (fc_user fc_item : V -> F) (cc alpha : F)
  (h0 h1 e0 e1 : V) (neg0 neg1 : nat) :
  let self := mk n_items dataset_counter item_cnt label pop_label loss_type
                 [e0; e1] fc_user fc_item cc alpha in
  let u0 := user_of self h0 in
  let u1 := user_of self h1 in
  let i0 := item_of self e0 in
  let i1 := item_of self e1 in
  let raw0 := mulsum h0 e0 in
  let raw1 := mulsum h1 e1 in
  predict self [mk_row h0 0 neg0; mk_row h1 1 neg1] =
    Ok (T2 2 [[adjusted cc raw0 u0 i0; adjusted cc raw1 u0 i1];
              [adjusted cc raw0 u1 i0; adjusted cc raw1 u1 i1]])
  /\ (shape <$> predict self [mk_row h0 0 neg0; mk_row h1 1 neg1])
     = Ok [2; 2]%nat
  /\ predict self [mk_row h0 0 neg0] = Raise IndexError
  /\ full_sort_scores self [mk_row h0 0 neg0; mk_row h1 1 neg1] =
       Ok (T2 2 [[adjusted cc (dot h0 e0) u0 i0; adjusted cc (dot h0 e1) u0 i1];
                 [adjusted cc (dot h1 e0) u1 i0; adjusted cc (dot h1 e1) u1 i1]]).
Proof. repeat split. Qed.

(** The integer instance makes the divergence numeric: for hidden states
    1 and 2 with targets 3 and 5 the entry [0, 1] of [predict] is
    [(2*5) * 1 * 5 - 1 * 1 * 5 = 45], while the debiased score of query 0
    against item 5 is [(1*5) * 1 * 5 - 1 * 1 * 5 = 20]. *)
Lemma predict_integer_example :
  predict IntKernel.model IntKernel.batch = Ok (T2 2 [[6; 45]; [12; 90]])
  /\ adjusted (F := Z) 1 (dot (F := Z) 1 5) 1 5 = 20.
Proof. split; reflexivity. Qed.

End ScoreClaims.

(** ** The popularity accumulator *)

Module AccumulatorFacts.
Import PyFacts TorchFacts SASRecN ScoreFacts.

Lemma accumulate_spec (label : list Z) (idx : list (list nat)) (pop_label : list Z) :
  exists added,
    (accumulate label idx pop_label).2 = pop_label ++ added
    /\ ((accumulate label idx pop_label).1 = Ok () ->
        mapR (mypop label) idx = Ok added).
Proof.
  revert pop_label. induction idx as [|i idx IH]; intros pop_label; simpl.
  - exists []. by rewrite app_nil_r.
  - destruct (mypop label i) as [s | e]; simpl.
    + destruct (IH (pop_label ++ [s])) as (added & Hadd & Hok).
      exists (s :: added). split.
      * by rewrite Hadd, <- app_assoc.
      * intros H. by rewrite (Hok H).
    + exists []. by rewrite app_nil_r.
Qed.

Section facts.
Context {F V : Type} `{!Kernel F V}.

Lemma full_sort_predict_prefix (self : t F V) (interaction : list (row V)) :
  pop_label self `prefix_of` pop_label (full_sort_predict self interaction).2.
Proof.
  unfold full_sort_predict.
  destruct (full_sort_scores self interaction) as [scores | e]; [|done].
  destruct (topk_indices fltb 10 scores) as [idx | e]; [|done].
  destruct (accumulate_spec (label self) idx (pop_label self)) as (added & Hadd & _).
  destruct (accumulate (label self) idx (pop_label self)) as [r pl].
  simpl in *. subst pl. by apply prefix_app_r.
Qed.

Lemma after_prefix (self : t F V) (op : call V) :
  pop_label self `prefix_of` pop_label (after self op).
Proof.
  destruct op; simpl; try done.
  - unfold cal_popular.
    by destruct (log_loop (dataset_counter self) (seq 0 (n_items self)) []).
  - apply full_sort_predict_prefix.
Qed.

Lemma calls_prefix (ops : list (call V)) (self : t F V) :
  pop_label self `prefix_of` pop_label (foldl after self ops).
Proof.
  revert self. induction ops as [|op ops IH]; intros self; simpl; [done|].
  etrans; [apply after_prefix | apply IH].
Qed.

End facts.

End AccumulatorFacts.

Module AccumulatorClaims.
Import PyFacts TorchFacts SASRecN ScoreFacts AccumulatorFacts.



(** C10.  [cal_curr_pop] on an empty [pop_label] raises
    [ZeroDivisionError]; it returns only when [pop_label] holds an entry,
    and it does return when [pop_label] and [label] both hold one. *)
Theorem cal_curr_pop_needs_an_entry {F V : Type} (self : t F V) :
  (pop_label self = [] -> cal_curr_pop self = Raise ZeroDivisionError)
  /\ (forall out, cal_curr_pop self = Ok out -> pop_label self <> [])
  /\ (pop_label self <> [] -> label self <> [] ->
      exists pop m, cal_curr_pop self = Ok (pop, m, length (pop_label self))
                    /\ max_list (label self) = Ok m).
Proof.
  split; [|split].
  - intros E. unfold cal_curr_pop. by rewrite E.
  - intros out H E. unfold cal_curr_pop in H. by rewrite E in H.
  - intros Hp Hl. unfold cal_curr_pop.
    destruct (max_list_nonempty _ Hl) as [m Hm]. rewrite Hm.
    destruct (pop_label self) as [|x pl]; [done|]. simpl. eauto.
Qed.

End AccumulatorClaims.

(** ** Construction *)

Module ConstructionClaims.
Import PyFacts SASRecN.

(** The choice of lines 78 to 83, taken alone: a loss module for "BPR"
    and for "CE", [NotImplementedError] for every other value. *)
Lemma select_loss_spec (loss_type : cval) :
  select_loss (CStr "BPR") = Ok BPRLoss_module
  /\ select_loss (CStr "CE") = Ok CrossEntropyLoss_module
  /\ (loss_type <> CStr "BPR" -> loss_type <> CStr "CE" ->
      select_loss loss_type = Raise NotImplementedError).
Proof.
  split; [done|]. split; [done|]. intros Hb Hc.
  destruct loss_type as [| z | s | x]; simpl; try done.
  destruct (String.eqb s "BPR") eqn:E1.
  - apply String.eqb_eq in E1. by subst s.
  - destruct (String.eqb s "CE") eqn:E2; [|done].
    apply String.eqb_eq in E2. by subst s.
Qed.

(** In [SequentialRecommender.__init__] the call [self.cal_popular()] of a
    [SASRecN] instance runs [SASRecN.cal_popular], which reads
    [self.config] before [SASRecN.__init__] has assigned it. *)
Lemma base_init_raises (config : gmap string cval) (d : dataset) :
  SequentialRecommender_init SASRecN_class config d ∅ = Raise AttributeError.
Proof. reflexivity. Qed.

(** C7, at every configuration and dataset.  [SASRecN(config, dataset)]
    raises [AttributeError] inside [super().__init__], before the choice
    of the loss module is reached: no instance is produced for
    [loss_type] "BPR" or "CE" either. *)
Theorem construction_raises_before_loss_choice
  (config : gmap string cval) (d : dataset) :
  init config d = Raise AttributeError
  /\ init (<["loss_type" := CStr "CE"]> config) d = Raise AttributeError
  /\ init (<["loss_type" := CStr "BPR"]> config) d = Raise AttributeError
  /\ select_loss (config_get (<["loss_type" := CStr "CE"]> config) "loss_type")
     = Ok CrossEntropyLoss_module.
Proof.
  repeat split.
  unfold config_get. by rewrite lookup_insert_eq.
Qed.

End ConstructionClaims.

(** ** Invariants of the bias partition *)

Module BiasInvariants.
Import PyFacts SequentialRecommender LabelFacts BiasFacts Invariants.

Lemma StronglySorted_lt_snoc (l : list nat) (i : nat) :
  StronglySorted lt l -> Forall (fun k => (k < i)%nat) l ->
  StronglySorted lt (l ++ [i]).
Proof.
  induction 1 as [|x l Hs IH Hx]; intros Hall; simpl.
  - repeat constructor.
  - apply Forall_cons in Hall as [Hxi Hall]. constructor; [by apply IH|].
    apply Forall_app. split; [done | by constructor].
Qed.

Lemma partition_ok_step (bias : list Z) (mid_i bias_line nobias_line : Z)
  (i : nat) (v : Z) (st : partition) :
  bias !! i = Some v ->
  partition_ok bias mid_i bias_line nobias_line i st ->
  partition_ok bias mid_i bias_line nobias_line (S i)
               (bias_step mid_i bias_line nobias_line st i v).
Proof.
  intros Hv (Hlen & Hcnt & Hcap & Hsum & Hsort & Hlt & Hlab & Hall).
  assert (Htake : take (S i) bias = take i bias ++ [v]) by by apply take_S_r.
  assert (Hlt' : Forall (fun k => (k < S i)%nat) (bias_idx st))
    by (eapply Forall_impl; [exact Hlt | simpl; lia]).
  unfold bias_step, partition_ok.
  destruct (bias_line <=? v) eqn:Hhi; [apply Z.leb_le in Hhi | apply Z.leb_gt in Hhi].
  - simpl. rewrite !length_app, Htake, filter_app, length_app. simpl.
    rewrite (filter_cons_True _ v) by done. rewrite filter_nil. simpl.
    repeat split; try lia.
    + by apply StronglySorted_lt_snoc.
    + apply Forall_app. split; [done | constructor; [lia | constructor]].
    + apply Forall2_app; [done|]. constructor; [|constructor].
      exists v. split; [done|]. left. done.
    + intros k w Hk Hw Hge. destruct (decide (k = i)) as [-> | Hne].
      * apply elem_of_app. right. constructor.
      * apply elem_of_app. left. apply (Hall k w); [lia | done | done].
  - assert (Hfilter : filter (fun v => bias_line <= v) (take (S i) bias)
                      = filter (fun v => bias_line <= v) (take i bias)).
    { rewrite Htake, filter_app, (filter_cons_False _ v) by lia.
      by rewrite filter_nil, app_nil_r. }
    assert (Hall' : forall k w, (k < S i)%nat -> bias !! k = Some w ->
                      bias_line <= w -> k ∈ bias_idx st).
    { intros k w Hk Hw Hge. destruct (decide (k = i)) as [-> | Hne].
      - rewrite Hv in Hw. injection Hw as <-. lia.
      - apply (Hall k w); [lia | done | done]. }
    destruct (v <=? nobias_line) eqn:Hlo;
      [apply Z.leb_le in Hlo | apply Z.leb_gt in Hlo].
    + destruct (mid_i <? nobias_cnt st) eqn:Hfull;
        [apply Z.ltb_lt in Hfull | apply Z.ltb_ge in Hfull].
      * rewrite Hfilter. repeat split; try done; lia.
      * simpl. rewrite !length_app, Hfilter. simpl.
        repeat split; try lia.
        -- by apply StronglySorted_lt_snoc.
        -- apply Forall_app. split; [done | constructor; [lia | constructor]].
        -- apply Forall2_app; [done|]. constructor; [|constructor].
           exists v. split; [done|]. right. done.
        -- intros k w Hk Hw Hge. apply elem_of_app. left. by eapply Hall'.
    + rewrite Hfilter. repeat split; try done; lia.
Qed.

Lemma partition_ok_loop (bias : list Z) (mid_i bias_line nobias_line : Z)
  (rest : list Z) (i : nat) (st : partition) :
  drop i bias = rest ->
  partition_ok bias mid_i bias_line nobias_line i st ->
  partition_ok bias mid_i bias_line nobias_line (length bias)
               (bias_loop mid_i bias_line nobias_line st i rest).
Proof.
  revert i st. induction rest as [|v rest IH]; intros i st Hdrop Hok; simpl.
  - assert (length bias <= i)%nat as Hge.
    { apply (f_equal length) in Hdrop. rewrite length_drop in Hdrop.
      simpl in Hdrop. lia. }
    destruct Hok as (Hlen & Hcnt & Hcap & Hsum & Hsort & Hlt & Hlab & Hall).
    rewrite take_ge in Hcnt by done.
    unfold partition_ok. rewrite firstn_all.
    repeat split; try done; try lia.
    + apply Forall_forall. intros k Hk.
      rewrite Forall2_lookup in Hlab.
      apply list_elem_of_lookup in Hk as [j Hj].
      specialize (Hlab j). rewrite Hj in Hlab.
      inversion Hlab as [? ? (w & Hw & _) |]; subst.
      by apply lookup_lt_Some in Hw.
    + intros k w Hk Hw Hge'. apply (Hall k w); [|done|done].
      apply lookup_lt_Some in Hw. lia.
  - assert (Hv : bias !! i = Some v).
    { rewrite <- (Nat.add_0_r i), <- lookup_drop, Hdrop. done. }
    apply IH.
    + replace (S i) with (i + 1)%nat by lia.
      rewrite <- drop_drop, Hdrop. done.
    + by apply partition_ok_step.
Qed.

End BiasInvariants.

Module BiasPartition.
Import PyFacts SequentialRecommender LabelFacts BiasFacts Invariants BiasInvariants.

Lemma getitem_in_range {A} (l : list A) (i : Z) :
  - Z.of_nat (length l) <= i < Z.of_nat (length l) ->
  exists x, getitem l i = Ok x
            /\ l !! Z.to_nat (if i <? 0 then i + Z.of_nat (length l) else i) = Some x.
Proof.
  intros Hi. unfold getitem.
  set (j := if i <? 0 then i + Z.of_nat (length l) else i).
  assert (0 <= j < Z.of_nat (length l)) as Hj.
  { unfold j. destruct (i <? 0) eqn:E;
      [apply Z.ltb_lt in E | apply Z.ltb_ge in E]; lia. }
  replace (0 <=? j) with true by (symmetry; apply Z.leb_le; lia).
  replace (j <? Z.of_nat (length l)) with true by (symmetry; apply Z.ltb_lt; lia).
  simpl.
  destruct (lookup_lt_is_Some_2 l (Z.to_nat j) ltac:(lia)) as [x Hx].
  exists x. by rewrite Hx.
Qed.

Lemma getitem_out_of_range {A} (l : list A) (i : Z) :
  ~ (- Z.of_nat (length l) <= i < Z.of_nat (length l)) ->
  getitem l i = Raise IndexError.
Proof.
  intros Hi. unfold getitem.
  set (j := if i <? 0 then i + Z.of_nat (length l) else i).
  assert (~ (0 <= j < Z.of_nat (length l))) as Hj.
  { unfold j. destruct (i <? 0) eqn:E;
      [apply Z.ltb_lt in E | apply Z.ltb_ge in E]; lia. }
  destruct (0 <=? j) eqn:E1; [apply Z.leb_le in E1 | done].
  destruct (j <? Z.of_nat (length l)) eqn:E2; [apply Z.ltb_lt in E2 | done].
  lia.
Qed.

Lemma sorted_length (l : list Z) : length (merge_sort Z.le l) = length l.
Proof. by rewrite (merge_sort_Permutation Z.le l). Qed.

Lemma filter_all {A} (P : A -> Prop) `{!forall x, Decision (P x)} (l : list A) :
  Forall P l -> filter P l = l.
Proof.
  induction 1 as [|x l Hx _ IH]; [done|].
  by rewrite filter_cons_True, IH.
Qed.

Lemma sorted_drop_ge (s : list Z) (k : nat) (x : Z) :
  StronglySorted Z.le s -> s !! k = Some x -> Forall (Z.le x) (drop k s).
Proof.
  intros Hs. revert k. induction Hs as [|y s Hs IH Hy]; intros k Hk; [done|].
  destruct k as [|k]; simpl in *.
  - injection Hk as ->. constructor; [lia | done].
  - by apply IH.
Qed.

(** In the sorted counts, at least [length - k] counts reach the one at
    position [k]. *)
Lemma count_at_least (l : list Z) (k : nat) (x : Z) :
  merge_sort Z.le l !! k = Some x ->
  (length l - k <= length (filter (fun v => (x <= v)%Z) l))%nat.
Proof.
  intros Hk.
  pose proof (StronglySorted_merge_sort Z.le l) as Hs.
  pose proof (merge_sort_Permutation Z.le l) as Hp.
  rewrite <- Hp at 2. rewrite <- (sorted_length l).
  rewrite <- (take_drop k (merge_sort Z.le l)) at 2.
  rewrite filter_app, length_app.
  rewrite (filter_all _ (drop k _)) by by apply sorted_drop_ge.
  rewrite length_drop. lia.
Qed.

(** The bias partition is defined exactly for [-n < mid_i < n]; outside
    this range one of [bias_bak[-mid_i]], [bias_bak[mid_i]] raises
    [IndexError]: with no item at all, and for every ratio from 1 up. *)
Theorem bias_partition_needs_an_index_in_range (self : t) (mid_i : Z) :
  mid_index (n_items self) (b_ratio self) = Ok mid_i ->
  (- Z.of_nat (n_items self) < mid_i < Z.of_nat (n_items self) ->
     exists p, calcualte_bias_label self = Ok p)
  /\ (~ (- Z.of_nat (n_items self) < mid_i < Z.of_nat (n_items self)) ->
     calcualte_bias_label self = Raise IndexError).
Proof.
  intros Hmid. unfold calcualte_bias_label.
  rewrite sorted_length, clamped_counts_length, Hmid, bind_Ok.
  unfold bias_partition_at.
  pose proof (sorted_length (clamped_counts self)) as Hlen.
  rewrite clamped_counts_length in Hlen.
  split; intros Hr.
  - destruct (getitem_in_range (merge_sort Z.le (clamped_counts self)) (- mid_i))
      as (x & -> & _); [rewrite Hlen; lia|].
    destruct (getitem_in_range (merge_sort Z.le (clamped_counts self)) mid_i)
      as (y & -> & _); [rewrite Hlen; lia|].
    rewrite !bind_Ok. eauto.
  - destruct (decide (- Z.of_nat (n_items self) <= - mid_i < Z.of_nat (n_items self)))
      as [Hin | Hout].
    + destruct (getitem_in_range (merge_sort Z.le (clamped_counts self)) (- mid_i))
        as (x & -> & _); [rewrite Hlen; lia|].
      rewrite bind_Ok.
      rewrite (getitem_out_of_range _ mid_i) by (rewrite Hlen; lia). done.
    + rewrite (getitem_out_of_range _ (- mid_i)) by (rewrite Hlen; lia). done.
Qed.

Lemma bias_partition_needs_an_index_in_range_witness :
  (- Z.of_nat 5 < 5 < Z.of_nat 5 ->
     exists p, calcualte_bias_label
                 (mk 5 (counter_of_list [1; 2; 3; 4; 5]) "log" 10 1%float) = Ok p)
  /\ (~ (- Z.of_nat 5 < 5 < Z.of_nat 5) ->
     calcualte_bias_label (mk 5 (counter_of_list [1; 2; 3; 4; 5]) "log" 10 1%float)
     = Raise IndexError).
Proof.
  refine (bias_partition_needs_an_index_in_range
            (mk 5 (counter_of_list [1; 2; 3; 4; 5]) "log" 10 1%float) 5 _).
  vm_compute. reflexivity.
Defined.

(** Whenever [calcualte_bias_label] returns: [bias_label] and [bias_idx]
    have one entry per selected item; [bias_idx] is strictly increasing
    and within the catalogue, so no item is selected twice and the two
    partitions are disjoint; the label of a selected item is 1 exactly
    when its clamped count reaches [bias_line], and 0 only when the count
    is below [bias_line] and at most [nobias_line]; every item whose count
    reaches [bias_line] is selected; the high partition holds at least
    [mid_i] items and the low one at most [mid_i + 1]. *)
Theorem bias_partition_invariants (self : t) (p : partition) :
  calcualte_bias_label self = Ok p ->
  length (bias_label p) = length (bias_idx p)
  /\ Z.of_nat (length (bias_idx p)) = bias_cnt p + nobias_cnt p
  /\ StronglySorted lt (bias_idx p)
  /\ Forall (fun k => (k < n_items self)%nat) (bias_idx p)
  /\ exists mid_i bias_line nobias_line,
       mid_index (n_items self) (b_ratio self) = Ok mid_i
       /\ getitem (merge_sort Z.le (clamped_counts self)) (- mid_i) = Ok bias_line
       /\ getitem (merge_sort Z.le (clamped_counts self)) mid_i = Ok nobias_line
       /\ Forall2 (fun k lab =>
                     (lab = 1 /\ bias_line <= clamp (item_cnt self) k)
                     \/ (lab = 0 /\ clamp (item_cnt self) k < bias_line
                         /\ clamp (item_cnt self) k <= nobias_line))
                  (bias_idx p) (bias_label p)
       /\ (forall k, (k < n_items self)%nat ->
             bias_line <= clamp (item_cnt self) k -> k ∈ bias_idx p)
       /\ mid_i <= bias_cnt p
       /\ 0 <= nobias_cnt p <= Z.max (mid_i + 1) 0.
Proof.
  unfold calcualte_bias_label.
  rewrite sorted_length, clamped_counts_length.
  intros (mid_i & Hmid & Hp)%bind_ok. unfold bias_partition_at in Hp.
  apply bind_ok in Hp as (bias_line & Hbl & Hp).
  apply bind_ok in Hp as (nobias_line & Hnl & Hp).
  injection Hp as <-.
  pose proof (partition_ok_loop (clamped_counts self) mid_i bias_line nobias_line
                (clamped_counts self) 0 (mk_partition [] [] 0 0) eq_refl) as Hok.
  destruct Hok as (Hlen & Hcnt & Hcap & Hsum & Hsort & Hlt & Hlab & Hall).
  { unfold partition_ok. simpl.
    repeat split; try done; try lia; try constructor. }
  rewrite clamped_counts_length in Hlt, Hall.
  rewrite firstn_all in Hcnt.
  split; [done|]. split; [lia|]. split; [done|]. split; [done|].
  exists mid_i, bias_line, nobias_line.
  split; [done|]. split; [done|]. split; [done|]. split; [|split; [|split]].
  - eapply Forall2_impl; [exact Hlab|]. simpl.
    intros k lab (v & Hv & Hcase).
    apply clamped_counts_lookup_inv in Hv as [_ ->]. exact Hcase.
  - intros k Hk Hge. apply (Hall k (clamp (item_cnt self) k)); [done | | done].
    by apply clamped_counts_lookup.
  - rewrite Hcnt.
    destruct (decide (mid_i <= 0)) as [Hneg | Hpos]; [lia|].
    pose proof (sorted_length (clamped_counts self)) as Hsl.
    rewrite clamped_counts_length in Hsl.
    destruct (decide (- Z.of_nat (n_items self) <= - mid_i < Z.of_nat (n_items self)))
      as [Hin | Hout].
    + destruct (getitem_in_range (merge_sort Z.le (clamped_counts self)) (- mid_i))
        as (x & Hx & Hlk); [rewrite Hsl; lia|].
      rewrite Hbl in Hx. injection Hx as <-.
      replace (- mid_i <? 0) with true in Hlk by (symmetry; apply Z.ltb_lt; lia).
      rewrite Hsl in Hlk.
      pose proof (count_at_least _ _ _ Hlk) as Hc.
      rewrite clamped_counts_length in Hc. lia.
    + rewrite getitem_out_of_range in Hbl by (rewrite Hsl; lia). discriminate.
  - done.
Qed.

Lemma bias_partition_invariants_witness :
  length [0; 0; 0; 1; 1] = length [0; 1; 2; 3; 4]%nat
  /\ Z.of_nat (length [0; 1; 2; 3; 4]%nat) = 2 + 3
  /\ StronglySorted lt [0; 1; 2; 3; 4]%nat
  /\ Forall (fun k => (k < 5)%nat) [0; 1; 2; 3; 4]%nat
  /\ exists mid_i bias_line nobias_line,
       mid_index 5 ratio_0_4 = Ok mid_i
       /\ getitem (merge_sort Z.le (clamped_counts
            (mk 5 (counter_of_list [1; 2; 3; 4; 5]) "log" 10 ratio_0_4))) (- mid_i)
          = Ok bias_line
       /\ getitem (merge_sort Z.le (clamped_counts
            (mk 5 (counter_of_list [1; 2; 3; 4; 5]) "log" 10 ratio_0_4))) mid_i
          = Ok nobias_line
       /\ Forall2 (fun k lab =>
                     (lab = 1 /\ bias_line <= clamp (counter_of_list [1; 2; 3; 4; 5]) k)
                     \/ (lab = 0 /\ clamp (counter_of_list [1; 2; 3; 4; 5]) k < bias_line
                         /\ clamp (counter_of_list [1; 2; 3; 4; 5]) k <= nobias_line))
                  [0; 1; 2; 3; 4]%nat [0; 0; 0; 1; 1]
       /\ (forall k, (k < 5)%nat ->
             bias_line <= clamp (counter_of_list [1; 2; 3; 4; 5]) k ->
             k ∈ [0; 1; 2; 3; 4]%nat)
       /\ mid_i <= 2
       /\ 0 <= 3 <= Z.max (mid_i + 1) 0.
Proof.
  refine (bias_partition_invariants
            (mk 5 (counter_of_list [1; 2; 3; 4; 5]) "log" 10 ratio_0_4)
            (mk_partition [0; 0; 0; 1; 1] [0; 1; 2; 3; 4]%nat 2 3) _).
  vm_compute. reflexivity.
Defined.

End BiasPartition.

(** ** Every strategy of [cal_popular] *)

Module LabelRange.
Import PyFacts RoundFacts SequentialRecommender LabelFacts ArgFacts.

(** A strategy that is neither "avg" nor "arg" is not rejected: the loop
    keeps the [log] label. *)
Lemma cal_popular_other (self : t) :
  String.eqb (label_strategy self) "avg" = false ->
  String.eqb (label_strategy self) "arg" = false ->
  (0 < n_items self)%nat ->
  cal_popular self = Ok ((fun v => round_R (ln (IZR v))) <$> clamped_counts self).
Proof.
  intros Havg Harg Hn. unfold cal_popular.
  destruct (max_list_nonempty _ (clamped_counts_nonempty _ Hn)) as [m ->].
  rewrite bind_Ok.
  apply (for_enumerate_fmap _ (fun v => round_R (ln (IZR v)))).
  intros j v Hj. unfold label_of.
  pose proof (clamped_counts_ge_1 self) as H.
  rewrite Forall_lookup in H. specialize (H _ _ Hj).
  rewrite math_log_ok by done. rewrite bind_Ok. by rewrite Havg, Harg.
Qed.

Lemma insert_idx_perm (key : nat -> Z) (i : nat) (s : list nat) :
  insert_idx key i s ≡ₚ i :: s.
Proof.
  induction s as [|j s IH]; simpl; [done|].
  destruct (key i <=? key j); [done|].
  rewrite IH. apply Permutation_swap.
Qed.

Lemma argsort_perm (l : list Z) : argsort l ≡ₚ seq 0 (length l).
Proof.
  unfold argsort, argsort_by.
  induction (seq 0 (length l)) as [|i ks IH]; simpl; [done|].
  by rewrite insert_idx_perm, IH.
Qed.

Lemma round_half_even_zero (b : Z) : 0 < b -> round_half_even 0 b = 0.
Proof.
  intros Hb. pose proof (round_half_even_exact 0 b Hb) as H.
  by rewrite Z.mul_0_l in H.
Qed.

Lemma round_half_even_between (a lc b : Z) :
  0 < b -> 0 <= a <= lc * b -> 0 <= round_half_even a b <= lc.
Proof.
  intros Hb [H0 H1].
  pose proof (round_half_even_mono 0 a b Hb H0) as Hlo.
  pose proof (round_half_even_mono a (lc * b) b Hb H1) as Hhi.
  rewrite round_half_even_zero in Hlo by done.
  rewrite round_half_even_exact in Hhi by done. lia.
Qed.






End LabelRange.

(** ** Outcomes of the scoring methods *)

Module Outcomes.
Import PyFacts TorchFacts SASRecN ScoreFacts AccumulatorFacts.

Section topk.
Context {F : Type}.

Lemma insert_desc_perm (ltb : F -> F -> bool) (p : F * nat) (s : list (F * nat)) :
  insert_desc ltb p s ≡ₚ p :: s.
Proof.
  induction s as [|q s IH]; simpl; [done|].
  destruct (ltb p.1 q.1); [|done].
  rewrite IH. apply Permutation_swap.
Qed.

Lemma foldr_insert_desc_perm (ltb : F -> F -> bool) (ps : list (F * nat)) :
  foldr (insert_desc ltb) [] ps ≡ₚ ps.
Proof.
  induction ps as [|p ps IH]; simpl; [done|].
  by rewrite insert_desc_perm, IH.
Qed.

Lemma indexed_snd (row : list F) :
  (imap (fun i x => (x, i)) row).*2 = seq 0 (length row).
Proof.
  apply list_eq. intros i.
  rewrite list_lookup_fmap, list_lookup_imap.
  destruct (row !! i) as [x|] eqn:E; simpl.
  - apply lookup_lt_Some in E. by rewrite lookup_seq_lt.
  - apply lookup_ge_None in E. symmetry. apply lookup_ge_None.
    by rewrite length_seq.
Qed.

(** [topk] on a row of at least [k] entries gives [k] distinct positions
    of the row; on a shorter row it raises. *)
Lemma topk_row_spec (ltb : F -> F -> bool) (k : nat) (row : list F) :
  ((length row < k)%nat -> topk_row ltb k row = Raise RuntimeError)
  /\ ((k <= length row)%nat ->
      exists i, topk_row ltb k row = Ok i /\ length i = k /\ NoDup i
                /\ Forall (fun j => (j < length row)%nat) i).
Proof.
  unfold topk_row. split; intros Hk.
  - by replace (length row <? k)%nat with true by (symmetry; apply Nat.ltb_lt; lia).
  - replace (length row <? k)%nat with false by (symmetry; apply Nat.ltb_ge; lia).
    eexists. split; [done|].
    assert (Hperm : (foldr (insert_desc ltb) [] (imap (fun i x => (x, i)) row)).*2
                    ≡ₚ seq 0 (length row))
      by (by rewrite foldr_insert_desc_perm, indexed_snd).
    split; [|split].
    + rewrite length_take, (Permutation_length Hperm), length_seq. lia.
    + eapply sublist_NoDup; [|apply sublist_take].
      rewrite Hperm. apply NoDup_seq.
    + apply Forall_forall. intros j Hj.
      apply subseteq_take in Hj. rewrite Hperm in Hj.
      apply elem_of_seq in Hj. lia.
Qed.

End topk.

Lemma mypop_from_ok (label : list Z) (i : list nat) (acc : Z) :
  Forall (fun j => (j < length label)%nat) i ->
  exists s, mypop_from label i acc = Ok s.
Proof.
  intros H. revert acc. induction H as [|j i Hj _ IH]; intros acc; simpl; [eauto|].
  destruct (lookup_lt_is_Some_2 label j Hj) as [v Hv].
  rewrite (getitem_nat _ _ _ Hv), bind_Ok. apply IH.
Qed.

Lemma accumulate_ok (label : list Z) (idx : list (list nat)) (pop_label : list Z) :
  Forall (Forall (fun j => (j < length label)%nat)) idx ->
  (accumulate label idx pop_label).1 = Ok ().
Proof.
  intros H. revert pop_label.
  induction H as [|i idx Hi _ IH]; intros pop_label; simpl; [done|].
  destruct (mypop_from_ok label i 0 Hi) as [s Hs].
  unfold mypop. rewrite Hs. apply IH.
Qed.

End Outcomes.

Module ScoringOutcomes.
Import PyFacts TorchFacts SASRecN ScoreFacts AccumulatorFacts Outcomes.

Lemma mapR_Forall {A B} (f : A -> result B) (P : B -> Prop) (l : list A) :
  Forall (fun x => exists y, f x = Ok y /\ P y) l ->
  exists l', mapR f l = Ok l' /\ Forall P l'.
Proof.
  induction 1 as [|x l (y & Hy & Py) _ (l' & Hl' & Pl')]; simpl.
  - exists []. by split.
  - exists (y :: l'). rewrite Hy, bind_Ok, Hl'. split; [done | by constructor].
Qed.

Lemma mapR_embedding_raises {V} (weight : list V) (ids : list nat) :
  Exists (fun i => (length weight <= i)%nat) ids ->
  mapR (embedding weight) ids = Raise IndexError.
Proof.
  induction ids as [|i ids IH]; intros H; [by apply Exists_nil in H|].
  cbn [mapR]. destruct (embedding weight i) as [e | err] eqn:E.
  - rewrite bind_Ok. unfold embedding in E.
    destruct (weight !! i) as [e'|] eqn:E'; [|discriminate].
    apply Exists_cons in H as [H | H].
    + apply lookup_lt_Some in E'. lia.
    + by rewrite IH.
  - unfold embedding in E. destruct (weight !! i); [discriminate|].
    by injection E as <-.
Qed.

Section outcomes.
Context {F V : Type} `{!Kernel F V}.

(** For a batch that does not hold exactly one query,
    [full_sort_predict] raises [RuntimeError] and leaves the instance as
    it was when the catalogue has fewer than ten items; with ten items or
    more and a label for every item it returns the scores and appends one
    sum per query, each over ten distinct catalogue items. *)
Theorem full_sort_predict_needs_ten_items (self : t F V)
  (interaction : list (row V)) :
  length interaction <> 1%nat ->
  ((length (item_embedding self) < 10)%nat ->
     full_sort_predict self interaction = (Raise RuntimeError, self))
  /\ ((10 <= length (item_embedding self))%nat ->
      (length (item_embedding self) <= length (label self))%nat ->
      exists scores idx sums,
        full_sort_predict self interaction
          = (Ok scores, set_pop_label self (pop_label self ++ sums))
        /\ full_sort_scores self interaction = Ok scores
        /\ topk_indices fltb 10 scores = Ok idx
        /\ Forall (fun i => length i = 10%nat /\ NoDup i
                     /\ Forall (fun j => (j < length (item_embedding self))%nat) i)
                  idx
        /\ mapR (mypop (label self)) idx = Ok sums
        /\ length sums = length interaction).
Proof.
  intros Hb. pose proof (full_sort_scores_spec self interaction Hb) as Hsc.
  split.
  - intros Hn. unfold full_sort_predict. rewrite Hsc. simpl.
    by replace (length (item_embedding self) <? 10)%nat with true
      by (symmetry; apply Nat.ltb_lt; lia).
  - intros Hn Hlab. unfold full_sort_predict. rewrite Hsc.
    set (rows := (fun r : row V => _) <$> interaction) in *.
    assert (Hrows : Forall (fun x : list F => exists i,
                      topk_row fltb 10 x = Ok i
                      /\ (length i = 10%nat /\ NoDup i
                          /\ Forall (fun j => (j < length (item_embedding self))%nat) i))
                      rows).
    { unfold rows. apply Forall_fmap, Forall_forall. intros r _. simpl.
      destruct (topk_row_spec fltb 10
                  ((fun e => adjusted (c self) (dot (seq_output r) e)
                                      (user_of self (seq_output r)) (item_of self e))
                     <$> item_embedding self)) as [_ Hok].
      rewrite length_fmap in Hok. destruct (Hok Hn) as (i & Hi & Hprops).
      exists i. by split. }
    destruct (mapR_Forall _ _ _ Hrows) as (idx & Hidx & Hprops).
    assert (Htopk : topk_indices fltb 10 (T2 (length (item_embedding self)) rows)
                    = Ok idx).
    { simpl. by replace (length (item_embedding self) <? 10)%nat with false
        by (symmetry; apply Nat.ltb_ge; lia). }
    rewrite Htopk.
    destruct (accumulate_spec (label self) idx (pop_label self))
      as (sums & Hadd & Hok).
    assert (Hacc : (accumulate (label self) idx (pop_label self)).1 = Ok ()).
    { apply accumulate_ok. eapply Forall_impl; [exact Hprops|]. simpl.
      intros i (_ & _ & Hi). eapply Forall_impl; [exact Hi|]. simpl. lia. }
    destruct (accumulate (label self) idx (pop_label self)) as [r pl].
    simpl in Hadd, Hok, Hacc. subst r pl.
    exists (T2 (length (item_embedding self)) rows), idx, sums.
    split; [done|]. split; [done|]. split; [done|]. split; [done|].
    split; [by apply Hok|].
    rewrite (mapR_length _ _ _ (Hok eq_refl)), (mapR_length _ _ _ Hidx).
    unfold rows. by rewrite length_fmap.
Qed.

(** For a batch that does not hold exactly one query, [predict] raises
    [IndexError] when a target item lies outside the catalogue, and
    otherwise returns a square matrix with one row and one column per
    query whose entry [q, j] is built from the raw score of query [j]
    against its own target and the user score of query [q]. *)
Theorem predict_outcomes (self : t F V) (interaction : list (row V)) :
  length interaction <> 1%nat ->
  (Exists (fun r => (length (item_embedding self) <= item_id r)%nat) interaction ->
     predict self interaction = Raise IndexError)
  /\ (forall embs,
        mapR (embedding (item_embedding self)) (item_id <$> interaction) = Ok embs ->
        predict self interaction =
          Ok (T2 (length interaction)
                ((fun rq =>
                    zip_with (fun raw i => adjusted (c self) raw
                                             (sigmoid (fc_user self (seq_output rq))) i)
                             (zip_with mulsum (seq_output <$> interaction) embs)
                             ((fun e => sigmoid (fc_item self e)) <$> embs))
                   <$> interaction))).
Proof.
  intros Hb. split.
  - intros Hex. unfold predict.
    rewrite mapR_embedding_raises; [done|].
    apply Exists_fmap. exact Hex.
  - intros embs Hemb. by apply predict_spec.
Qed.

End outcomes.

Section one_query.
Context {F V : Type} `{!Kernel F V} `{!Losses F}.

(** A batch of exactly one query is fatal for every path that debiases:
    [predict], [full_sort_predict] (which leaves the instance as it was)
    and [calculate_loss] outside BPR all raise [IndexError]. *)
Theorem one_query_batch_raises (self : t F V) (r : row V) :
  predict self [r] = Raise IndexError
  /\ full_sort_predict self [r] = (Raise IndexError, self)
  /\ (String.eqb (loss_type self) "BPR" = false ->
      calculate_loss self [r] = Raise IndexError).
Proof.
  split; [|split].
  - unfold predict. simpl. unfold embedding.
    by destruct (item_embedding self !! item_id r).
  - unfold full_sort_predict. by rewrite full_sort_scores_single.
  - intros Hce. unfold calculate_loss. by rewrite Hce.
Qed.

End one_query.

Lemma full_sort_predict_needs_ten_items_witness :
  ((length (item_embedding IntKernel.model) < 10)%nat ->
     full_sort_predict IntKernel.model IntKernel.batch
     = (Raise RuntimeError, IntKernel.model))
  /\ ((10 <= length (item_embedding IntKernel.model))%nat ->
      (length (item_embedding IntKernel.model) <= length (label IntKernel.model))%nat ->
      exists scores idx sums,
        full_sort_predict IntKernel.model IntKernel.batch
          = (Ok scores,
             set_pop_label IntKernel.model (pop_label IntKernel.model ++ sums))
        /\ full_sort_scores IntKernel.model IntKernel.batch = Ok scores
        /\ topk_indices Z.ltb 10 scores = Ok idx
        /\ Forall (fun i => length i = 10%nat /\ NoDup i
                     /\ Forall (fun j => (j < length (item_embedding IntKernel.model))%nat)
                               i) idx
        /\ mapR (mypop (label IntKernel.model)) idx = Ok sums
        /\ length sums = length IntKernel.batch).
Proof.
  refine (full_sort_predict_needs_ten_items IntKernel.model IntKernel.batch _).
  simpl. lia.
Defined.

Lemma predict_outcomes_witness :
  (Exists (fun r => (length (item_embedding IntKernel.model) <= item_id r)%nat)
          IntKernel.batch ->
     predict IntKernel.model IntKernel.batch = Raise IndexError)
  /\ (forall embs,
        mapR (embedding (item_embedding IntKernel.model))
             (item_id <$> IntKernel.batch) = Ok embs ->
        predict IntKernel.model IntKernel.batch =
          Ok (T2 (length IntKernel.batch)
                ((fun rq =>
                    zip_with (fun raw i => adjusted (c IntKernel.model) raw
                                (sigmoid (fc_user IntKernel.model (seq_output rq))) i)
                             (zip_with mulsum (seq_output <$> IntKernel.batch) embs)
                             ((fun e => sigmoid (fc_item IntKernel.model e)) <$> embs))
                   <$> IntKernel.batch))).
Proof.
  refine (predict_outcomes IntKernel.model IntKernel.batch _).
  simpl. lia.
Defined.

End ScoringOutcomes.

(** ** The popularity diagnostic of the base class *)

Module DiagnosticFacts.
Import PyFacts TorchFacts SASRecN ScoreFacts AccumulatorFacts Outcomes.

(** Starting from an empty accumulator, [SASRecN.full_sort_predict]
    followed by [SASRecN.cal_curr_pop] prints what the base class's
    [cal_curr_pop(scores)] prints for the returned scores, or raises what
    it raises. *)
Theorem sasrecn_diagnostic_matches_base {F V : Type} `{!Kernel F V}
  (self self' : t F V) (interaction : list (row V)) (scores : tensor F) :
  pop_label self = [] ->
  full_sort_predict self interaction = (Ok scores, self') ->
  SASRecN.cal_curr_pop self' =
    PopularityDiagnostic.cal_curr_pop fltb (label self) scores.
Proof.
  intros Hempty Hcall. unfold full_sort_predict in Hcall.
  destruct (full_sort_scores self interaction) as [sc | e]; [|discriminate].
  destruct (topk_indices fltb 10 sc) as [idx | e] eqn:Hidx; [|discriminate].
  rewrite Hempty in Hcall.
  destruct (accumulate (label self) idx []) as [r pl] eqn:Hacc.
  destruct r as [[] | e]; [|discriminate].
  injection Hcall as <- <-.
  unfold PopularityDiagnostic.cal_curr_pop. rewrite Hidx, bind_Ok, Hacc.
  reflexivity.
Qed.

Lemma sasrecn_diagnostic_matches_base_witness :
  SASRecN.cal_curr_pop (set_pop_label IntKernel.model [45; 45]) =
  PopularityDiagnostic.cal_curr_pop Z.ltb (label IntKernel.model)
    (T2 10 [[0; 0; 2; 6; 12; 20; 30; 42; 56; 72];
            [0; 2; 12; 30; 56; 90; 132; 182; 240; 306]]).
Proof.
  refine (sasrecn_diagnostic_matches_base
            IntKernel.model (set_pop_label IntKernel.model [45; 45]) IntKernel.batch
            (T2 10 [[0; 0; 2; 6; 12; 20; 30; 42; 56; 72];
                    [0; 2; 12; 30; 56; 90; 132; 182; 240; 306]]) _ _).
  - reflexivity.
  - vm_compute. reflexivity.
Defined.

(** The base class's [cal_curr_pop(scores)] on a score matrix with at
    least ten columns and a label for every column: with no row it raises
    [ZeroDivisionError]; otherwise it returns, and the count it prints is
    the number of rows.  With fewer than ten columns it raises
    [RuntimeError]. *)
Theorem base_diagnostic_outcomes {F : Type} (ltb : F -> F -> bool)
  (label : list Z) (cols : nat) (rows : list (list F)) :
  Forall (fun r => length r = cols) rows ->
  ((cols < 10)%nat ->
     PopularityDiagnostic.cal_curr_pop ltb label (T2 cols rows) = Raise RuntimeError)
  /\ ((10 <= cols)%nat -> (cols <= length label)%nat ->
      (rows = [] ->
         PopularityDiagnostic.cal_curr_pop ltb label (T2 cols rows)
         = Raise ZeroDivisionError)
      /\ (rows <> [] ->
          exists pop m,
            PopularityDiagnostic.cal_curr_pop ltb label (T2 cols rows)
            = Ok (pop, m, length rows))).
Proof.
  intros Hwf. split.
  - intros Hc. unfold PopularityDiagnostic.cal_curr_pop. simpl.
    by replace (cols <? 10)%nat with true by (symmetry; apply Nat.ltb_lt; lia).
  - intros Hc Hlab. split.
    + intros ->. unfold PopularityDiagnostic.cal_curr_pop. simpl.
      by replace (cols <? 10)%nat with false by (symmetry; apply Nat.ltb_ge; lia).
    + intros Hne. unfold PopularityDiagnostic.cal_curr_pop.
      assert (Hrows : Forall (fun x : list F => exists i,
                        topk_row ltb 10 x = Ok i
                        /\ Forall (fun j => (j < length label)%nat) i) rows).
      { eapply Forall_impl; [exact Hwf|]. simpl. intros r Hr.
        destruct (topk_row_spec ltb 10 r) as [_ Hok].
        destruct (Hok ltac:(lia)) as (i & Hi & _ & _ & Hlt).
        exists i. split; [done|].
        eapply Forall_impl; [exact Hlt|]. simpl. lia. }
      destruct (ScoringOutcomes.mapR_Forall _ _ _ Hrows) as (idx & Hidx & Hprops).
      assert (Htopk : topk_indices ltb 10 (T2 cols rows) = Ok idx).
      { simpl. by replace (cols <? 10)%nat with false
          by (symmetry; apply Nat.ltb_ge; lia). }
      rewrite Htopk, bind_Ok.
      destruct (accumulate_spec label idx []) as (sums & Hadd & Hok).
      pose proof (accumulate_ok label idx [] Hprops) as Hacc.
      destruct (accumulate label idx []) as [r pl].
      simpl in Hadd, Hok, Hacc. subst r pl. rewrite bind_Ok.
      pose proof (mapR_length _ _ _ (Hok eq_refl)) as Hl1.
      pose proof (mapR_length _ _ _ Hidx) as Hl2.
      assert (Hlen : length sums = length rows) by lia.
      rewrite Hlen.
      destruct rows as [|r0 rows]; [done|]. simpl.
      destruct label as [|l0 label].
      { simpl in Hlab. lia. }
      simpl. eauto.
Qed.

Lemma base_diagnostic_outcomes_witness :
  ((10 < 10)%nat ->
     PopularityDiagnostic.cal_curr_pop Z.ltb [0; 1; 2; 3; 4; 5; 6; 7; 8; 9]
       (T2 10 [[0; 0; 2; 6; 12; 20; 30; 42; 56; 72]]) = Raise RuntimeError)
  /\ ((10 <= 10)%nat -> (10 <= length [0; 1; 2; 3; 4; 5; 6; 7; 8; 9])%nat ->
      ([[0; 0; 2; 6; 12; 20; 30; 42; 56; 72]] = [] ->
         PopularityDiagnostic.cal_curr_pop Z.ltb [0; 1; 2; 3; 4; 5; 6; 7; 8; 9]
           (T2 10 [[0; 0; 2; 6; 12; 20; 30; 42; 56; 72]]) = Raise ZeroDivisionError)
      /\ ([[0; 0; 2; 6; 12; 20; 30; 42; 56; 72]] <> [] ->
          exists pop m,
            PopularityDiagnostic.cal_curr_pop Z.ltb [0; 1; 2; 3; 4; 5; 6; 7; 8; 9]
              (T2 10 [[0; 0; 2; 6; 12; 20; 30; 42; 56; 72]])
            = Ok (pop, m, length [[0; 0; 2; 6; 12; 20; 30; 42; 56; 72]]))).
Proof.
  refine (base_diagnostic_outcomes Z.ltb [0; 1; 2; 3; 4; 5; 6; 7; 8; 9] 10
            [[0; 0; 2; 6; 12; 20; 30; 42; 56; 72]] _).
  repeat constructor.
Defined.

End DiagnosticFacts.

(** ** The field lists of [ContextRecommender] *)

Module ContextFacts.
Import ContextRecommender.

Lemma obind_return {A B} (m : outcome A) (f : A -> outcome B) (b : B) :
  m ≫= f = Return b -> exists a, m = Return a /\ f a = Return b.
Proof. destruct m as [a|e]; simpl; [eauto | discriminate]. Qed.

Lemma obind_throw {A B} (m : outcome A) (f : A -> outcome B) (e : exn) :
  m ≫= f = Throw e -> m = Throw e \/ exists a, m = Return a /\ f a = Throw e.
Proof. destruct m as [a|e']; simpl; [eauto | intros [= ->]; by left]. Qed.

Lemma type_of_return (d : dataset) (f : string) (ty : FeatureType) :
  type_of d f = Return ty <-> field2type d !! f = Some ty.
Proof.
  unfold type_of. destruct (field2type d !! f); split; intros H; by simplify_eq.
Qed.

Lemma type_of_throw (d : dataset) (f : string) (e : exn) :
  type_of d f = Throw e -> e = KeyError f /\ field2type d !! f = None.
Proof.
  unfold type_of. destruct (field2type d !! f); intros H; by simplify_eq.
Qed.

(** The kinds are exclusive and cover every typed field. *)
Lemma kind_cases (d : dataset) (f : string) (ty : FeatureType) :
  field2type d !! f = Some ty ->
  match ty with
  | TOKEN => is_token d f /\ ~ is_token_seq d f /\ ~ is_float d f
  | TOKEN_SEQ => ~ is_token d f /\ is_token_seq d f /\ ~ is_float d f
  | _ => ~ is_token d f /\ ~ is_token_seq d f /\ is_float d f
  end.
Proof.
  unfold is_token, is_token_seq, is_float. intros ->.
  destruct ty; intuition congruence.
Qed.

(** What the main loop has appended once it returns. *)
Lemma classify_return (d : dataset) (L : string) (names : list string)
  (st st' : lists) :
  classify d L names st = Return st' ->
  token_field_names st' =
    token_field_names st ++ filter (fun f => f <> L /\ is_token d f) names
  /\ float_field_names st' =
    float_field_names st ++ filter (fun f => f <> L /\ is_float d f) names
  /\ token_seq_field_names st' =
    token_seq_field_names st ++ filter (fun f => f <> L /\ is_token_seq d f) names
  /\ token_field_dims st' =
    token_field_dims st ++ (num d <$> filter (fun f => f <> L /\ is_token d f) names)
  /\ float_field_dims st' =
    float_field_dims st ++ (num d <$> filter (fun f => f <> L /\ is_float d f) names)
  /\ token_seq_field_dims st' =
    token_seq_field_dims st
      ++ (num d <$> filter (fun f => f <> L /\ is_token_seq d f) names)
  /\ num_feature_field st' =
    num_feature_field st + Z.of_nat (length (filter (fun f => f <> L) names))
  /\ Forall (fun f => f = L \/ is_Some (field2type d !! f)) names.
Proof.
  revert st. induction names as [|f names IH]; intros st; simpl.
  - intros [= <-]. rewrite !app_nil_r, Z.add_0_r. by repeat split.
  - destruct (String.eqb f L) eqn:E.
    + apply String.eqb_eq in E. subst f. intros H.
      destruct (IH _ H) as (H1 & H2 & H3 & H4 & H5 & H6 & H7 & H8).
      rewrite !(filter_cons_False _ L) by intuition.
      repeat split; try done. constructor; [by left | done].
    + apply String.eqb_neq in E.
      intros (ty & Hty & H)%obind_return.
      apply type_of_return in Hty. pose proof (kind_cases _ _ _ Hty) as Hk.
      destruct (IH _ H) as (H1 & H2 & H3 & H4 & H5 & H6 & H7 & H8).
      rewrite (filter_cons_True (fun f => f <> L) f) by done.
      assert (Hsome : Forall (fun f => f = L \/ is_Some (field2type d !! f))
                             (f :: names))
        by (constructor; [right; by rewrite Hty | done]).
      destruct ty; destruct Hk as (Ht & Hs & Hf); simpl in *;
        rewrite ?(filter_cons_True (fun f => f <> L /\ is_token d f) f) by done;
        rewrite ?(filter_cons_False (fun f => f <> L /\ is_token d f) f)
          by tauto;
        rewrite ?(filter_cons_True (fun f => f <> L /\ is_token_seq d f) f) by done;
        rewrite ?(filter_cons_False (fun f => f <> L /\ is_token_seq d f) f)
          by tauto;
        rewrite ?(filter_cons_True (fun f => f <> L /\ is_float d f) f) by done;
        rewrite ?(filter_cons_False (fun f => f <> L /\ is_float d f) f)
          by tauto;
        rewrite H1, H2, H3, H4, H5, H6, H7; csimpl;
        rewrite <- ?app_assoc; simpl;
        repeat split; try done; lia.
Qed.

Lemma classify_total (d : dataset) (L : string) (names : list string) (st : lists) :
  Forall (fun f => f = L \/ is_Some (field2type d !! f)) names ->
  exists st', classify d L names st = Return st'.
Proof.
  intros H. revert st. induction H as [|f names Hf _ IH]; intros st; simpl; [eauto|].
  destruct (String.eqb f L) eqn:E; [apply IH|].
  apply String.eqb_neq in E. destruct Hf as [-> | [ty Hty]]; [done|].
  unfold type_of. rewrite Hty. simpl. apply IH.
Qed.

Lemma classify_throw (d : dataset) (L : string) (names : list string)
  (st : lists) (e : exn) :
  classify d L names st = Throw e ->
  exists f, e = KeyError f /\ f ∈ names /\ f <> L /\ field2type d !! f = None.
Proof.
  revert st. induction names as [|f names IH]; intros st; simpl; [discriminate|].
  destruct (String.eqb f L) eqn:E.
  - intros (g & ? & ? & ? & ?)%IH. exists g. set_solver.
  - apply String.eqb_neq in E.
    intros [Hthrow | (ty & _ & Hrest)]%obind_throw.
    + apply type_of_throw in Hthrow as [-> Hnone]. exists f. set_solver.
    + apply IH in Hrest as (g & ? & ? & ? & ?). exists g. set_solver.
Qed.

(** What the counting loop of one tower returns. *)
Lemma count_tower_return (d : dataset) (names : list string) (acc acc' : tower) :
  count_tower d names acc = Return acc' ->
  token_field_num acc' =
    token_field_num acc + Z.of_nat (length (filter (is_token d) names))
  /\ token_seq_field_num acc' =
    token_seq_field_num acc + Z.of_nat (length (filter (is_token_seq d) names))
  /\ float_field_num acc' =
    float_field_num acc + foldr Z.add 0 (num d <$> filter (is_float d) names)
  /\ Forall (fun f => is_Some (field2type d !! f)) names.
Proof.
  revert acc. induction names as [|f names IH]; intros acc; simpl.
  - intros [= <-]. rewrite !Z.add_0_r. by repeat split.
  - intros (ty & Hty & H)%obind_return.
    apply type_of_return in Hty. pose proof (kind_cases _ _ _ Hty) as Hk.
    destruct (IH _ H) as (H1 & H2 & H3 & H4).
    assert (Hsome : Forall (fun f => is_Some (field2type d !! f)) (f :: names))
      by (constructor; [by rewrite Hty | done]).
    destruct ty; destruct Hk as (Ht & Hs & Hf); simpl in *;
      rewrite ?(filter_cons_True (is_token d) f) by done;
      rewrite ?(filter_cons_False (is_token d) f) by done;
      rewrite ?(filter_cons_True (is_token_seq d) f) by done;
      rewrite ?(filter_cons_False (is_token_seq d) f) by done;
      rewrite ?(filter_cons_True (is_float d) f) by done;
      rewrite ?(filter_cons_False (is_float d) f) by done;
      rewrite H1, H2, H3; csimpl;
      repeat split; try done; lia.
Qed.

Lemma count_tower_total (d : dataset) (names : list string) (acc : tower) :
  Forall (fun f => is_Some (field2type d !! f)) names ->
  exists acc', count_tower d names acc = Return acc'.
Proof.
  intros H. revert acc. induction H as [|f names [ty Hty] _ IH]; intros acc;
    simpl; [eauto|].
  unfold type_of. rewrite Hty. simpl. apply IH.
Qed.

Lemma count_tower_throw (d : dataset) (names : list string) (acc : tower) (e : exn) :
  count_tower d names acc = Throw e ->
  exists f, e = KeyError f /\ f ∈ names /\ field2type d !! f = None.
Proof.
  revert acc. induction names as [|f names IH]; intros acc; simpl; [discriminate|].
  intros [Hthrow | (ty & _ & Hrest)]%obind_throw.
  - apply type_of_throw in Hthrow as [-> Hnone]. exists f. set_solver.
  - apply IH in Hrest as (g & ? & ? & ?). exists g. set_solver.
Qed.

End ContextFacts.

Module ContextFields.
Import ContextRecommender ContextFacts.

Lemma kinds_partition (d : dataset) (L : string) (names : list string) :
  Forall (fun f => f = L \/ is_Some (field2type d !! f)) names ->
  length (filter (fun f => f <> L) names) =
    (length (filter (fun f => f <> L /\ is_token d f) names)
     + length (filter (fun f => f <> L /\ is_float d f) names)
     + length (filter (fun f => f <> L /\ is_token_seq d f) names))%nat.
Proof.
  induction 1 as [|f names Hf _ IH]; [done|].
  destruct (decide (f = L)) as [-> | Hne].
  - by rewrite !(filter_cons_False _ L) by intuition.
  - destruct Hf as [-> | [ty Hty]]; [done|].
    pose proof (kind_cases _ _ _ Hty) as Hk.
    rewrite (filter_cons_True (fun f => f <> L) f) by done.
    destruct ty; destruct Hk as (Ht & Hs & Hfl);
      rewrite ?(filter_cons_True (fun f => f <> L /\ is_token d f) f) by done;
      rewrite ?(filter_cons_False (fun f => f <> L /\ is_token d f) f) by tauto;
      rewrite ?(filter_cons_True (fun f => f <> L /\ is_token_seq d f) f) by done;
      rewrite ?(filter_cons_False (fun f => f <> L /\ is_token_seq d f) f) by tauto;
      rewrite ?(filter_cons_True (fun f => f <> L /\ is_float d f) f) by done;
      rewrite ?(filter_cons_False (fun f => f <> L /\ is_float d f) f) by tauto;
      simpl; lia.
Qed.

(** What [init] returns, spelled out. *)
Lemma init_return (cfg : config) (d : dataset) (self : t) :
  init cfg d = Return self ->
  LABEL self = LABEL_FIELD cfg
  /\ double_tower self = match double_tower_flag cfg with
                         | None => false
                         | Some b => b
                         end
  /\ (if double_tower self
      then exists u i,
          count_tower d (fields d [USER; USER_ID]) (mk_tower 0 0 0) = Return u
          /\ count_tower d (fields d [ITEM; ITEM_ID]) (mk_tower 0 0 0) = Return i
          /\ tower_attrs self =
               Some (mk_towers (fields d [USER; USER_ID]) (fields d [ITEM; ITEM_ID]) u i)
          /\ field_names self = fields d [USER; USER_ID] ++ fields d [ITEM; ITEM_ID]
      else tower_attrs self = None
           /\ field_names self = fields d [INTERACTION; USER; USER_ID; ITEM; ITEM_ID])
  /\ classify d (LABEL self) (field_names self) (mk_lists [] [] [] [] [] [] 0)
     = Return (field_lists self)
  /\ token_field_offsets self =
       if (0 <? length (token_field_dims (field_lists self)))%nat
       then Some (offsets_of (token_field_dims (field_lists self))) else None.
Proof.
  unfold init.
  destruct (match double_tower_flag cfg with None => false | Some b => b end) eqn:Hdt.
  - intros ([tw names] & Hpre & Hrest)%obind_return.
    apply obind_return in Hpre as (u & Hu & Hpre).
    apply obind_return in Hpre as (i & Hi & Hpre).
    injection Hpre as <- <-.
    apply obind_return in Hrest as (l & Hl & Hrest).
    injection Hrest as <-. simpl. repeat split; try done. eauto 10.
  - intros ([tw names] & Hpre & Hrest)%obind_return.
    injection Hpre as <- <-.
    apply obind_return in Hrest as (l & Hl & Hrest).
    injection Hrest as <-. simpl. by repeat split.
Qed.

Lemma num_feature_field_counts (cfg : config) (d : dataset) (self : t) :
  init cfg d = Return self ->
  num_feature_field (field_lists self) =
    Z.of_nat (length (token_field_names (field_lists self))
              + length (float_field_names (field_lists self))
              + length (token_seq_field_names (field_lists self))).
Proof.
  intros (_ & _ & _ & Hcl & _)%init_return.
  destruct (classify_return _ _ _ _ _ Hcl) as (H1 & H2 & H3 & _ & _ & _ & H7 & H8).
  simpl in *. by rewrite H1, H2, H3, H7, (kinds_partition _ _ _ H8).
Qed.

(** Construction sorts every field other than the label field into
    exactly one of the three lists, in the order of [field_names], with
    its [dataset.num] at the same position of the list of dimensions; a
    field whose type is neither TOKEN nor TOKEN_SEQ counts as a float
    field; [num_feature_field] is the number of sorted fields. *)
Theorem init_sorts_every_field (cfg : config) (d : dataset) (self : t) :
  init cfg d = Return self ->
  let l := field_lists self in
  token_field_names l =
    filter (fun f => f <> LABEL self /\ is_token d f) (field_names self)
  /\ float_field_names l =
       filter (fun f => f <> LABEL self /\ is_float d f) (field_names self)
  /\ token_seq_field_names l =
       filter (fun f => f <> LABEL self /\ is_token_seq d f) (field_names self)
  /\ token_field_dims l = num d <$> token_field_names l
  /\ float_field_dims l = num d <$> float_field_names l
  /\ token_seq_field_dims l = num d <$> token_seq_field_names l
  /\ num_feature_field l =
       Z.of_nat (length (filter (fun f => f <> LABEL self) (field_names self)))
  /\ num_feature_field l =
       Z.of_nat (length (token_field_names l) + length (float_field_names l)
                 + length (token_seq_field_names l)).
Proof.
  intros (_ & _ & _ & Hcl & _)%init_return.
  destruct (classify_return _ _ _ _ _ Hcl) as (H1 & H2 & H3 & H4 & H5 & H6 & H7 & H8).
  simpl in *. rewrite H1, H2, H3, H4, H5, H6, H7.
  repeat split; try done.
  by rewrite (kinds_partition _ _ _ H8).
Qed.

Lemma init_sorts_every_field_witness :
  exists self,
    init ContextExample.single ContextExample.d = Return self
    /\ token_field_names (field_lists self) = ["user_id"; "item_id"]%string
    /\ float_field_names (field_lists self) = ["age"]%string
    /\ token_seq_field_names (field_lists self) = ["tags"]%string
    /\ token_field_dims (field_lists self) = [7; 7]
    /\ num_feature_field (field_lists self) = 4.
Proof.
  destruct (init ContextExample.single ContextExample.d) as [self|e] eqn:E;
    [|vm_compute in E; discriminate].
  exists self. split; [done|].
  destruct (init_sorts_every_field _ _ _ E) as (H1 & H2 & H3 & H4 & H5 & H6 & H7 & H8).
  assert (field_names self = ["label"; "user_id"; "age"; "item_id"; "tags"]%string
          /\ LABEL self = "label"%string) as [Hn HL]
    by (vm_compute in E; by injection E as <-).
  rewrite Hn, HL in H1, H2, H3, H7.
  rewrite H4, H7, H1, H2, H3. by vm_compute.
Defined.

(** The field bookkeeping of the constructor can fail in one way only:
    [KeyError] for a listed field that [dataset.field2type] does not
    hold.  When every listed field has a type, the bookkeeping
    completes. *)
Theorem init_raises_key_error_only (cfg : config) (d : dataset) :
  (forall e, init cfg d = Throw e ->
     exists f, e = KeyError f /\ field2type d !! f = None)
  /\ (Forall (fun f => is_Some (field2type d !! f))
             (fields d [INTERACTION; USER; USER_ID; ITEM; ITEM_ID]
              ++ fields d [USER; USER_ID] ++ fields d [ITEM; ITEM_ID]) ->
      exists self, init cfg d = Return self).
Proof.
  split.
  - intros e. unfold init.
    destruct (match double_tower_flag cfg with None => false | Some b => b end).
    + intros [Hpre | ([tw names] & Hpre & Hrest)]%obind_throw.
      * apply obind_throw in Hpre as [Hu | (u & Hu & Hpre)].
        { apply count_tower_throw in Hu as (f & ? & ? & ?). eauto. }
        apply obind_throw in Hpre as [Hi | (i & Hi & Hpre)]; [|discriminate].
        apply count_tower_throw in Hi as (f & ? & ? & ?). eauto.
      * apply obind_throw in Hrest as [Hl | (l & _ & Hrest)]; [|discriminate].
        apply classify_throw in Hl as (f & ? & ? & ? & ?). eauto.
    + intros [Hpre | ([tw names] & Hpre & Hrest)]%obind_throw; [discriminate|].
      apply obind_throw in Hrest as [Hl | (l & _ & Hrest)]; [|discriminate].
      apply classify_throw in Hl as (f & ? & ? & ? & ?). eauto.
  - intros Hall. apply Forall_app in Hall as [Hall Hui].
    pose proof Hui as Hui'. apply Forall_app in Hui' as [Hu Hi].
    unfold init.
    destruct (match double_tower_flag cfg with None => false | Some b => b end).
    + destruct (count_tower_total d _ (mk_tower 0 0 0) Hu) as [u ->].
      destruct (count_tower_total d _ (mk_tower 0 0 0) Hi) as [i ->]. simpl.
      assert (Forall (fun f => f = LABEL_FIELD cfg \/ is_Some (field2type d !! f))
                (fields d [USER; USER_ID] ++ fields d [ITEM; ITEM_ID])) as Hcl
        by (eapply Forall_impl; [exact Hui | simpl; auto]).
      destruct (classify_total d _ _ (mk_lists [] [] [] [] [] [] 0) Hcl) as [l ->].
      simpl. eauto.
    + simpl.
      assert (Forall (fun f => f = LABEL_FIELD cfg \/ is_Some (field2type d !! f))
                (fields d [INTERACTION; USER; USER_ID; ITEM; ITEM_ID])) as Hcl
        by (eapply Forall_impl; [exact Hall | simpl; auto]).
      destruct (classify_total d _ _ (mk_lists [] [] [] [] [] [] 0) Hcl) as [l ->].
      simpl. eauto.
Qed.

End ContextFields.

Module ContextOffsets.
Import ContextRecommender ContextFacts ContextFields.

Lemma offsets_of_prefix_sums (acc : Z) (dims : list Z) :
  dims <> [] ->
  acc :: removelast (cumsum_from acc dims) =
    (fun k => acc + foldr Z.add 0 (take k dims)) <$> seq 0 (length dims).
Proof.
  revert acc. induction dims as [|x dims IH]; intros acc Hne; [done|].
  destruct dims as [|y dims].
  - simpl. by rewrite Z.add_0_r.
  - change (cumsum_from acc (x :: y :: dims))
      with ((acc + x) :: cumsum_from (acc + x) (y :: dims)).
    change (removelast ((acc + x) :: cumsum_from (acc + x) (y :: dims)))
      with ((acc + x) :: removelast (cumsum_from (acc + x) (y :: dims))).
    rewrite IH by done.
    change (seq 0 (length (x :: y :: dims)))
      with (0%nat :: seq 1 (length (y :: dims))).
    rewrite fmap_cons, <- fmap_S_seq, <- list_fmap_compose.
    f_equal; [simpl; lia|].
    apply list_fmap_ext. intros _ k _. simpl. lia.
Qed.

Lemma filter_not_label (L : string) (P : string -> Prop)
  `{!forall f, Decision (P f)} (names : list string) :
  L ∉ names ->
  filter (fun f => f <> L /\ P f) names = filter P names.
Proof.
  induction names as [|f names IH]; [done|].
  intros [Hne Hnot]%not_elem_of_cons.
  destruct (decide (P f)) as [HP | HP].
  - rewrite !filter_cons_True by auto. by rewrite IH.
  - rewrite !filter_cons_False by tauto. by rewrite IH.
Qed.

Lemma foldr_add_app (xs ys : list Z) :
  foldr Z.add 0 (xs ++ ys) = foldr Z.add 0 xs + foldr Z.add 0 ys.
Proof. induction xs as [|x xs IH]; simpl; lia. Qed.

(** [token_field_offsets] is assigned exactly when there is a token
    field; it then has one entry per token field, and the entry of the
    k-th token field is the sum of [dataset.num] over the token fields
    before it, so that the fields share one table without overlap. *)
Theorem token_field_offsets_are_prefix_sums (cfg : config) (d : dataset) (self : t) :
  init cfg d = Return self ->
  let names := token_field_names (field_lists self) in
  match token_field_offsets self with
  | None => names = []
  | Some offsets =>
      names <> []
      /\ length offsets = length names
      /\ forall k, (k < length names)%nat ->
           offsets !! k = Some (foldr Z.add 0 (num d <$> take k names))
  end.
Proof.
  intros Hinit.
  destruct (init_return _ _ _ Hinit) as (_ & _ & _ & Hcl & Hoff).
  destruct (classify_return _ _ _ _ _ Hcl) as (_ & _ & _ & H4 & _).
  destruct (classify_return _ _ _ _ _ Hcl) as (H1 & _).
  simpl in H1, H4. rewrite <- H1 in H4. clear H1.
  simpl. rewrite Hoff, H4, length_fmap.
  destruct (token_field_names (field_lists self)) as [|f names] eqn:En; [done|].
  unfold offsets_of. rewrite offsets_of_prefix_sums by done.
  change (0 <? S (length names))%nat with true. cbv iota.
  rewrite (length_fmap (num d)).
  repeat split; [done | by rewrite length_fmap, length_seq |].
  intros k Hk. rewrite list_lookup_fmap, lookup_seq_lt by done.
  simpl. by rewrite fmap_take.
Qed.

Lemma token_field_offsets_are_prefix_sums_witness :
  exists self,
    init ContextExample.single ContextExample.d = Return self
    /\ token_field_offsets self = Some [0; 7].
Proof.
  destruct (init ContextExample.single ContextExample.d) as [self|e] eqn:E;
    [|vm_compute in E; discriminate].
  exists self. split; [done|].
  pose proof (token_field_offsets_are_prefix_sums _ _ _ E) as H. simpl in H.
  assert (token_field_names (field_lists self) = ["user_id"; "item_id"]%string) as Hn
    by (vm_compute in E; by injection E as <-).
  rewrite Hn in H.
  destruct (token_field_offsets self) as [offsets|]; [|done].
  destruct H as (_ & Hlen & Hk).
  pose proof (Hk 0%nat ltac:(simpl; lia)) as H0.
  pose proof (Hk 1%nat ltac:(simpl; lia)) as H1.
  destruct offsets as [|a [|b [|? ?]]]; try done.
  vm_compute in H0, H1. by simplify_eq.
Defined.

(** With a double tower, the counters of each tower count that tower's
    fields by kind; the float counter adds up [dataset.num] over the
    tower's float fields.  When the label field is not among the fields of
    the towers, the counters of the two towers add up to the lengths of
    the field lists, and the float counters to the sum of
    [float_field_dims]. *)
Theorem tower_counters_match_the_lists (cfg : config) (d : dataset) (self : t) :
  init cfg d = Return self ->
  double_tower self = true ->
  exists tw,
    tower_attrs self = Some tw
    /\ field_names self = user_field_names tw ++ item_field_names tw
    /\ token_field_num (user tw) =
         Z.of_nat (length (filter (is_token d) (user_field_names tw)))
    /\ token_seq_field_num (user tw) =
         Z.of_nat (length (filter (is_token_seq d) (user_field_names tw)))
    /\ float_field_num (user tw) =
         foldr Z.add 0 (num d <$> filter (is_float d) (user_field_names tw))
    /\ token_field_num (item tw) =
         Z.of_nat (length (filter (is_token d) (item_field_names tw)))
    /\ token_seq_field_num (item tw) =
         Z.of_nat (length (filter (is_token_seq d) (item_field_names tw)))
    /\ float_field_num (item tw) =
         foldr Z.add 0 (num d <$> filter (is_float d) (item_field_names tw))
    /\ (LABEL self ∉ field_names self ->
        let l := field_lists self in
        token_field_num (user tw) + token_field_num (item tw) =
          Z.of_nat (length (token_field_names l))
        /\ token_seq_field_num (user tw) + token_seq_field_num (item tw) =
          Z.of_nat (length (token_seq_field_names l))
        /\ float_field_num (user tw) + float_field_num (item tw) =
          foldr Z.add 0 (float_field_dims l)).
Proof.
  intros Hinit Hdt.
  destruct (init_return _ _ _ Hinit) as (_ & _ & Htw & Hcl & _).
  rewrite Hdt in Htw. destruct Htw as (u & i & Hu & Hi & Htw & Hnames).
  exists (mk_towers (fields d [USER; USER_ID]) (fields d [ITEM; ITEM_ID]) u i).
  destruct (count_tower_return _ _ _ _ Hu) as (U1 & U2 & U3 & _).
  destruct (count_tower_return _ _ _ _ Hi) as (I1 & I2 & I3 & _).
  simpl in *. rewrite U1, U2, U3, I1, I2, I3.
  split_and!; try done.
  intros Hnot.
  destruct (classify_return _ _ _ _ _ Hcl) as (H1 & H2 & H3 & _ & H5 & _).
  simpl in *. rewrite H1, H3, H5, Hnames. rewrite Hnames in Hnot.
  split_and!.
  - rewrite (filter_not_label _ (is_token d)), filter_app, length_app by done. lia.
  - rewrite (filter_not_label _ (is_token_seq d)), filter_app, length_app by done.
    lia.
  - rewrite (filter_not_label _ (is_float d)), filter_app, fmap_app by done.
    by rewrite foldr_add_app.
Qed.

Lemma tower_counters_match_the_lists_witness :
  exists self tw,
    init ContextExample.double ContextExample.d = Return self
    /\ tower_attrs self = Some tw
    /\ token_field_num (user tw) + token_field_num (item tw) = 2
    /\ float_field_num (user tw) + float_field_num (item tw) = 1.
Proof.
  destruct (init ContextExample.double ContextExample.d) as [self|e] eqn:E;
    [|vm_compute in E; discriminate].
  destruct (tower_counters_match_the_lists _ _ self E) as (tw & Htw & _ & H).
  { vm_compute in E. by injection E as <-. }
  exists self, tw. repeat split; try done.
  all: vm_compute in E; injection E as <-; simpl in Htw; injection Htw as <-;
    by vm_compute.
Defined.

End ContextOffsets.

Module ContextEmbedding.
Import ContextRecommender ContextFacts ContextFields ContextOffsets.

Section embedding.
Context {E : Type}.
Variable emb_token : string -> E.
Variable emb_token_seq : string -> E.
Variable emb_float : string -> nat -> E.
Variable width : string -> nat.

(** The slices of the float fields [names], one per column. *)
Local Abbreviation floats names :=
  (concat ((fun f => emb_float f <$> seq 0 (width f)) <$> names)).

Lemma floats_app (xs ys : list string) :
  floats (xs ++ ys) = floats xs ++ floats ys.
Proof. by rewrite fmap_app, concat_app. Qed.

Lemma floats_length (d : dataset) (names : list string) :
  Forall (fun f => Z.of_nat (width f) = num d f) names ->
  foldr Z.add 0 (num d <$> names) = Z.of_nat (length (floats names)).
Proof.
  induction 1 as [|f names Hf _ IH]; [done|].
  csimpl. rewrite IH, length_app, length_fmap, length_seq. lia.
Qed.

Lemma split_two (a b : list E) :
  split (a ++ b) [Z.of_nat (length a); Z.of_nat (length b)] = Return [a; b].
Proof.
  unfold split. simpl.
  rewrite (proj2 (Z.leb_le _ _)), (proj2 (Z.leb_le _ _)) by lia. simpl.
  rewrite (proj2 (Z.eqb_eq _ _)) by (rewrite length_app; lia).
  rewrite !Nat2Z.id, take_app_length, drop_app_length.
  by rewrite firstn_all.
Qed.

Lemma split_four (a b c e : list E) :
  split (a ++ b ++ c ++ e)
    [Z.of_nat (length a); Z.of_nat (length b); Z.of_nat (length c);
     Z.of_nat (length e)]
  = Return [a; b; c; e].
Proof.
  unfold split. simpl.
  rewrite !(proj2 (Z.leb_le 0 (Z.of_nat _))) by lia. simpl.
  rewrite (proj2 (Z.eqb_eq _ _)) by (rewrite !length_app; lia).
  rewrite !Nat2Z.id.
  repeat (rewrite ?take_app_length, ?drop_app_length; simpl).
  by rewrite firstn_all.
Qed.

(** [concat_embed_input_fields] on any instance. *)
Lemma concat_embed_input_fields_spec (self : t) :
  let l := field_lists self in
  concat_embed_input_fields emb_token emb_token_seq emb_float width self =
    if decide (token_field_names l = [] /\ token_seq_field_names l = []
               /\ float_field_names l = [])
    then Throw (Builtin RuntimeError)
    else Return ((emb_token <$> token_field_names l)
                 ++ (emb_token_seq <$> token_seq_field_names l)
                 ++ floats (float_field_names l)).
Proof.
  unfold concat_embed_input_fields, embed_input_fields. simpl.
  destruct (token_field_names (field_lists self)) as [|t1 tn];
    destruct (token_seq_field_names (field_lists self)) as [|s1 sn];
    destruct (float_field_names (field_lists self)) as [|f1 fn];
    try (rewrite decide_True by done; reflexivity);
    rewrite decide_False by (intros (? & ? & ?); discriminate);
    unfold cat; csimpl; rewrite ?app_nil_r, <- ?app_assoc; reflexivity.
Qed.



End embedding.


End ContextEmbedding.

Module DoubleTower.
Import ContextRecommender ContextFacts ContextFields ContextOffsets ContextEmbedding.

Section towers.
Context {E : Type}.
Variable emb_token : string -> E.
Variable emb_token_seq : string -> E.
Variable emb_float : string -> nat -> E.
Variable width : string -> nat.

Local Abbreviation floats names :=
  (concat ((fun f => emb_float f <$> seq 0 (width f)) <$> names)).

Local Abbreviation run self :=
  (double_tower_embed_input_fields emb_token emb_token_seq emb_float width self).

(** The two embeddings of [embed_input_fields]. *)
Lemma embed_input_fields_spec (self : t) :
  let l := field_lists self in
  embed_input_fields emb_token emb_token_seq emb_float width self =
    (match (emb_token <$> token_field_names l)
           ++ (emb_token_seq <$> token_seq_field_names l) with
     | [] => None
     | sparse => Some sparse
     end,
     match float_field_names l with
     | [] => None
     | names => Some (floats names)
     end).
Proof.
  unfold embed_input_fields. simpl.
  destruct (token_field_names (field_lists self)) as [|t1 tn];
    destruct (token_seq_field_names (field_lists self)) as [|s1 sn];
    csimpl; rewrite ?app_nil_r; reflexivity.
Qed.

(** The field lists of a double tower whose fields do not hold the
    label: the user's fields, then the item's. *)
Lemma double_tower_lists (cfg : config) (d : dataset) (self : t) :
  init cfg d = Return self ->
  double_tower self = true ->
  LABEL self ∉ field_names self ->
  exists tw,
    tower_attrs self = Some tw
    /\ token_field_names (field_lists self) =
         filter (is_token d) (user_field_names tw)
         ++ filter (is_token d) (item_field_names tw)
    /\ token_seq_field_names (field_lists self) =
         filter (is_token_seq d) (user_field_names tw)
         ++ filter (is_token_seq d) (item_field_names tw)
    /\ float_field_names (field_lists self) =
         filter (is_float d) (user_field_names tw)
         ++ filter (is_float d) (item_field_names tw)
    /\ token_field_num (user tw) =
         Z.of_nat (length (filter (is_token d) (user_field_names tw)))
    /\ token_field_num (item tw) =
         Z.of_nat (length (filter (is_token d) (item_field_names tw)))
    /\ token_seq_field_num (user tw) =
         Z.of_nat (length (filter (is_token_seq d) (user_field_names tw)))
    /\ token_seq_field_num (item tw) =
         Z.of_nat (length (filter (is_token_seq d) (item_field_names tw)))
    /\ float_field_num (user tw) =
         foldr Z.add 0 (num d <$> filter (is_float d) (user_field_names tw))
    /\ float_field_num (item tw) =
         foldr Z.add 0 (num d <$> filter (is_float d) (item_field_names tw)).
Proof.
  intros Hinit Hdt Hnot.
  destruct (init_return _ _ _ Hinit) as (_ & _ & Htw & Hcl & _).
  rewrite Hdt in Htw. destruct Htw as (u & i & Hu & Hi & Htw & Hnames).
  exists (mk_towers (fields d [USER; USER_ID]) (fields d [ITEM; ITEM_ID]) u i).
  destruct (count_tower_return _ _ _ _ Hu) as (U1 & U2 & U3 & _).
  destruct (count_tower_return _ _ _ _ Hi) as (I1 & I2 & I3 & _).
  destruct (classify_return _ _ _ _ _ Hcl) as (H1 & H2 & H3 & _).
  simpl in *. rewrite H1, H2, H3, Hnames. rewrite Hnames in Hnot.
  rewrite (filter_not_label _ (is_token d)), (filter_not_label _ (is_float d)),
    (filter_not_label _ (is_token_seq d)), !filter_app by done.
  split_and!; try done; lia.
Qed.

Lemma chunks_four (c e a b : nat) (sparse : list E) :
  length sparse = (c + e + a + b)%nat ->
  split sparse [Z.of_nat c; Z.of_nat e; Z.of_nat a; Z.of_nat b] =
    Return [take c sparse; take e (drop c sparse);
            take a (drop (c + e) sparse); drop (c + e + a) sparse].
Proof.
  intros Hlen. unfold split. simpl.
  rewrite !(proj2 (Z.leb_le 0 (Z.of_nat _))) by lia. simpl.
  rewrite (proj2 (Z.eqb_eq _ _)) by lia.
  rewrite !Nat2Z.id, !drop_drop.
  by rewrite (take_ge (drop (c + e + a) sparse)) by (rewrite length_drop; lia).
Qed.

(** What [double_tower_embed_input_fields] returns on a constructed
    double tower whose fields do not hold the label and whose float
    fields have [dataset.num] columns. *)
Lemma double_tower_run (cfg : config) (d : dataset) (self : t) :
  init cfg d = Return self ->
  double_tower self = true ->
  LABEL self ∉ field_names self ->
  Forall (fun f => Z.of_nat (width f) = num d f)
         (float_field_names (field_lists self)) ->
  exists tw,
    tower_attrs self = Some tw
    /\ let l := field_lists self in
       let sparse := (emb_token <$> token_field_names l)
                     ++ (emb_token_seq <$> token_seq_field_names l) in
       let c := length (filter (is_token_seq d) (user_field_names tw)) in
       let e := length (filter (is_token_seq d) (item_field_names tw)) in
       let a := length (filter (is_token d) (user_field_names tw)) in
       run self =
         Return
           (match sparse with
            | [] => None
            | _ => Some (take c sparse ++ take a (drop (c + e) sparse))
            end,
            match float_field_names l with
            | [] => None
            | _ => Some (floats (filter (is_float d) (user_field_names tw)))
            end,
            match sparse with
            | [] => None
            | _ => Some (take e (drop c sparse) ++ drop (c + e + a) sparse)
            end,
            match float_field_names l with
            | [] => None
            | _ => Some (floats (filter (is_float d) (item_field_names tw)))
            end).
Proof.
  intros Hinit Hdt Hnot Hw.
  destruct (double_tower_lists _ _ _ Hinit Hdt Hnot)
    as (tw & Htw & Ht & Hs & Hf & Ut & It & Us & Is & Uf & If).
  exists tw. split; [done|]. simpl.
  unfold double_tower_embed_input_fields. rewrite Hdt. simpl negb. cbv iota.
  rewrite embed_input_fields_spec. cbv zeta.
  unfold get_towers. rewrite Htw.
  assert (match match float_field_names (field_lists self) with
                | [] => None
                | f :: fs => Some (floats (f :: fs))
                end with
          | Some dense =>
              Return tw ≫= fun tw0 =>
              split dense [float_field_num (user tw0); float_field_num (item tw0)]
              ≫= fun parts =>
                   match parts with
                   | [x; y] => Return (Some x, Some y)
                   | _ => Throw (Builtin ValueError)
                   end
          | None => Return (None, None)
          end
          = Return (match float_field_names (field_lists self) with
                    | [] => None
                    | _ => Some (floats (filter (is_float d) (user_field_names tw)))
                    end,
                    match float_field_names (field_lists self) with
                    | [] => None
                    | _ => Some (floats (filter (is_float d) (item_field_names tw)))
                    end)) as Hdense.
  { destruct (float_field_names (field_lists self)) as [|f fs] eqn:Ef; [done|].
    rewrite Hf in Hw |- *. apply Forall_app in Hw as [HwU HwI].
    change (Return tw ≫= ?k) with (k tw). cbv beta. rewrite Uf, If.
    rewrite (floats_length emb_float width d _ HwU),
      (floats_length emb_float width d _ HwI).
    rewrite (floats_app emb_float width), split_two. done. }
  rewrite Hdense. clear Hdense.
  change (Return ?a ≫= ?k) with (k a). cbv beta iota.
  set (sparse := (emb_token <$> token_field_names (field_lists self))
                 ++ (emb_token_seq <$> token_seq_field_names (field_lists self))).
  assert (length sparse =
          (length (filter (is_token_seq d) (user_field_names tw))
           + length (filter (is_token_seq d) (item_field_names tw))
           + length (filter (is_token d) (user_field_names tw))
           + length (filter (is_token d) (item_field_names tw)))%nat) as Hlen.
  { unfold sparse. rewrite Ht, Hs, length_app, !length_fmap, !length_app. lia. }
  clearbody sparse. destruct sparse as [|x xs]; [done|].
  cbv beta iota. change (Return tw ≫= ?k) with (k tw). cbv beta.
  rewrite Us, Is, Ut, It, (chunks_four _ _ _ _ _ Hlen). simpl.
  by rewrite !app_nil_r.
Qed.

(** On a constructed double tower whose fields do not hold the label and
    whose float fields have [dataset.num] columns,
    [double_tower_embed_input_fields] returns.  The dense embedding is
    separated into the user's float fields and the item's.  The sparse
    embedding is separated into the user's fields and the item's when the
    model has no token-sequence field, and when it has no token field. *)
Theorem double_tower_separates_the_towers (cfg : config) (d : dataset) (self : t) :
  init cfg d = Return self ->
  double_tower self = true ->
  LABEL self ∉ field_names self ->
  Forall (fun f => Z.of_nat (width f) = num d f)
         (float_field_names (field_lists self)) ->
  exists tw first_sparse first_dense second_sparse second_dense,
    tower_attrs self = Some tw
    /\ run self = Return (first_sparse, first_dense, second_sparse, second_dense)
    /\ (first_dense, second_dense) =
         (if decide (float_field_names (field_lists self) = []) then (None, None)
          else (Some (floats (filter (is_float d) (user_field_names tw))),
                Some (floats (filter (is_float d) (item_field_names tw)))))
    /\ (token_seq_field_names (field_lists self) = [] ->
        (first_sparse, second_sparse) =
          if decide (token_field_names (field_lists self) = []) then (None, None)
          else (Some (emb_token <$> filter (is_token d) (user_field_names tw)),
                Some (emb_token <$> filter (is_token d) (item_field_names tw))))
    /\ (token_field_names (field_lists self) = [] ->
        (first_sparse, second_sparse) =
          if decide (token_seq_field_names (field_lists self) = [])
          then (None, None)
          else (Some (emb_token_seq
                        <$> filter (is_token_seq d) (user_field_names tw)),
                Some (emb_token_seq
                        <$> filter (is_token_seq d) (item_field_names tw)))).
Proof.
  intros Hinit Hdt Hnot Hw.
  destruct (double_tower_run _ _ _ Hinit Hdt Hnot Hw) as (tw & Htw & Hrun).
  destruct (double_tower_lists _ _ _ Hinit Hdt Hnot)
    as (tw' & Htw' & Ht & Hs & Hf & _).
  rewrite Htw in Htw'. injection Htw' as <-.
  exists tw. do 4 eexists. split; [done|]. split; [exact Hrun|].
  split_and!.
  - by destruct (float_field_names (field_lists self)).
  - intros Hnil. rewrite Hnil in Hs |- *. symmetry in Hs.
    apply app_eq_nil in Hs as [-> ->]. simpl. rewrite app_nil_r, Ht.
    destruct (decide (filter (is_token d) (user_field_names tw)
                      ++ filter (is_token d) (item_field_names tw) = []))
      as [Hnone | Hsome].
    + by rewrite Hnone.
    + rewrite fmap_app.
      rewrite <- (length_fmap emb_token (filter (is_token d) (user_field_names tw))).
      rewrite drop_0, take_app_length, drop_app_length.
      destruct ((emb_token <$> filter (is_token d) (user_field_names tw))
                ++ (emb_token <$> filter (is_token d) (item_field_names tw)))
        eqn:En; [|done].
      exfalso. apply Hsome. apply app_eq_nil in En as [E1 E2].
      apply fmap_nil_inv in E1, E2. by rewrite E1, E2.
  - intros Hnil. rewrite Hnil in Ht |- *. symmetry in Ht.
    apply app_eq_nil in Ht as [Hu Hi]. rewrite ?Hu, ?Hi. simpl. rewrite Hs.
    destruct (decide (filter (is_token_seq d) (user_field_names tw)
                      ++ filter (is_token_seq d) (item_field_names tw) = []))
      as [Hnone | Hsome].
    + by rewrite Hnone.
    + rewrite fmap_app.
      rewrite <- (length_fmap emb_token_seq
                    (filter (is_token_seq d) (user_field_names tw))).
      rewrite <- (length_fmap emb_token_seq
                    (filter (is_token_seq d) (item_field_names tw))).
      rewrite take_app_length, drop_app_length, firstn_all, take_0, app_nil_r.
      rewrite Nat.add_0_r, <- length_app, drop_all, app_nil_r.
      destruct ((emb_token_seq <$> filter (is_token_seq d) (user_field_names tw))
                ++ (emb_token_seq
                      <$> filter (is_token_seq d) (item_field_names tw)))
        eqn:En; [|done].
      exfalso. apply Hsome. apply app_eq_nil in En as [E1 E2].
      apply fmap_nil_inv in E1, E2. by rewrite E1, E2.
Qed.

(** The sparse embedding is cut by position.  It is laid out as the
    token fields (the user's, then the item's) followed by the
    token-sequence fields (the user's, then the item's), and it is cut
    with the sizes [c; e; a; b], the numbers of the user's and the item's
    token-sequence fields and of the user's and the item's token fields:
    the first tower gets the slices [0, c) and [c + e, c + e + a), the
    second tower the slices [c, c + e) and those from [c + e + a] on. *)
Theorem double_tower_cuts_sparse_by_position (cfg : config) (d : dataset) (self : t) :
  init cfg d = Return self ->
  double_tower self = true ->
  LABEL self ∉ field_names self ->
  Forall (fun f => Z.of_nat (width f) = num d f)
         (float_field_names (field_lists self)) ->
  token_field_names (field_lists self) <> []
  \/ token_seq_field_names (field_lists self) <> [] ->
  exists tw first_dense second_dense,
    tower_attrs self = Some tw
    /\ let sparse :=
         (emb_token <$> filter (is_token d) (user_field_names tw))
         ++ (emb_token <$> filter (is_token d) (item_field_names tw))
         ++ (emb_token_seq <$> filter (is_token_seq d) (user_field_names tw))
         ++ (emb_token_seq <$> filter (is_token_seq d) (item_field_names tw)) in
       let c := length (filter (is_token_seq d) (user_field_names tw)) in
       let e := length (filter (is_token_seq d) (item_field_names tw)) in
       let a := length (filter (is_token d) (user_field_names tw)) in
       run self =
         Return (Some (take c sparse ++ take a (drop (c + e) sparse)),
                 first_dense,
                 Some (take e (drop c sparse) ++ drop (c + e + a) sparse),
                 second_dense).
Proof.
  intros Hinit Hdt Hnot Hw Hsome.
  destruct (double_tower_run _ _ _ Hinit Hdt Hnot Hw) as (tw & Htw & Hrun).
  destruct (double_tower_lists _ _ _ Hinit Hdt Hnot)
    as (tw' & Htw' & Ht & Hs & Hf & _).
  rewrite Htw in Htw'. injection Htw' as <-.
  exists tw. do 2 eexists. split; [done|].
  simpl in *. rewrite Hrun. rewrite Ht, Hs in Hsome |- *.
  rewrite !fmap_app, <- !app_assoc.
  destruct ((emb_token <$> filter (is_token d) (user_field_names tw))
            ++ (emb_token <$> filter (is_token d) (item_field_names tw))
            ++ (emb_token_seq <$> filter (is_token_seq d) (user_field_names tw))
            ++ (emb_token_seq <$> filter (is_token_seq d) (item_field_names tw)))
    as [|x xs] eqn:Ex; [|done].
  exfalso.
  apply app_eq_nil in Ex as [E1 Ex]. apply app_eq_nil in Ex as [E2 Ex].
  apply app_eq_nil in Ex as [E3 E4].
  apply fmap_nil_inv in E1, E2, E3, E4. rewrite E1, E2, E3, E4 in Hsome.
  by destruct Hsome.
Qed.

End towers.

Lemma double_tower_separates_the_towers_witness :
  exists self,
    init ContextExample.double ContextExample.plain = Return self
    /\ double_tower_embed_input_fields (fun f => f) (fun f => f) (fun f _ => f)
         (fun _ => 1%nat) self
       = Return (Some ["user_id"], Some ["age"], Some ["item_id"],
                 Some ["price"])%string.
Proof.
  destruct (init ContextExample.double ContextExample.plain) as [self|e] eqn:E;
    [|vm_compute in E; discriminate].
  exists self.
  assert (self = mk ["user_id"; "age"; "item_id"; "price"]%string "label" true
                   (Some (mk_towers ["user_id"; "age"]%string
                            ["item_id"; "price"]%string
                            (mk_tower 1 1 0) (mk_tower 1 1 0)))
                   (mk_lists ["user_id"; "item_id"]%string [7; 7]
                      ["age"; "price"]%string [1; 1] [] [] 4)
                   (Some [0; 7])) as Hself
    by (vm_compute in E; by injection E as <-).
  split; [done|].
  destruct (double_tower_separates_the_towers (fun f => f) (fun f => f)
              (fun f _ => f) (fun _ => 1%nat) _ _ self E)
    as (tw & fs & fd & ss & sd & Htw & Hrun & Hd & Hs & _).
  - by rewrite Hself.
  - rewrite Hself. simpl. rewrite !elem_of_cons, elem_of_nil.
    intros [?|[?|[?|[?|[]]]]]; discriminate.
  - rewrite Hself. by repeat constructor.
  - rewrite Hrun. rewrite Hself in Htw, Hd, Hs. simpl in Htw, Hd, Hs.
    injection Htw as <-. specialize (Hs eq_refl).
    vm_compute in Hd, Hs. by simplify_eq.
Defined.

Lemma double_tower_cuts_sparse_by_position_witness :
  exists self,
    init ContextExample.double ContextExample.uneven = Return self
    /\ double_tower_embed_input_fields (fun f => f) (fun f => f) (fun f _ => f)
         (fun _ => 7%nat) self
       = Return (Some ["city"; "tags"], None, Some ["user_id"], None)%string.
Proof.
  destruct (init ContextExample.double ContextExample.uneven) as [self|e] eqn:E;
    [|vm_compute in E; discriminate].
  exists self.
  assert (self = mk ["user_id"; "city"; "tags"]%string "label" true
                   (Some (mk_towers ["user_id"; "city"]%string ["tags"]%string
                            (mk_tower 2 0 0) (mk_tower 0 0 1)))
                   (mk_lists ["user_id"; "city"]%string [7; 7] [] []
                      ["tags"]%string [7] 3)
                   (Some [0; 7])) as Hself
    by (vm_compute in E; by injection E as <-).
  split; [done|].
  destruct (double_tower_cuts_sparse_by_position (fun f => f) (fun f => f)
              (fun f _ => f) (fun _ => 7%nat) _ _ self E)
    as (tw & fd & sd & Htw & Hrun).
  - by rewrite Hself.
  - rewrite Hself. simpl. rewrite !elem_of_cons, elem_of_nil.
    intros [?|[?|[?|[]]]]; discriminate.
  - rewrite Hself. by constructor.
  - rewrite Hself. by left.
  - rewrite Hself in Htw. simpl in Htw. injection Htw as <-.
    cbv zeta in Hrun. rewrite Hrun. rewrite Hself in Hrun.
    vm_compute in Hrun. injection Hrun as <- <-. by vm_compute.
Defined.

End DoubleTower.

Module AttentionMask.
Import Py SequenceMethods.



End AttentionMask.

Module GatherFacts.
Import Py PyFacts TorchFacts SequenceMethods.

Section gather.
Context {F : Type}.

(** One entry of the gathered tensor. *)
Local Abbreviation cell L plane :=
  (fun '(h, g) =>
     if (0 <=? g) && (g <? Z.of_nat L)
     then match plane !! Z.to_nat g ≫= (fun row : list F => row !! h) with
          | Some x => Ok x
          | None => Raise RuntimeError
          end
     else Raise RuntimeError).

Lemma gather_cells (L : nat) (plane : list (list F)) (g : Z) (row : list F)
  (n k : nat) :
  0 <= g < Z.of_nat L ->
  plane !! Z.to_nat g = Some row ->
  (k + n <= length row)%nat ->
  mapR (cell L plane) (zip (seq k n) (replicate n g)) = Ok (take n (drop k row)).
Proof.
  intros Hg Hrow. revert k. induction n as [|n IH]; intros k Hk; [done|].
  simpl. rewrite (proj2 (Z.leb_le 0 g)), (proj2 (Z.ltb_lt g _)) by lia. simpl.
  rewrite Hrow. simpl.
  destruct (lookup_lt_is_Some_2 row k ltac:(lia)) as [x Hx].
  rewrite Hx, bind_Ok, IH by lia. simpl.
  by rewrite (drop_S _ _ _ Hx).
Qed.

Lemma gather_row (L : nat) (plane : list (list F)) (g : Z) (row : list F) :
  0 <= g < Z.of_nat L ->
  plane !! Z.to_nat g = Some row ->
  mapR (cell L plane) (zip (seq 0 (length (replicate (length row) g)))
                           (replicate (length row) g)) = Ok row.
Proof.
  intros Hg Hrow. rewrite length_replicate, (gather_cells L plane g row) by done.
  by rewrite drop_0, firstn_all.
Qed.

(** The planes of [gather] for the index of [gather_indexes]. *)
Local Abbreviation planes L H data gather_index :=
  (mapR (fun '(plane, index_b) =>
           mapR (fun index_row : list Z =>
                   mapR (cell L plane)
                        (zip (seq 0 (length index_row)) index_row))
                index_b)
        (zip data ((fun g : Z => [replicate H g]) <$> gather_index))).

Lemma gather_planes_ok (L H : nat) (data : list (list (list F)))
  (gather_index : list Z) :
  Forall (fun plane => length plane = L
                       /\ Forall (fun row => length row = H) plane) data ->
  Forall (fun g => 0 <= g < Z.of_nat L) gather_index ->
  planes L H data gather_index =
    Ok ((fun row => [row])
          <$> zip_with (fun plane g => default [] (plane !! Z.to_nat g))
                data gather_index).
Proof.
  intros Hdata. revert gather_index.
  induction Hdata as [|plane data [Hlen Hrows] _ IH]; intros [|g gi] Hgi;
    try done.
  apply Forall_cons in Hgi as [Hg Hgi].
  destruct (lookup_lt_is_Some_2 plane (Z.to_nat g) ltac:(lia)) as [row Hrow].
  pose proof (Forall_lookup_1 _ _ _ _ Hrows Hrow) as Hrow_len. simpl in Hrow_len.
  rewrite fmap_cons. cbn [zip zip_with mapR]. rewrite <- Hrow_len.
  rewrite (gather_row L plane g row Hg Hrow), !bind_Ok.
  rewrite Hrow_len, (IH gi Hgi), bind_Ok. simpl. by rewrite Hrow.
Qed.

Lemma gather_planes_raise (L H : nat) (data : list (list (list F)))
  (gather_index : list Z) :
  Forall (fun plane => length plane = L
                       /\ Forall (fun row => length row = H) plane) data ->
  (0 < H)%nat ->
  (length gather_index <= length data)%nat ->
  Exists (fun g => ~ 0 <= g < Z.of_nat L) gather_index ->
  planes L H data gather_index = Raise RuntimeError.
Proof.
  intros Hdata HH. revert gather_index.
  induction Hdata as [|plane data [Hlen Hrows] Hdata IH]; intros [|g gi] Hle Hex;
    try (by apply Exists_nil in Hex); try (simpl in Hle; lia).
  rewrite fmap_cons. cbn [zip zip_with mapR].
  destruct (decide (0 <= g < Z.of_nat L)) as [Hg | Hg].
  - destruct (lookup_lt_is_Some_2 plane (Z.to_nat g) ltac:(lia)) as [row Hrow].
    pose proof (Forall_lookup_1 _ _ _ _ Hrows Hrow) as Hrow_len.
    simpl in Hrow_len. rewrite <- Hrow_len.
    rewrite (gather_row L plane g row Hg Hrow), !bind_Ok.
    apply Exists_cons in Hex as [Hex | Hex]; [done|].
    rewrite Hrow_len, (IH gi) by (simpl in Hle; done || lia). done.
  - destruct H as [|H]; [lia|]. simpl.
    assert ((0 <=? g) && (g <? Z.of_nat L) = false) as ->; [|done].
    apply andb_false_iff.
    destruct (decide (0 <= g)); [right; apply Z.ltb_ge | left; apply Z.leb_gt]; lia.
Qed.

Lemma squeeze_rows (rows : list (list F)) :
  mapR (fun plane : list (list F) =>
          match plane with
          | [row] => Ok row
          | _ => Raise RankBeyondEmbedding
          end) ((fun row => [row]) <$> rows) = Ok rows.
Proof.
  rewrite (mapR_fmap _ _ (fun row => row)) by done. by rewrite list_fmap_id.
Qed.

(** [gather_indexes] picks, for each sequence of the batch, the row of
    [output] at the sequence's own index: with every index in
    [[0, len)], entry [b] of the result is [output[b][gather_index[b]]].
    An index out of [[0, len)], a negative one included, raises
    [RuntimeError] (unless the rows are empty), and so do more indices
    than sequences. *)
Theorem gather_indexes_outcomes (output : tensor3 F) (gather_index : list Z) :
  well_shaped output ->
  ((length (data output) < length gather_index)%nat ->
   gather_indexes output gather_index = Raise RuntimeError)
  /\ ((length gather_index <= length (data output))%nat ->
      (Forall (fun g => 0 <= g < Z.of_nat (len output)) gather_index ->
       exists gathered,
         gather_indexes output gather_index = Ok gathered
         /\ length gathered = length gather_index
         /\ forall b g plane,
              gather_index !! b = Some g ->
              data output !! b = Some plane ->
              exists row, plane !! Z.to_nat g = Some row
                          /\ gathered !! b = Some row)
      /\ ((0 < hidden output)%nat ->
          Exists (fun g => ~ 0 <= g < Z.of_nat (len output)) gather_index ->
          gather_indexes output gather_index = Raise RuntimeError)).
Proof.
  intros Hshape. unfold gather_indexes, gather. rewrite length_fmap. split.
  - intros Hlt. by rewrite (proj2 (Nat.ltb_lt _ _)) by done.
  - intros Hle. rewrite (proj2 (Nat.ltb_ge _ _)) by done. split.
    + intros Hgi.
      rewrite (gather_planes_ok _ _ _ _ Hshape Hgi), bind_Ok, squeeze_rows.
      eexists. split; [reflexivity|].
      split; [rewrite length_zip_with; lia|].
      intros b g plane Hg Hplane.
      pose proof (Forall_lookup_1 _ _ _ _ Hshape Hplane) as [Hlen _].
      pose proof (Forall_lookup_1 _ _ _ _ Hgi Hg) as Hin. simpl in Hin, Hlen.
      destruct (lookup_lt_is_Some_2 plane (Z.to_nat g) ltac:(lia)) as [row Hrow].
      exists row. split; [done|].
      by rewrite lookup_zip_with, Hplane, Hg; simpl; rewrite Hrow.
    + intros HH Hex.
      by rewrite (gather_planes_raise _ _ _ _ Hshape HH Hle Hex).
Qed.

End gather.

Lemma gather_indexes_outcomes_witness :
  gather_indexes (mk_tensor3 2 2 [[[1; 2]; [3; 4]]; [[5; 6]; [7; 8]]]) [1; 0]
    = Ok [[3; 4]; [5; 6]]
  /\ gather_indexes (mk_tensor3 2 2 [[[1; 2]; [3; 4]]; [[5; 6]; [7; 8]]]) [1; -1]
     = Raise RuntimeError.
Proof.
  destruct (gather_indexes_outcomes
              (mk_tensor3 2 2 [[[1; 2]; [3; 4]]; [[5; 6]; [7; 8]]]) [1; -1])
    as [_ H]; [by repeat constructor|].
  destruct (H ltac:(simpl; lia)) as [_ Hraise].
  split; [by vm_compute|].
  apply Hraise; [simpl; lia|].
  apply Exists_cons_tl, Exists_cons_hd. simpl. lia.
Defined.

End GatherFacts.

Module OtherParameters.
Import Py PyFacts AbstractRecommender.

Section attributes.
Context {A : Type}.
Implicit Types self other para : gmap string (value A).

(** One step of the dictionary comprehension of [other_parameter]. *)
Local Abbreviation step self :=
  (fun (acc : result (gmap string (value A))) (key : string) =>
     para ← acc; v ← getattr self key; Ok (<[key := v]> para)).

Lemma comprehension_raise self (keys : list string) (e : pyerr) :
  foldl (step self) (Raise e) keys = Raise e.
Proof. induction keys as [|k keys IH]; [done | exact IH]. Qed.

Lemma comprehension_ok self (keys : list string) (acc : gmap string (value A)) :
  Forall (fun k => is_Some (self !! k)) keys ->
  exists para,
    foldl (step self) (Ok acc) keys = Ok para
    /\ forall k, para !! k = if decide (k ∈ keys) then self !! k else acc !! k.
Proof.
  intros Hkeys. revert acc.
  induction Hkeys as [|key keys [v Hv] _ IH]; intros acc.
  - exists acc. split; [done|]. intros k. by rewrite decide_False by apply not_elem_of_nil.
  - simpl.
    assert (getattr self key = Ok v) as -> by (unfold getattr; by rewrite Hv).
    rewrite bind_Ok.
    destruct (IH (<[key := v]> acc)) as (para & Hpara & Hlookup).
    exists para. split; [done|]. intros k. rewrite Hlookup.
    destruct (decide (k ∈ keys)) as [Hin | Hin].
    + by rewrite decide_True by (by right).
    + destruct (decide (k = key)) as [-> | Hne].
      * by rewrite decide_True, lookup_insert_eq by left.
      * rewrite decide_False, lookup_insert_ne; [done | done |].
        by intros [?|?]%elem_of_cons.
Qed.

Lemma comprehension_missing self (keys : list string)
  (acc : gmap string (value A)) :
  Exists (fun k => self !! k = None) keys ->
  foldl (step self) (Ok acc) keys = Raise AttributeError.
Proof.
  intros Hex. revert acc. induction Hex as [key keys Hnone | key keys _ IH];
    intros acc; simpl.
  - assert (getattr self key = Raise AttributeError) as ->
      by (unfold getattr; by rewrite Hnone).
    by rewrite bind_Raise, comprehension_raise.
  - destruct (getattr self key) as [v|e] eqn:Ev; simpl.
    + apply IH.
    + unfold getattr in Ev. destruct (self !! key); simplify_eq.
      apply comprehension_raise.
Qed.

Lemma load_is_union self para :
  load_other_parameter self (Some para) = para ∪ self.
Proof.
  unfold load_other_parameter.
  apply (map_fold_weak_ind (fun r m => r = m ∪ self)).
  - by rewrite (left_id_L ∅ (∪)).
  - intros k v m r Hk ->. by rewrite insert_union_l.
Qed.

(** [other_parameter] returns the attributes named in
    [other_parameter_name], and raises [AttributeError] when one of them
    is not set.  Loading the result back leaves the instance as it is;
    loading it into another instance sets the named attributes to this
    instance's values and leaves every other attribute alone, and the
    other instance then gives the same other parameters when it names the
    same attributes. *)
Theorem other_parameter_round_trip self other (keys : list string) :
  self !! "other_parameter_name" = Some (Names keys) ->
  (Exists (fun k => self !! k = None) keys ->
   other_parameter self = Raise AttributeError)
  /\ (Forall (fun k => is_Some (self !! k)) keys ->
      exists para,
        other_parameter self = Ok para
        /\ (forall k, para !! k = if decide (k ∈ keys) then self !! k else None)
        /\ load_other_parameter self (Some para) = self
        /\ (forall k, load_other_parameter other (Some para) !! k =
                        if decide (k ∈ keys) then self !! k else other !! k)
        /\ (other !! "other_parameter_name" = Some (Names keys) ->
            other_parameter (load_other_parameter other (Some para)) = Ok para)).
Proof.
  intros Hname. unfold other_parameter at 1 2. rewrite Hname. split.
  - apply comprehension_missing.
  - intros Hkeys.
    destruct (comprehension_ok self keys ∅ Hkeys) as (para & Hpara & Hlookup).
    exists para. split; [done|].
    assert (forall k, para !! k = if decide (k ∈ keys) then self !! k else None)
      as Hpara_lookup
      by (intros k; rewrite Hlookup; by destruct (decide (k ∈ keys))).
    assert (forall k, load_other_parameter other (Some para) !! k =
                        if decide (k ∈ keys) then self !! k else other !! k)
      as Hload.
    { intros k. rewrite load_is_union, lookup_union, Hpara_lookup.
      destruct (decide (k ∈ keys)) as [Hin | Hin].
      - destruct (proj1 (Forall_forall _ _) Hkeys k Hin) as [v ->].
        by destruct (other !! k).
      - by rewrite (left_id None _). }
    split_and!; try done.
    + apply map_eq. intros k. rewrite load_is_union, lookup_union, Hpara_lookup.
      destruct (decide (k ∈ keys)) as [Hin | Hin].
      * destruct (proj1 (Forall_forall _ _) Hkeys k Hin) as [v ->]. done.
      * by rewrite (left_id None _).
    + intros Hother. unfold other_parameter.
      rewrite Hload, Hname, Hother.
      assert (Forall (fun k => is_Some (load_other_parameter other (Some para) !! k))
                     keys) as Hkeys'.
      { apply Forall_forall. intros k Hin. rewrite Hload, decide_True by done.
        by apply (proj1 (Forall_forall _ _) Hkeys). }
      destruct (decide ("other_parameter_name"%string ∈ keys)).
      all: destruct (comprehension_ok _ keys ∅ Hkeys') as (para' & -> & Hlookup').
      all: f_equal; apply map_eq; intros k;
        rewrite Hlookup', Hpara_lookup, Hload; by destruct (decide (k ∈ keys)).
Qed.

End attributes.

Lemma other_parameter_round_trip_witness :
  other_parameter
    (<["other_parameter_name" := Names ["a"; "b"]%string]>
       (<["a" := Data 1]> (<["b" := Data 2]> (<["c" := Data 3]> ∅))))
  = Ok (<["a" := Data 1]> (<["b" := Data 2]> ∅)).
Proof.
  destruct (other_parameter_round_trip
              (<["other_parameter_name" := Names ["a"; "b"]%string]>
                 (<["a" := Data 1]> (<["b" := Data 2]> (<["c" := Data 3]> ∅))))
              ∅ ["a"; "b"]%string) as [_ H]; [by vm_compute|].
  destruct H as (para & -> & Hpara & _); [by repeat constructor|].
  f_equal. apply map_eq. intros k. rewrite Hpara.
  destruct (decide (k ∈ ["a"; "b"]%string)) as [Hin | Hin].
  - apply elem_of_cons in Hin as [-> | Hin]; [done|].
    apply elem_of_cons in Hin as [-> | Hin]; [done|].
    by apply elem_of_nil in Hin.
  - rewrite !lookup_insert_ne, lookup_empty; [done | |];
      intros <-; apply Hin; repeat constructor.
Defined.

End OtherParameters.

Module BaseConstruction.
Import Py PyFacts SASRecN LabelFacts ArgFacts LabelRange.

Lemma cal_popular_total (self : SequentialRecommender.t) :
  (0 < SequentialRecommender.n_items self)%nat ->
  exists labels,
    SequentialRecommender.cal_popular self = Ok labels
    /\ length labels = SequentialRecommender.n_items self.
Proof.
  intros Hn.
  destruct (String.eqb (SequentialRecommender.label_strategy self) "avg") eqn:Havg.
  { apply String.eqb_eq in Havg.
    destruct (max_list_nonempty _ (clamped_counts_nonempty _ Hn)) as [m Hm].
    eexists. split; [by apply cal_popular_avg|].
    by rewrite length_fmap, clamped_counts_length. }
  destruct (String.eqb (SequentialRecommender.label_strategy self) "arg") eqn:Harg.
  { apply String.eqb_eq in Harg.
    eexists. split; [by apply cal_popular_arg|].
    by rewrite length_fmap, argsort_length, clamped_counts_length. }
  eexists. split; [by apply cal_popular_other|].
  by rewrite length_fmap, clamped_counts_length.
Qed.

(** Construction of a sequential model which keeps the base
    [cal_popular], with an integer [lcnt]: an empty catalogue raises
    [ValueError]; otherwise construction returns, [self.label] holds the
    labels of [cal_popular], one per item, and [self.pop_label] is
    empty. *)
Theorem base_construction_labels_the_catalogue
  (config : gmap string cval) (d : dataset) (lcnt : Z) :
  config_get config "lcnt" = CInt lcnt ->
  let strategy := match config_get config "label" with
                  | CStr s => s
                  | _ => ""%string
                  end in
  (num d = 0%nat ->
   SequentialRecommender_init SequentialRecommender_class config d ∅
   = Raise ValueError)
  /\ ((0 < num d)%nat ->
      exists self labels,
        SequentialRecommender_init SequentialRecommender_class config d ∅ = Ok self
        /\ SequentialRecommender.cal_popular
             (SequentialRecommender.mk (num d) (counter d) strategy lcnt 0%float)
           = Ok labels
        /\ length labels = num d
        /\ self !! "label" = Some (VList labels)
        /\ self !! "pop_label" = Some (VList [])
        /\ self !! "n_items" = Some (VNat (num d))
        /\ self !! "item_cnt" = Some (VCounter (counter d))).
Proof.
  intros Hlcnt strategy.
  unfold SequentialRecommender_init, call_cal_popular, base_cal_popular_attrs.
  set (self0 := <["label_count" := VCfg (config_get config "lcnt")]> _).
  assert (getattr self0 "n_items" = Ok (VNat (num d))) as -> by reflexivity.
  assert (getattr self0 "item_cnt" = Ok (VCounter (counter d))) as -> by reflexivity.
  assert (getattr self0 "label_strategy" = Ok (VCfg (config_get config "label")))
    as -> by reflexivity.
  assert (getattr self0 "label_count" = Ok (VCfg (config_get config "lcnt")))
    as -> by reflexivity.
  rewrite !bind_Ok, Hlcnt, bind_Ok.
  fold strategy.
  assert (match config_get config "label" with
          | CStr s => s
          | _ => ""%string
          end = strategy) as Hs by done.
  split.
  - intros Hn.
    assert (SequentialRecommender.cal_popular
              (SequentialRecommender.mk (num d) (counter d) strategy lcnt 0%float)
            = Raise ValueError) as Hraise
      by (unfold SequentialRecommender.cal_popular,
            SequentialRecommender.clamped_counts; simpl; by rewrite Hn).
    destruct (config_get config "label"); simpl in *; subst strategy;
      by rewrite Hraise.
  - intros Hn.
    destruct (cal_popular_total
                (SequentialRecommender.mk (num d) (counter d) strategy lcnt 0%float)
                Hn) as (labels & Hlabels & Hlen).
    exists (<["label" := VList labels]> self0), labels.
    split_and!; try done.
    destruct (config_get config "label"); simpl in *; subst strategy;
      by rewrite Hlabels.
Qed.

Lemma base_construction_labels_the_catalogue_witness :
  exists self,
    SequentialRecommender_init SequentialRecommender_class
      (<["lcnt" := CInt 10]> (<["label" := CStr "avg"]> ∅))
      (mk_dataset 5 (SequentialRecommender.counter_of_list [1; 2; 3; 4; 5])) ∅
    = Ok self
    /\ self !! "label" = Some (VList [2; 4; 6; 8; 10])
    /\ self !! "pop_label" = Some (VList []).
Proof.
  destruct (base_construction_labels_the_catalogue
              (<["lcnt" := CInt 10]> (<["label" := CStr "avg"]> ∅))
              (mk_dataset 5 (SequentialRecommender.counter_of_list [1; 2; 3; 4; 5]))
              10) as [_ H]; [by vm_compute|].
  destruct (H ltac:(simpl; lia)) as (self & labels & Hself & Hcal & _ & Hl & Hp & _).
  exists self. split; [done|]. split; [|done].
  rewrite Hl. vm_compute in Hcal. by injection Hcal as <-.
Defined.

End BaseConstruction.

Module PairwiseLoss.
Import Py PyFacts Torch TorchFacts SASRecN ScoringOutcomes.

Section bpr.
Context {F V : Type} `{!Kernel F V} `{!Losses F}.

Lemma mapR_embedding_ok (weight : list V) (ids : list nat) :
  Forall (fun i => (i < length weight)%nat) ids ->
  exists es, mapR (embedding weight) ids = Ok es
             /\ Forall2 (fun i e => weight !! i = Some e) ids es.
Proof.
  induction 1 as [|i ids Hi _ (es & Hes & Hall)].
  - exists []. by split.
  - destruct (lookup_lt_is_Some_2 weight i Hi) as [e He].
    exists (e :: es). cbn [mapR].
    assert (embedding weight i = Ok e) as -> by (unfold embedding; by rewrite He).
    rewrite bind_Ok, Hes. split; [done | by constructor].
Qed.

(** With [loss_type] "BPR", [calculate_loss] compares the raw scores of
    the positive and the negative item of each query: it reads neither
    [c], [alpha] nor the two bias heads, so two models with the same item
    embeddings give the same loss, and a batch of one query is no
    error.  An item id beyond the catalogue raises [IndexError]. *)
Theorem bpr_loss_uses_raw_scores (self : t F V) (interaction : list (row V)) :
  loss_type self = "BPR"%string ->
  (forall self' : t F V,
     loss_type self' = "BPR"%string ->
     item_embedding self' = item_embedding self ->
     calculate_loss self' interaction = calculate_loss self interaction)
  /\ (Exists (fun r => (length (item_embedding self) <= item_id r)%nat
                       \/ (length (item_embedding self) <= neg_item_id r)%nat)
             interaction ->
      calculate_loss self interaction = Raise IndexError)
  /\ (Forall (fun r => (item_id r < length (item_embedding self))%nat
                       /\ (neg_item_id r < length (item_embedding self))%nat)
             interaction ->
      exists pos neg,
        Forall2 (fun r e => item_embedding self !! item_id r = Some e)
                interaction pos
        /\ Forall2 (fun r e => item_embedding self !! neg_item_id r = Some e)
                   interaction neg
        /\ calculate_loss self interaction =
             loss ← BPRLoss (T1 (zip_with mulsum (seq_output <$> interaction) pos))
                            (T1 (zip_with mulsum (seq_output <$> interaction) neg));
             Ok (Single loss)).
Proof.
  intros Hbpr. split_and!.
  - intros self' Hbpr' Hemb. unfold calculate_loss.
    by rewrite Hbpr, Hbpr', Hemb.
  - intros Hex. unfold calculate_loss. rewrite Hbpr. simpl.
    destruct (decide (Forall (fun r => (item_id r < length (item_embedding self))%nat)
                             interaction)) as [Hpos | Hpos].
    + destruct (mapR_embedding_ok (item_embedding self) (item_id <$> interaction))
        as (pos & -> & _); [by apply Forall_fmap|].
      rewrite bind_Ok, mapR_embedding_raises; [done|].
      apply Exists_fmap. apply Exists_exists in Hex as (r & Hin & [Hr | Hr]).
      * rewrite Forall_forall in Hpos. specialize (Hpos r Hin). lia.
      * apply Exists_exists. by exists r.
    + rewrite (mapR_embedding_raises _ (item_id <$> interaction)); [done|].
      apply Exists_fmap. apply not_Forall_Exists in Hpos; [|apply _].
      eapply Exists_impl; [exact Hpos|]. simpl. intros r Hr. lia.
  - intros Hall. unfold calculate_loss. rewrite Hbpr. simpl.
    destruct (mapR_embedding_ok (item_embedding self) (item_id <$> interaction))
      as (pos & -> & Hpos).
    { apply Forall_fmap. eapply Forall_impl; [exact Hall|]. by intros r [? ?]. }
    destruct (mapR_embedding_ok (item_embedding self) (neg_item_id <$> interaction))
      as (neg & -> & Hneg).
    { apply Forall_fmap. eapply Forall_impl; [exact Hall|]. by intros r [? ?]. }
    exists pos, neg. rewrite !bind_Ok.
    split_and!; [by apply Forall2_fmap_l in Hpos | by apply Forall2_fmap_l in Hneg |].
    done.
Qed.

End bpr.

Lemma bpr_loss_uses_raw_scores_witness :
  @calculate_loss Z Z IntKernel.kernel IntKernel.losses IntKernel.bpr_model
    [mk_row 2 5 6] = Ok (Single (-2)).
Proof.
  destruct (@bpr_loss_uses_raw_scores Z Z IntKernel.kernel IntKernel.losses
              IntKernel.bpr_model [mk_row 2 5 6] eq_refl) as (_ & _ & H).
  destruct H as (pos & neg & Hpos & Hneg & ->).
  { repeat constructor; simpl; lia. }
  apply Forall2_cons_inv_l in Hpos as (e & pos' & He & ->%Forall2_nil_inv_l & ->).
  apply Forall2_cons_inv_l in Hneg as (e' & neg' & He' & ->%Forall2_nil_inv_l & ->).
  vm_compute in He, He'. by simplify_eq.
Defined.

End PairwiseLoss.
